(** * Verification of the vulnerability report builder

    A shallow embedding of [buildSummary] and [renderMarkdown] (the
    report-builder module of the repository) together with the lodash and
    JavaScript operations they call, followed by the properties of the
    natural-language specification.

    Modelling conventions
    - A JavaScript string is a [string], the sequence of the bytes of its
      text.  The regular-expression class [\w] is the ASCII letters, digits
      and underscore.  [toUpperCase] turns the ASCII letters of an ASCII
      text into upper case; the Unicode case mapping of any other text is
      a parameter, [unicodeUpper], and every property of the summary is
      proved for every such mapping.
    - A JavaScript number that holds a confidence score is a finite double,
      given by its exact value, a rational [Q]; comparisons are exact.  The
      mean of the scores and its rounding to two decimals are computed as
      the program computes them, in double precision: every sum, quotient
      and decimal conversion is rounded to the nearest double
      ([JsNumber.nearest]), and the result may be an infinity or NaN.
      Counts are [nat].
    - A plain JavaScript object used as a dictionary is a property table
      ([JsObject.t]): the list of its own properties in creation order,
      enumerated the way the language enumerates them (array-index keys first,
      in ascending order, then the other keys in creation order).
    - An optional field of a finding is an [option]; [None] is [undefined]. *)

From Stdlib Require Import String Ascii List Bool Arith PeanoNat NArith ZArith.
From Stdlib Require Import QArith Qround Qabs Qpower Lia Lqa.
From Stdlib Require Import DecimalString Sorted Permutation.
From Stdlib Require Import SpecFloat.
Import ListNotations.

Close Scope Q_scope.
Open Scope string_scope.
Open Scope nat_scope.

(* ------------------------------------------------------------------ *)
(** ** JavaScript strings *)

Module JsString.

(** Code of a character. *)
Definition code (c : ascii) : nat := nat_of_ascii c.

Definition is_lower (c : ascii) : bool :=
  (97 <=? code c) && (code c <=? 122).

Definition is_upper (c : ascii) : bool :=
  (65 <=? code c) && (code c <=? 90).

Definition is_digit (c : ascii) : bool :=
  (48 <=? code c) && (code c <=? 57).

(** The class [\w] of a regular expression without the unicode flag:
    [[A-Za-z0-9_]]. *)
Definition is_word (c : ascii) : bool :=
  is_lower c || is_upper c || is_digit c || (code c =? 95).

Definition upper_char (c : ascii) : ascii :=
  if is_lower c then ascii_of_nat (code c - 32) else c.

(** Upper case of a text of ASCII characters: the letters [a-z] become
    [A-Z]. *)
Fixpoint upperAscii (s : string) : string :=
  match s with
  | EmptyString => EmptyString
  | String c s' => String (upper_char c) (upperAscii s')
  end.

(** Every character of [s] is an ASCII character. *)
Fixpoint all_ascii (s : string) : bool :=
  match s with
  | EmptyString => true
  | String c s' => (code c <? 128) && all_ascii s'
  end.

(** [String.prototype.toUpperCase].  On a text of ASCII characters the
    letters [a-z] become [A-Z].  The upper case of any other text follows
    the Unicode case mapping of the platform (the dotless i becomes [I], the
    sharp s becomes [SS]), which the model takes as the parameter
    [unicodeUpper]. *)
Definition toUpperCase (unicodeUpper : string -> string) (s : string)
  : string :=
  if all_ascii s then upperAscii s else unicodeUpper s.

(** [Array.prototype.includes] on an array of string literals, applied to
    a value that may be [undefined]. *)
Definition includes (xs : list string) (v : option string) : bool :=
  match v with
  | Some s => existsb (String.eqb s) xs
  | None => false
  end.

(** Every character of [s] is in [\w]. *)
Fixpoint all_word (s : string) : bool :=
  match s with
  | EmptyString => true
  | String c s' => is_word c && all_word s'
  end.

(** The longest prefix of word characters, and what follows it: the
    greedy match of [\w*]. *)
Fixpoint span_word (s : string) : string * string :=
  match s with
  | EmptyString => (EmptyString, EmptyString)
  | String c s' =>
      if is_word c
      then let '(w, r) := span_word s' in (String c w, r)
      else (EmptyString, s)
  end.

(** [s] without the prefix [p], when it starts with it. *)
Fixpoint strip_prefix (p s : string) : option string :=
  match p, s with
  | EmptyString, _ => Some s
  | String a p', String b s' =>
      if Ascii.eqb a b then strip_prefix p' s' else None
  | String _ _, EmptyString => None
  end.

(** Decimal text of a non-negative integer, as string conversion of an
    integral number prints it. *)
Definition of_nat (n : nat) : string :=
  NilEmpty.string_of_uint (Nat.to_uint n).

(** [Array.prototype.join] / [_.join]. *)
Fixpoint join (sep : string) (xs : list string) : string :=
  match xs with
  | [] => EmptyString
  | [x] => x
  | x :: rest => x ++ sep ++ join sep rest
  end.

(** Numeric value of a string of decimal digits ([None] when a character
    is not a digit). *)
Fixpoint digits_value (acc : N) (s : string) : option N :=
  match s with
  | EmptyString => Some acc
  | String c s' =>
      if is_digit c
      then digits_value (acc * 10 + N.of_nat (code c - 48))%N s'
      else None
  end.

(** A property key that is an array index: the canonical decimal text of
    an integer in [[0, 2^32 - 2]]. *)
Definition array_index (s : string) : option N :=
  match s with
  | EmptyString => None
  | String c rest =>
      if (Ascii.eqb c "0"%char) && negb (String.eqb rest EmptyString)
      then None
      else match digits_value 0%N s with
           | Some v => if (v <=? 4294967294)%N then Some v else None
           | None => None
           end
  end.

End JsString.

(* ------------------------------------------------------------------ *)
(** ** Plain objects used as dictionaries *)

Module JsObject.

(** The own properties of an object, in creation order.  A key occurs at
    most once: [set] overwrites in place. *)
Definition t (V : Type) : Type := list (string * V).

Definition empty {V : Type} : t V := [].

(** [o[k]]; [None] is [undefined]. *)
Fixpoint get {V : Type} (o : t V) (k : string) : option V :=
  match o with
  | [] => None
  | (k', v) :: o' => if String.eqb k k' then Some v else get o' k
  end.

(** [o[k] = v]: an existing property keeps its place, a new one is created
    after the others. *)
Fixpoint set {V : Type} (o : t V) (k : string) (v : V) : t V :=
  match o with
  | [] => [(k, v)]
  | (k', v') :: o' =>
      if String.eqb k k' then (k', v) :: o' else (k', v') :: set o' k v
  end.

(** The properties whose key is an array index, with the index. *)
Fixpoint indexed {V : Type} (o : t V) : list (N * (string * V)) :=
  match o with
  | [] => []
  | (k, v) :: o' =>
      match JsString.array_index k with
      | Some i => (i, (k, v)) :: indexed o'
      | None => indexed o'
      end
  end.

(** The properties whose key is not an array index, in creation order. *)
Fixpoint named {V : Type} (o : t V) : t V :=
  match o with
  | [] => []
  | (k, v) :: o' =>
      match JsString.array_index k with
      | Some _ => named o'
      | None => (k, v) :: named o'
      end
  end.

Fixpoint insert_by_index {V : Type} (x : N * (string * V))
  (l : list (N * (string * V))) : list (N * (string * V)) :=
  match l with
  | [] => [x]
  | y :: l' =>
      if (fst x <=? fst y)%N then x :: y :: l' else y :: insert_by_index x l'
  end.

Definition ascending {V : Type} (l : list (N * (string * V)))
  : list (N * (string * V)) :=
  fold_right insert_by_index [] l.

(** Enumeration order of the own properties ([Object.keys], [for in]):
    array-index keys in ascending numeric order, then the other keys in
    creation order. *)
Definition entries {V : Type} (o : t V) : list (string * V) :=
  map snd (ascending (indexed o)) ++ named o.

Definition keys {V : Type} (o : t V) : list string := map fst (entries o).

End JsObject.

(* ------------------------------------------------------------------ *)
(** ** JavaScript numbers *)

(** A Number is an IEEE 754 double.  A finite double is given by its exact
    value, a rational (the two zeros are not told apart); arithmetic rounds
    the exact result to the nearest double, ties to the double whose last
    bit is even, and overflows to an infinity. *)
Module JsNumber.

Inductive t : Type :=
| Finite (value : Q)
| Infinity (negative : bool)
| NaN.

Definition pow2 (z : Z) : Q := Qpower 2 z.

Definition pow10 (z : Z) : Q := Qpower 10 z.

(** The exponent [e] of a positive number [a]: [2^e <= a < 2^(e+1)]. *)
Definition binade (a : Q) : Z :=
  let e := (Z.log2 (Qnum a) - Z.log2 (Zpos (Qden a)))%Z in
  if Qle_bool (pow2 e) a then e else (e - 1)%Z.

(** The nearest integer, a tie going to the even one. *)
Definition roundHalfEven (x : Q) : Z :=
  let f := Qfloor x in
  match Qcompare (x - inject_Z f) (1 # 2) with
  | Lt => f
  | Gt => (f + 1)%Z
  | Eq => if Z.even f then f else (f + 1)%Z
  end.

(** The spacing of the doubles around a positive number: 53 significant
    bits, and [2^-1074] for the subnormal numbers. *)
Definition quantum (a : Q) : Q := pow2 (Z.max (binade a - 52) (-1074)).

(** The multiple of the spacing nearest to a positive number. *)
Definition nearestMagnitude (a : Q) : Q :=
  (inject_Z (roundHalfEven (a / quantum a)) * quantum a)%Q.

(** The double nearest to a real number: the result of an arithmetic
    operation whose exact result is [q], and the value of a decimal
    literal that denotes [q]. *)
Definition nearest (q : Q) : t :=
  match Qcompare q 0 with
  | Eq => Finite 0
  | Gt =>
      let r := nearestMagnitude q in
      if Qle_bool (pow2 1024) r then Infinity false else Finite r
  | Lt =>
      let r := nearestMagnitude (- q) in
      if Qle_bool (pow2 1024) r then Infinity true else Finite (- r)
  end.

(** The value of the decimal literal that denotes [q] (a literal far from
    the overflow threshold). *)
Definition literal (q : Q) : Q :=
  match nearest q with
  | Finite r => Qred r
  | _ => q
  end.

(** [x + y], for a finite [y]. *)
Definition add (x : t) (y : Q) : t :=
  match x with
  | Finite a => nearest (a + y)
  | _ => x
  end.

(** [x / n], for a count [n] that is not 0. *)
Definition divide (x : t) (n : nat) : t :=
  match x with
  | Finite a => nearest (a / inject_Z (Z.of_nat n))
  | _ => x
  end.

(** [Math.round(y)] on a finite number: the nearest integer, a tie going
    up. *)
Definition mathRound (y : Q) : Q := inject_Z (Qfloor (y + (1 # 2))).

(** The decimal exponent [p] of a positive number [a]:
    [10^p <= a < 10^(p+1)], found near its estimate from the binary
    exponent. *)
Definition decade (a : Q) : Z :=
  let p := ((binade a * 30103) / 100000)%Z in
  match find (fun z => Qle_bool (pow10 z) a)
             [(p + 2)%Z; (p + 1)%Z; p; (p - 1)%Z] with
  | Some z => z
  | None => (p - 2)%Z
  end.

(** The decimal [c] is read back as the double [a]. *)
Definition roundTrips (c a : Q) : bool :=
  match nearest c with
  | Finite r => Qeq_bool r a
  | _ => false
  end.

(** The decimal of [k] significant digits that is read back as [a], when
    there is one: of the two decimals of [k] digits around [a], the one
    that is read back as [a]; when both are, the closer one, and the one
    with the even last digit when they are as close. *)
Definition shortestAt (a : Q) (p k : Z) : option Q :=
  let scale := pow10 (p - k + 1) in
  let s := Qfloor (a / scale) in
  let lower := (inject_Z s * scale)%Q in
  let upper := (inject_Z (s + 1) * scale)%Q in
  match roundTrips lower a, roundTrips upper a with
  | true, false => Some lower
  | false, true => Some upper
  | true, true =>
      match Qcompare (a - lower) (upper - a) with
      | Lt => Some lower
      | Gt => Some upper
      | Eq => if Z.even s then Some lower else Some upper
      end
  | false, false => None
  end.

(** The search for the smallest number of digits, from [k] on.  (A double
    is read back from 17 digits at most; a number that is not a double
    stands for itself.) *)
Fixpoint shortestFrom (digits : nat) (a : Q) (p k : Z) : Q :=
  match digits with
  | O => a
  | S digits' =>
      match shortestAt a p k with
      | Some c => Qred c
      | None => shortestFrom digits' a p (k + 1)
      end
  end.

(** The number that the text [String(q)] denotes: Number-to-string
    conversion prints the decimal with the fewest significant digits that is
    read back as [q]. *)
Definition toDecimal (q : Q) : Q :=
  match Qcompare q 0 with
  | Eq => 0
  | Gt => shortestFrom 17 q (decade q) 1
  | Lt => - shortestFrom 17 (- q) (decade (- q)) 1
  end.

End JsNumber.

(* ------------------------------------------------------------------ *)
(** ** The lodash functions the module calls *)

Module Lodash.

(** [_.get(r, field, dflt)] on a field that may be [undefined]. *)
Definition get {A : Type} (v : option A) (dflt : A) : A :=
  match v with
  | Some a => a
  | None => dflt
  end.

(** [_.size] of an array. *)
Definition size {A : Type} (xs : list A) : nat := length xs.

(** The step of [_.countBy]: a key seen for the first time is created
    with 1, a known key is incremented. *)
Definition bump {A : Type} (key : A -> string) (o : JsObject.t nat) (x : A)
  : JsObject.t nat :=
  match JsObject.get o (key x) with
  | Some n => JsObject.set o (key x) (S n)
  | None => JsObject.set o (key x) 1
  end.

(** [_.countBy(xs, key)]: one pass over [xs], left to right, from the empty
    object. *)
Definition countBy {A : Type} (key : A -> string) (xs : list A)
  : JsObject.t nat :=
  fold_left (bump key) xs JsObject.empty.

(** The step of [_.groupBy]: a key seen for the first time is created
    with a one-element array, a known key has the element pushed at the end
    of its array. *)
Definition push {A : Type} (key : A -> string) (o : JsObject.t (list A))
  (x : A) : JsObject.t (list A) :=
  match JsObject.get o (key x) with
  | Some g => JsObject.set o (key x) (g ++ [x])%list
  | None => JsObject.set o (key x) [x]
  end.

(** [_.groupBy(xs, key)]: one pass over [xs], left to right, from the empty
    object. *)
Definition groupBy {A : Type} (key : A -> string) (xs : list A)
  : JsObject.t (list A) :=
  fold_left (push key) xs JsObject.empty.

(** [_.mapValues(o, f)]: a new object with the keys of [o], created in the
    enumeration order of [o]. *)
Definition mapValues {V W : Type} (f : V -> string -> W) (o : JsObject.t V)
  : JsObject.t W :=
  map (fun kv => (fst kv, f (snd kv) (fst kv))) (JsObject.entries o).

(** [_.defaults(o, src)]: every key of [src] that [o] lacks is created in
    [o] with the value of [src]. *)
Definition defaults {V : Type} (o : JsObject.t V) (src : list (string * V))
  : JsObject.t V :=
  fold_left
    (fun acc kv =>
       match JsObject.get acc (fst kv) with
       | Some _ => acc
       | None => JsObject.set acc (fst kv) (snd kv)
       end)
    src o.

(** [_.map(o, f)] on an object none of whose values is a number: [f] is
    applied to each own property, in enumeration order. *)
Definition map_object {V B : Type} (f : V -> string -> B) (o : JsObject.t V)
  : list B :=
  map (fun kv => f (snd kv) (fst kv)) (JsObject.entries o).

(** [_.map(o, f)] on an object of counts.  lodash iterates an object that
    has a numeric [length] property like an array: [f] is applied to the
    indices [0 .. length-1], the value at a missing index being
    [undefined].  Otherwise [f] is applied to each own property, in
    enumeration order. *)
Definition map_counts {B : Type} (f : option nat -> string -> B)
  (o : JsObject.t nat) : list B :=
  match JsObject.get o "length" with
  | Some n =>
      map (fun i => f (JsObject.get o (JsString.of_nat i)) (JsString.of_nat i))
        (seq 0 n)
  | None => map (fun kv => f (Some (snd kv)) (fst kv)) (JsObject.entries o)
  end.

(** Stable insertion of [x] in a list sorted by [rank]: [x] goes before the
    first element whose rank is not smaller. *)
Fixpoint insert_by {A : Type} (rank : A -> nat) (x : A) (l : list A) : list A :=
  match l with
  | [] => [x]
  | y :: l' =>
      if rank x <=? rank y then x :: y :: l' else y :: insert_by rank x l'
  end.

(** [_.sortBy(xs, rank)]: ascending by [rank]; lodash breaks ties by the
    index in [xs], so the order is the stable one. *)
Definition sortBy {A : Type} (rank : A -> nat) (xs : list A) : list A :=
  fold_right (insert_by rank) [] xs.

(** [_.take(xs, n)]. *)
Definition take {A : Type} (n : nat) (xs : list A) : list A := firstn n xs.

(** A number is falsy when it is zero. *)
Definition truthy (c : Q) : bool := negb (Qeq_bool c 0).

(** [_.compact(xs)] on an array of numbers that may be [undefined]: drops
    the falsy elements, [undefined] and [0]. *)
Fixpoint compact (xs : list (option Q)) : list Q :=
  match xs with
  | [] => []
  | Some c :: xs' => if truthy c then c :: compact xs' else compact xs'
  | None :: xs' => compact xs'
  end.

Definition isEmpty {A : Type} (xs : list A) : bool :=
  match xs with
  | [] => true
  | _ :: _ => false
  end.

(** [_.sum(xs)] on a non-empty array: [baseSum] starts from the first
    element and adds the others, left to right, in double precision. *)
Definition sum (xs : list Q) : JsNumber.t :=
  match xs with
  | [] => JsNumber.Finite 0
  | c :: cs => fold_left JsNumber.add cs (JsNumber.Finite c)
  end.

(** [_.mean(xs)] = [baseSum(xs) / xs.length].  (On the empty array lodash
    yields NaN; the caller tests [isEmpty] first.) *)
Definition mean (xs : list Q) : JsNumber.t :=
  match xs with
  | [] => JsNumber.NaN
  | _ :: _ => JsNumber.divide (sum xs) (length xs)
  end.

(** [_.round(x, 2)].  On a finite number lodash shifts the decimal point
    in the text of the number: [String(x)] followed by [e2] is read as a
    number, [Math.round] is applied, and the text of the result followed by
    [e-2] is read as a number.  When the shifted number is read as an
    infinity, the text [Infinitye-2] is read as NaN.  A number that is not
    finite is passed to [Math.round], which returns it. *)
Definition round2 (x : JsNumber.t) : JsNumber.t :=
  match x with
  | JsNumber.Finite q =>
      match JsNumber.nearest (JsNumber.toDecimal q * 100) with
      | JsNumber.Finite y =>
          JsNumber.nearest (JsNumber.toDecimal (JsNumber.mathRound y) / 100)
      | _ => JsNumber.NaN
      end
  | _ => x
  end.

(** [a < b] on numbers. *)
Definition ltb (a b : Q) : bool := negb (Qle_bool b a).

(** [a >= b] on numbers. *)
Definition geb (a b : Q) : bool := Qle_bool b a.

(** [_.min(xs)]: the first smallest element.  (On the empty array lodash
    yields [undefined]; the caller tests [isEmpty] first, and the model
    returns 0 there.) *)
Definition min (xs : list Q) : Q :=
  match xs with
  | [] => 0%Q
  | c :: cs => fold_left (fun m x => if ltb x m then x else m) cs c
  end.

End Lodash.

(* ------------------------------------------------------------------ *)
(** ** Data model *)

(** One validation result (a finding).  Every field is read with [_.get],
    so each may be absent. *)
Module Finding.
Record t : Type := mk {
  cveId : option string;
  packageUrl : option string;
  severity : option string;
  classification : option string;
  fixVersion : option string;
  confidence : option Q
}.
End Finding.

Module EcosystemSummary.
Record t : Type := mk {
  ecosystem : string;
  count : nat;
  critical : nat;
  high : nat;
  fixable : nat
}.
End EcosystemSummary.

Module ActionItem.
Record t : Type := mk {
  id : option string;
  package : option string;
  severity : option string;
  classification : option string;
  fixVersion : option string
}.
End ActionItem.

Module ActionRequired.
Record t : Type := mk {
  count : nat;
  items : list ActionItem.t
}.
End ActionRequired.

Module Distribution.
Record t : Type := mk {
  high : nat;
  medium : nat;
  low : nat
}.
End Distribution.

Module ConfidenceStats.
Record t : Type := mk {
  average : JsNumber.t;
  minimum : Q;
  distribution : Distribution.t
}.
End ConfidenceStats.

Module Overview.
Record t : Type := mk {
  totalVulnerabilities : nat;
  bySeverity : JsObject.t nat;
  byClassification : JsObject.t nat
}.
End Overview.

Module Summary.
Record t : Type := mk {
  generatedAt : string;
  overview : Overview.t;
  ecosystems : JsObject.t EcosystemSummary.t;
  actionRequired : ActionRequired.t;
  confidence : ConfidenceStats.t
}.
End Summary.

(* ------------------------------------------------------------------ *)
(** ** buildSummary *)

Section BuildSummary.

(** The Unicode case mapping of [toUpperCase]. *)
Variable unicodeUpper : string -> string.

(** [_.get(r, "severity", "UNKNOWN").toUpperCase()] *)
Definition severityKey (r : Finding.t) : string :=
  JsString.toUpperCase unicodeUpper
    (Lodash.get (Finding.severity r) "UNKNOWN").

(** [_.get(r, "classification", "UNCLASSIFIED")] *)
Definition classificationKey (r : Finding.t) : string :=
  Lodash.get (Finding.classification r) "UNCLASSIFIED".

(** [purl.match(/^pkg:(\w+)\//)]: the text of the capture group when the
    expression matches.  After the literal [pkg:] the group takes the
    longest run of word characters; the run must be non-empty and be
    followed by [/].  (A shorter run cannot match either: it would be
    followed by a word character.) *)
Definition matchPkg (purl : string) : option string :=
  match JsString.strip_prefix "pkg:" purl with
  | None => None
  | Some rest =>
      match JsString.span_word rest with
      | (EmptyString, _) => None
      | (w, String c _) => if Ascii.eqb c "/"%char then Some w else None
      | (_, EmptyString) => None
      end
  end.

(** The grouping key of [byEcosystem]. *)
Definition ecosystemOf (r : Finding.t) : string :=
  let purl := Lodash.get (Finding.packageUrl r) EmptyString in
  match matchPkg purl with
  | Some eco => eco
  | None => "unknown"
  end.

Definition bySeverity (results : list Finding.t) : JsObject.t nat :=
  Lodash.countBy severityKey results.

Definition byClassification (results : list Finding.t) : JsObject.t nat :=
  Lodash.countBy classificationKey results.

Definition byEcosystem (results : list Finding.t)
  : JsObject.t (list Finding.t) :=
  Lodash.groupBy ecosystemOf results.

(** [_.get(i, "severity") === lit] *)
Definition severityIs (lit : string) (i : Finding.t) : bool :=
  match Finding.severity i with
  | Some s => String.eqb s lit
  | None => false
  end.

Definition isFixable (i : Finding.t) : bool :=
  JsString.includes ["SAFE_PATCH"; "MINOR_BUMP"; "MAJOR_BUMP_SAFE"]
    (Finding.classification i).

Definition summarize (items : list Finding.t) (ecosystem : string)
  : EcosystemSummary.t :=
  {| EcosystemSummary.ecosystem := ecosystem;
     EcosystemSummary.count := Lodash.size items;
     EcosystemSummary.critical := length (filter (severityIs "CRITICAL") items);
     EcosystemSummary.high := length (filter (severityIs "HIGH") items);
     EcosystemSummary.fixable := length (filter isFixable items) |}.

Definition ecosystemSummaries (results : list Finding.t)
  : JsObject.t EcosystemSummary.t :=
  Lodash.mapValues summarize (byEcosystem results).

(** [_.get(r, "severity", empty).toUpperCase()], [empty] the empty string *)
Definition severityUpper (r : Finding.t) : string :=
  JsString.toUpperCase unicodeUpper
    (Lodash.get (Finding.severity r) EmptyString).

Definition isSevere (r : Finding.t) : bool :=
  JsString.includes ["CRITICAL"; "HIGH"] (Some (severityUpper r)).

Definition isActionable (r : Finding.t) : bool :=
  JsString.includes ["SAFE_PATCH"; "MINOR_BUMP"] (Finding.classification r).

(** The object literal [{ CRITICAL: 0, HIGH: 1 }]. *)
Definition order : JsObject.t nat := [("CRITICAL", 0); ("HIGH", 1)].

(** [_.get(order, severityUpper r, 99)].  (lodash reads its second
    argument as a path; on a text without dot or bracket, so on the two
    keys that pass the filters, the path is the property name.) *)
Definition severityRank (r : Finding.t) : nat :=
  Lodash.get (JsObject.get order (severityUpper r)) 99.

Definition actionRequired (results : list Finding.t) : list Finding.t :=
  Lodash.take 10
    (Lodash.sortBy severityRank
       (filter isActionable (filter isSevere results))).

Definition toItem (r : Finding.t) : ActionItem.t :=
  {| ActionItem.id := Finding.cveId r;
     ActionItem.package := Finding.packageUrl r;
     ActionItem.severity := Finding.severity r;
     ActionItem.classification := Finding.classification r;
     ActionItem.fixVersion := Finding.fixVersion r |}.

(** [_.compact(_.map(results, "confidence"))] *)
Definition confidences (results : list Finding.t) : list Q :=
  Lodash.compact (map Finding.confidence results).

Definition avgConfidence (results : list Finding.t) : JsNumber.t :=
  if Lodash.isEmpty (confidences results)
  then JsNumber.Finite 0
  else Lodash.round2 (Lodash.mean (confidences results)).

Definition minConfidence (results : list Finding.t) : Q :=
  if Lodash.isEmpty (confidences results)
  then 0%Q
  else Lodash.min (confidences results).

(** The object literal of the canonical severities. *)
Definition canonicalSeverities : list (string * nat) :=
  [("CRITICAL", 0); ("HIGH", 0); ("MEDIUM", 0); ("LOW", 0)].

Definition isHighConfidence (c : Q) : bool := Lodash.geb c (8 # 10).

Definition isMediumConfidence (c : Q) : bool :=
  Lodash.geb c (5 # 10) && Lodash.ltb c (8 # 10).

Definition isLowConfidence (c : Q) : bool := Lodash.ltb c (5 # 10).

(** [buildSummary(results)].  [now] is the text of the clock reading
    [new Date().toISOString()]. *)
Definition buildSummary (now : string) (results : list Finding.t) : Summary.t :=
  let total := Lodash.size results in
  let confs := confidences results in
  {| Summary.generatedAt := now;
     Summary.overview :=
       {| Overview.totalVulnerabilities := total;
          Overview.bySeverity :=
            Lodash.defaults (bySeverity results) canonicalSeverities;
          Overview.byClassification := byClassification results |};
     Summary.ecosystems := ecosystemSummaries results;
     Summary.actionRequired :=
       {| ActionRequired.count := length (actionRequired results);
          ActionRequired.items := map toItem (actionRequired results) |};
     Summary.confidence :=
       {| ConfidenceStats.average := avgConfidence results;
          ConfidenceStats.minimum := minConfidence results;
          ConfidenceStats.distribution :=
            {| Distribution.high := length (filter isHighConfidence confs);
               Distribution.medium := length (filter isMediumConfidence confs);
               Distribution.low := length (filter isLowConfidence confs) |} |} |}.

End BuildSummary.

(* ------------------------------------------------------------------ *)
(** ** renderMarkdown *)

Section Render.

(** String conversion of a number that is not a count (the confidence
    average and minimum); the conversion is the language's, not the
    module's. *)
Variable numberToString : JsNumber.t -> string.

(** A string field inside a template literal; [undefined] prints its name. *)
Definition template (v : option string) : string := Lodash.get v "undefined".

(** A count inside a template literal. *)
Definition templateCount (v : option nat) : string :=
  match v with
  | Some n => JsString.of_nat n
  | None => "undefined"
  end.

(** [v || dflt]: the empty string is falsy, like [undefined]. *)
Definition orElse (v : option string) (dflt : string) : string :=
  match v with
  | Some EmptyString => dflt
  | Some s => s
  | None => dflt
  end.

Definition classificationLine (count : option nat) (cls : string) : string :=
  "- **" ++ cls ++ "**: " ++ templateCount count.

Definition ecosystemLine (eco : EcosystemSummary.t) (key : string) : string :=
  "- **" ++ EcosystemSummary.ecosystem eco ++ "**: "
  ++ JsString.of_nat (EcosystemSummary.count eco) ++ " vulns ("
  ++ JsString.of_nat (EcosystemSummary.fixable eco) ++ " fixable)".

Definition itemLine (item : ActionItem.t) : string :=
  "- `" ++ template (ActionItem.id item) ++ "` in `"
  ++ template (ActionItem.package item) ++ "` — "
  ++ template (ActionItem.severity item) ++ " / "
  ++ template (ActionItem.classification item) ++ " → fix: "
  ++ orElse (ActionItem.fixVersion item) "N/A".

(** The line that carries the timestamp. *)
Definition generatedLine (generatedAt : string) : string :=
  "_Generated: " ++ generatedAt ++ "_".

Definition totalsLine (ov : Overview.t) : string :=
  "**" ++ JsString.of_nat (Overview.totalVulnerabilities ov)
  ++ "** vulnerabilities found | "
  ++ "**"
  ++ JsString.of_nat
       (Lodash.get (JsObject.get (Overview.bySeverity ov) "CRITICAL") 0)
  ++ "** critical | "
  ++ "**"
  ++ JsString.of_nat
       (Lodash.get (JsObject.get (Overview.bySeverity ov) "HIGH") 0)
  ++ "** high".

Definition actionHeader (a : ActionRequired.t) : string :=
  "## Action Required (" ++ JsString.of_nat (ActionRequired.count a) ++ ")".

Definition confidenceLine (c : ConfidenceStats.t) : string :=
  "_Confidence: avg " ++ numberToString (ConfidenceStats.average c)
  ++ " | min "
  ++ numberToString (JsNumber.Finite (ConfidenceStats.minimum c)) ++ "_".

(** The array [lines] of [renderMarkdown], without its last element. *)
Definition body (summary : Summary.t) : list string :=
  let ov := Summary.overview summary in
  ([ "# Vulnerability Scan Summary"; EmptyString; totalsLine ov; EmptyString;
     "## By Classification" ]
   ++ Lodash.map_counts classificationLine (Overview.byClassification ov)
   ++ [ EmptyString; "## Ecosystems" ]
   ++ Lodash.map_object ecosystemLine (Summary.ecosystems summary)
   ++ [ EmptyString; actionHeader (Summary.actionRequired summary) ]
   ++ map itemLine (ActionRequired.items (Summary.actionRequired summary))
   ++ [ EmptyString; "---"; confidenceLine (Summary.confidence summary) ])%list.

(** The array [lines] of [renderMarkdown]. *)
Definition lines (summary : Summary.t) : list string :=
  (body summary ++ [ generatedLine (Summary.generatedAt summary) ])%list.

(** [renderMarkdown(summary)] *)
Definition renderMarkdown (summary : Summary.t) : string :=
  JsString.join (String "010"%char EmptyString) (lines summary).

End Render.

(* ------------------------------------------------------------------ *)
(** ** The multipart client: submitReport *)

(** One part of a multipart form, as [form.append(field, body, options)]
    adds it. *)
Module FormPart.
Record t : Type := mk {
  field : string;
  body : string;
  filename : option string;
  contentType : option string;
  knownLength : option nat
}.
End FormPart.

(** An evidence file [{ buffer, name, mime }]. *)
Module EvidenceFile.
Record t : Type := mk {
  buffer : string;
  name : option string;
  mime : option string
}.
End EvidenceFile.

(** A call of [axios.post(url, form, { headers })], with the two headers
    the client adds to those of the form. *)
Module PostRequest.
Record t : Type := mk {
  url : string;
  form : list FormPart.t;
  xApiKey : string;
  xAttempt : string
}.
End PostRequest.

(** What a post does: it resolves with [response.data], or it throws an
    error with a message. *)
Inductive PostResult : Type :=
| Resolved (data : string)
| Rejected (message : string).

(** What the client does, in order. *)
Inductive ClientEvent : Type :=
| Posted (request : PostRequest.t)
| Slept (ms : nat).

(** How [submitReport] ends: it returns the data of a response, it throws
    its own error, or it fails on reading [lastError.message] when no
    attempt was made. *)
Inductive SubmitOutcome : Type :=
| Returned (data : string)
| Thrown (message : string)
| TypeError.

Module MultipartClient.

Record t : Type := mk {
  baseUrl : string;
  apiKey : string;
  retries : nat;
  retryDelay : nat
}.

(** [new MultipartClient(baseUrl, apiKey)] *)
Definition new (baseUrl apiKey : string) : t :=
  {| baseUrl := baseUrl; apiKey := apiKey; retries := 3; retryDelay := 1000 |}.

(** The part appended for an evidence file. *)
Definition evidencePart (file : EvidenceFile.t) : FormPart.t :=
  {| FormPart.field := "evidence";
     FormPart.body := EvidenceFile.buffer file;
     FormPart.filename := EvidenceFile.name file;
     FormPart.contentType :=
       Some (match EvidenceFile.mime file with
             | Some EmptyString => "application/octet-stream"
             | Some m => m
             | None => "application/octet-stream"
             end);
     FormPart.knownLength := Some (String.length (EvidenceFile.buffer file)) |}.

(** The form of [submitReport]: the report, the evidence files, the time
    of submission and the version.  [reportJson] is
    [JSON.stringify(report)], [now] the clock reading. *)
Definition buildForm (reportJson : string) (evidenceFiles : list EvidenceFile.t)
  (now : string) : list FormPart.t :=
  ([ {| FormPart.field := "report";
        FormPart.body := reportJson;
        FormPart.filename := Some "report.json";
        FormPart.contentType := Some "application/json";
        FormPart.knownLength := None |} ]
   ++ map evidencePart evidenceFiles
   ++ [ {| FormPart.field := "submittedAt";
           FormPart.body := now;
           FormPart.filename := None;
           FormPart.contentType := None;
           FormPart.knownLength := None |};
        {| FormPart.field := "version";
           FormPart.body := "2.1.0";
           FormPart.filename := None;
           FormPart.contentType := None;
           FormPart.knownLength := None |} ])%list.

(** The request of one attempt. *)
Definition request (c : t) (form : list FormPart.t) (attempt : nat)
  : PostRequest.t :=
  {| PostRequest.url := baseUrl c ++ "/api/v1/reports";
     PostRequest.form := form;
     PostRequest.xApiKey := apiKey c;
     PostRequest.xAttempt := JsString.of_nat attempt |}.

(** The error thrown after the loop. *)
Definition failure (c : t) (lastError : option string) : SubmitOutcome :=
  match lastError with
  | Some message =>
      Thrown ("Report submission failed after " ++ JsString.of_nat (retries c)
              ++ " attempts: " ++ message)
  | None => TypeError
  end.

(** The retry loop, from the iteration of number [attempt] on.  [todo] is
    the number of iterations left, [retries + 1 - attempt]: the loop
    condition [attempt <= retries] holds as long as it is positive. *)
Fixpoint attempts (c : t) (post : PostRequest.t -> PostResult)
  (form : list FormPart.t) (todo attempt : nat) (lastError : option string)
  : list ClientEvent * SubmitOutcome :=
  match todo with
  | 0 => ([], failure c lastError)
  | S todo' =>
      match post (request c form attempt) with
      | Resolved data => ([Posted (request c form attempt)], Returned data)
      | Rejected message =>
          let pause :=
            if attempt <? retries c
            then [Slept (retryDelay c * attempt)]
            else [] in
          let rest := attempts c post form todo' (S attempt) (Some message) in
          ((Posted (request c form attempt) :: pause) ++ fst rest, snd rest)%list
      end
  end.

(** [submitReport(report, evidenceFiles)]: what the client does and how
    the call ends. *)
Definition submitReport (c : t) (post : PostRequest.t -> PostResult)
  (reportJson : string) (evidenceFiles : list EvidenceFile.t) (now : string)
  : list ClientEvent * SubmitOutcome :=
  attempts c post (buildForm reportJson evidenceFiles now) (retries c) 1 None.

End MultipartClient.


(* ------------------------------------------------------------------ *)
(** ** Dependency declarations and version ranges *)

(** The two sections of a [package.json] the tools read; a missing
    section is [undefined]. *)
Module PackageJson.
Record t : Type := mk {
  dependencies : option (JsObject.t string);
  devDependencies : option (JsObject.t string)
}.
End PackageJson.

Module Deps.

(** The own properties an object spread copies, in enumeration order;
    spreading [undefined] copies nothing. *)
Definition spreadEntries (o : option (JsObject.t string))
  : list (string * string) :=
  match o with
  | Some t => JsObject.entries t
  | None => []
  end.

(** [{ ...pkg.dependencies, ...pkg.devDependencies }] *)
Definition merged (pkg : PackageJson.t) : JsObject.t string :=
  fold_left
    (fun o kv => JsObject.set o (fst kv) (snd kv))
    (spreadEntries (PackageJson.dependencies pkg)
     ++ spreadEntries (PackageJson.devDependencies pkg))%list
    JsObject.empty.

(** The class [[\^~]] of the health checker. *)
Definition isCaretOrTilde (ch : ascii) : bool :=
  Ascii.eqb ch "^"%char || Ascii.eqb ch "~"%char.

(** [version.replace(/^[\^~]/, "")]: one leading caret or tilde is
    removed. *)
Definition stripCaret (version : string) : string :=
  match version with
  | String ch rest => if isCaretOrTilde ch then rest else version
  | EmptyString => version
  end.

(** The class [[\^~>=<]] of the registry mirror. *)
Definition isRangeChar (ch : ascii) : bool :=
  Ascii.eqb ch "^"%char || Ascii.eqb ch "~"%char || Ascii.eqb ch ">"%char
  || Ascii.eqb ch "="%char || Ascii.eqb ch "<"%char.

(** [versionRange.replace(/^[\^~>=<]*/g, "")]: the longest leading run of
    range characters is removed (the expression is anchored, so it matches
    once, at the start). *)
Fixpoint stripRange (versionRange : string) : string :=
  match versionRange with
  | String ch rest => if isRangeChar ch then stripRange rest else versionRange
  | EmptyString => versionRange
  end.

End Deps.

(* ------------------------------------------------------------------ *)
(** ** The health score, in double precision *)

Module Double.

(** The precision and the exponent bound of binary64. *)
Definition prec : Z := 53.
Definition emax : Z := 1024.

(** The double of an integer. *)
Definition ofZ (z : Z) : spec_float :=
  SpecFloat.binary_normalize prec emax z 0 false.

Definition div (x y : spec_float) : spec_float := SpecFloat.SFdiv prec emax x y.

Definition mul (x y : spec_float) : spec_float := SpecFloat.SFmul prec emax x y.

(** A number after [Math.round]: not a number, an infinity, or an
    integer. *)
Inductive rounded : Type :=
| NaN
| Infinity (negative : bool)
| Integer (z : Z).

(** The exact value [m * 2^e] of a finite double. *)
Definition value (negative : bool) (m : positive) (e : Z) : Q :=
  let magnitude :=
    match e with
    | Zneg p => Qmake (Zpos m) (2 ^ p)%positive
    | _ => inject_Z (Zpos m * 2 ^ e)
    end in
  if negative then Qopp magnitude else magnitude.

(** [Math.round(x)]: the integer nearest to [x], the larger one at a tie. *)
Definition round (x : spec_float) : rounded :=
  match x with
  | S754_nan => NaN
  | S754_infinity s => Infinity s
  | S754_zero _ => Integer 0
  | S754_finite s m e => Integer (Qfloor (value s m e + (1 # 2))%Q)
  end.

End Double.

(* ------------------------------------------------------------------ *)
(** ** The dependency health checker: runFullCheck *)

(** An entry of the [errors] array of [runFullCheck]. *)
Module CheckError.
Record t : Type := mk {
  name : string;
  version : string;
  error : string
}.
End CheckError.

(** The object [runFullCheck] returns.  The source writes the key [errors]
    twice, first with the number of errors and then with the array: the
    object keeps the array. *)
Module FullCheck.
Record t (Report : Type) : Type := mk {
  totalDependencies : nat;
  checked : nat;
  outdated : nat;
  deprecated : nat;
  healthScore : Double.rounded;
  results : list Report;
  errors : list CheckError.t;
  checkedAt : string
}.
Arguments mk {Report}.
Arguments totalDependencies {Report}.
Arguments checked {Report}.
Arguments outdated {Report}.
Arguments deprecated {Report}.
Arguments healthScore {Report}.
Arguments results {Report}.
Arguments errors {Report}.
Arguments checkedAt {Report}.
End FullCheck.

Section HealthCheck.

(** The report of [checkPackage], of which [runFullCheck] reads two
    flags. *)
Variable Report : Type.
Variable isOutdated : Report -> bool.
Variable isDeprecated : Report -> bool.

(** [checkPackage(name, currentVersion)], which queries the registry: it
    resolves with a report ([inl]) or throws an error with a message
    ([inr]). *)
Variable checkPackage : string -> string -> Report + string.

(** One iteration of the loop over the entries. *)
Definition checkStep (acc : list Report * list CheckError.t)
  (entry : string * string) : list Report * list CheckError.t :=
  let name := fst entry in
  let version := snd entry in
  match checkPackage name (Deps.stripCaret version) with
  | inl report => ((fst acc ++ [report])%list, snd acc)
  | inr message =>
      (fst acc,
       (snd acc ++ [ {| CheckError.name := name;
                        CheckError.version := version;
                        CheckError.error := message |} ])%list)
  end.

(** [Math.round(((checked - outdated - deprecated) / total) * 100)] *)
Definition score (checked outdated deprecated total : nat) : Double.rounded :=
  Double.round
    (Double.mul
       (Double.div
          (Double.ofZ (Z.of_nat checked - Z.of_nat outdated - Z.of_nat deprecated))
          (Double.ofZ (Z.of_nat total)))
       (Double.ofZ 100)).

(** [runFullCheck()], on the content of [package.json]; [now] is the clock
    reading. *)
Definition runFullCheck (pkg : PackageJson.t) (now : string)
  : FullCheck.t Report :=
  let deps := Deps.merged pkg in
  let entries := JsObject.entries deps in
  let outcome := fold_left checkStep entries ([], []) in
  let results := fst outcome in
  let errors := snd outcome in
  let outdatedCount := length (filter isOutdated results) in
  let deprecatedCount := length (filter isDeprecated results) in
  {| FullCheck.totalDependencies := length entries;
     FullCheck.checked := length results;
     FullCheck.outdated := outdatedCount;
     FullCheck.deprecated := deprecatedCount;
     FullCheck.healthScore :=
       score (length results) outdatedCount deprecatedCount (length entries);
     FullCheck.results := results;
     FullCheck.errors := errors;
     FullCheck.checkedAt := now |}.

End HealthCheck.

(* ------------------------------------------------------------------ *)
(** ** The registry mirror: mirrorFromPackageJson *)

(** An entry of the [failures] array. *)
Module MirrorFailure.
Record t : Type := mk {
  package : string;
  version : string;
  error : string
}.
End MirrorFailure.

Module MirrorRun.
Record t (Tarball : Type) : Type := mk {
  mirrored : nat;
  failed : nat;
  total : nat;
  cacheDir : string;
  results : list Tarball;
  failures : list MirrorFailure.t
}.
Arguments mk {Tarball}.
Arguments mirrored {Tarball}.
Arguments failed {Tarball}.
Arguments total {Tarball}.
Arguments cacheDir {Tarball}.
Arguments results {Tarball}.
Arguments failures {Tarball}.
End MirrorRun.

Section Mirror.

(** What [downloadTarball] resolves with. *)
Variable Tarball : Type.

(** [downloadTarball(packageName, version)], which fetches and writes the
    tarball: it resolves ([inl]) or throws an error with a message
    ([inr]). *)
Variable downloadTarball : string -> string -> Tarball + string.

(** One iteration of the loop over the entries. *)
Definition mirrorStep (acc : list Tarball * list MirrorFailure.t)
  (entry : string * string) : list Tarball * list MirrorFailure.t :=
  let name := fst entry in
  let version := Deps.stripRange (snd entry) in
  match downloadTarball name version with
  | inl result => ((fst acc ++ [result])%list, snd acc)
  | inr message =>
      (fst acc,
       (snd acc ++ [ {| MirrorFailure.package := name;
                        MirrorFailure.version := version;
                        MirrorFailure.error := message |} ])%list)
  end.

(** [mirrorFromPackageJson(pkgJsonPath)], on the content of the file;
    [cacheDir] is the directory of the mirror. *)
Definition mirrorFromPackageJson (cacheDir : string) (pkg : PackageJson.t)
  : MirrorRun.t Tarball :=
  let allDeps := Deps.merged pkg in
  let outcome := fold_left mirrorStep (JsObject.entries allDeps) ([], []) in
  {| MirrorRun.mirrored := length (fst outcome);
     MirrorRun.failed := length (snd outcome);
     MirrorRun.total := length (JsObject.keys allDeps);
     MirrorRun.cacheDir := cacheDir;
     MirrorRun.results := fst outcome;
     MirrorRun.failures := snd outcome |}.

End Mirror.


(* ------------------------------------------------------------------ *)
(** ** JavaScript values and path access *)

(** The values a configuration holds: what [JSON.parse] yields, and
    [undefined].  An array carries its elements and, beside them, the named
    properties that were assigned to it.  An object is a tree: no part of
    it is shared. *)
Module JsValue.

#[local] Unset Elimination Schemes.

Inductive t : Type :=
| Undefined
| Null
| Bool (b : bool)
| Num (n : Q)
| Str (s : string)
| Arr (elements : list t) (named : list (string * t))
| Obj (props : list (string * t)).

#[local] Set Elimination Schemes.

(** [_.isNil(v)] *)
Definition isNil (v : t) : bool :=
  match v with
  | Undefined | Null => true
  | _ => false
  end.

(** [_.isObject(v)] *)
Definition isObject (v : t) : bool :=
  match v with
  | Arr _ _ | Obj _ => true
  | _ => false
  end.

(** [_.isArray(v)] *)
Definition isArray (v : t) : bool :=
  match v with
  | Arr _ _ => true
  | _ => false
  end.

(** [typeof v] *)
Definition typeOf (v : t) : string :=
  match v with
  | Undefined => "undefined"
  | Null => "object"
  | Bool _ => "boolean"
  | Num _ => "number"
  | Str _ => "string"
  | Arr _ _ => "object"
  | Obj _ => "object"
  end.

(** The position a key denotes in an array or a string, when it is an
    array index. *)
Definition position (k : string) : option nat :=
  option_map N.to_nat (JsString.array_index k).

(** [v[k]] on a value that is not [null] or [undefined], for a key that
    names no member of a built-in prototype (no method such as [toString]):
    an own property, or [undefined]. *)
Definition prop (v : t) (k : string) : t :=
  match v with
  | Obj props =>
      match JsObject.get props k with
      | Some x => x
      | None => Undefined
      end
  | Arr elements named =>
      match position k with
      | Some i => nth i elements Undefined
      | None =>
          if String.eqb k "length"
          then Num (inject_Z (Z.of_nat (length elements)))
          else match JsObject.get named k with
               | Some x => x
               | None => Undefined
               end
      end
  | Str s =>
      match position k with
      | Some i =>
          match String.get i s with
          | Some ch => Str (String ch EmptyString)
          | None => Undefined
          end
      | None =>
          if String.eqb k "length"
          then Num (inject_Z (Z.of_nat (String.length s)))
          else Undefined
      end
  | _ => Undefined
  end.

(** [k in Object(v)] for a key that contains a dot: an own named
    property. *)
Definition hasOwn (v : t) (k : string) : bool :=
  match v with
  | Obj props =>
      match JsObject.get props k with
      | Some _ => true
      | None => false
      end
  | Arr _ named =>
      match JsObject.get named k with
      | Some _ => true
      | None => false
      end
  | _ => false
  end.

(** [v[k] = x] on an object or an array, for a key other than [length]:
    an element of the array when the key is an array index (the array grows
    as needed), a named property otherwise. *)
Definition assign (v : t) (k : string) (x : t) : t :=
  match v with
  | Obj props => Obj (JsObject.set props k x)
  | Arr elements named =>
      match position k with
      | Some i =>
          if i <? length elements
          then Arr (firstn i elements ++ x :: skipn (S i) elements)%list named
          else Arr (elements ++ repeat Undefined (i - length elements) ++ [x])%list
                   named
      | None => Arr elements (JsObject.set named k x)
      end
  | _ => v
  end.

End JsValue.

(** The path functions of lodash, on a path without bracket: a text of
    keys separated by dots. *)
Module Path.

(** The text has a dot. *)
Fixpoint hasDot (s : string) : bool :=
  match s with
  | EmptyString => false
  | String ch rest => Ascii.eqb ch "."%char || hasDot rest
  end.

(** The keys between the dots. *)
Fixpoint splitDots (s : string) : list string :=
  match s with
  | EmptyString => [EmptyString]
  | String ch rest =>
      if Ascii.eqb ch "."%char
      then EmptyString :: splitDots rest
      else match splitDots rest with
           | key :: keys => String ch key :: keys
           | [] => [String ch EmptyString]
           end
  end.

(** [castPath(path, object)]: the path is one key when it has no dot or
    when the object has a property of that very name, and the keys between
    its dots otherwise. *)
Definition castPath (path : string) (object : JsValue.t) : list string :=
  if negb (hasDot path) || JsValue.hasOwn object path
  then [path]
  else splitDots path.

(** The loop of [baseGet]: it follows the keys as long as the value is not
    [null] or [undefined], and yields [undefined] when keys are left. *)
Fixpoint walk (object : JsValue.t) (keys : list string) : JsValue.t :=
  match keys with
  | [] => object
  | key :: rest =>
      if JsValue.isNil object
      then JsValue.Undefined
      else walk (JsValue.prop object key) rest
  end.

(** [_.get(object, path)] *)
Definition get (object : JsValue.t) (path : string) : JsValue.t :=
  if JsValue.isNil object
  then JsValue.Undefined
  else walk object (castPath path object).

(** A key [baseSet] refuses to write. *)
Definition unsafeKey (key : string) : bool :=
  String.eqb key "__proto__" || String.eqb key "constructor"
  || String.eqb key "prototype".

(** [isIndex(key)]: the canonical text of a natural number below
    [2^53 - 1]. *)
Definition isIndex (key : string) : bool :=
  match key with
  | EmptyString => false
  | String ch rest =>
      if Ascii.eqb ch "0"%char && negb (String.eqb rest EmptyString)
      then false
      else match JsString.digits_value 0%N key with
           | Some v => (v <? 9007199254740991)%N
           | None => false
           end
  end.

(** The loop of [baseSet] from the object [nested] on: an intermediate
    value that is not an object is replaced by a new object, or by a new
    array when the next key is an index. *)
Fixpoint write (nested : JsValue.t) (keys : list string) (x : JsValue.t)
  : JsValue.t :=
  match keys with
  | [] => nested
  | key :: rest =>
      if unsafeKey key then nested
      else match rest with
           | [] => JsValue.assign nested key x
           | next :: _ =>
               let objValue := JsValue.prop nested key in
               let child :=
                 if JsValue.isObject objValue then objValue
                 else if isIndex next then JsValue.Arr [] []
                      else JsValue.Obj [] in
               JsValue.assign nested key (write child rest x)
           end
  end.

(** [_.set(object, path, x)], as the object it leaves. *)
Definition set (object : JsValue.t) (path : string) (x : JsValue.t)
  : JsValue.t :=
  if JsValue.isObject object
  then write object (castPath path object) x
  else object.

End Path.


(* ------------------------------------------------------------------ *)
(** ** The configuration schema and its validation *)

(** A rule of the schema: an object with a key [type].  An absent key
    [default], [min] or [max] is [None]; an absent [required] is false. *)
Module Rule.
Record t : Type := mk {
  type : string;
  default : option JsValue.t;
  required : bool;
  min : option Q;
  max : option Q
}.
End Rule.

#[local] Unset Elimination Schemes.

(** The schema: rules, and groups of named sub-schemas (objects without a
    key [type]). *)
Inductive Schema : Type :=
| SRule (rule : Rule.t)
| SGroup (children : list (string * Schema)).

#[local] Set Elimination Schemes.

Definition numberRule (default : option Q) (min max : option Q) : Schema :=
  SRule {| Rule.type := "number";
           Rule.default := option_map JsValue.Num default;
           Rule.required := false;
           Rule.min := min;
           Rule.max := max |}.

Definition stringRule (default : option string) (required : bool) : Schema :=
  SRule {| Rule.type := "string";
           Rule.default := option_map JsValue.Str default;
           Rule.required := required;
           Rule.min := None;
           Rule.max := None |}.

Definition plainRule (type : string) (default : JsValue.t) : Schema :=
  SRule {| Rule.type := type;
           Rule.default := Some default;
           Rule.required := false;
           Rule.min := None;
           Rule.max := None |}.

(** [CONFIG_SCHEMA] *)
Definition CONFIG_SCHEMA : list (string * Schema) :=
  [ ("server",
     SGroup
       [ ("port", numberRule (Some 3000%Q) (Some 1%Q) (Some 65535%Q));
         ("host", stringRule (Some "0.0.0.0") false);
         ("cors",
          SGroup
            [ ("origins",
               plainRule "array" (JsValue.Arr [JsValue.Str "*"] []));
              ("credentials", plainRule "boolean" (JsValue.Bool false)) ]) ]);
    ("integrations",
     SGroup
       [ ("github",
          SGroup
            [ ("token", stringRule None true);
              ("baseUrl", stringRule (Some "https://api.github.com") false) ]);
         ("jira",
          SGroup
            [ ("baseUrl", stringRule None false);
              ("email", stringRule None false);
              ("apiToken", stringRule None false);
              ("projectKey", stringRule (Some "SEC") false) ]);
         ("slack",
          SGroup
            [ ("webhookUrl", stringRule None false);
              ("channel", stringRule (Some "#security-alerts") false) ]) ]);
    ("processing",
     SGroup
       [ ("batchSize", numberRule (Some 50%Q) (Some 1%Q) (Some 500%Q));
         ("concurrency", numberRule (Some 10%Q) (Some 1%Q) (Some 100%Q));
         ("timeout", numberRule (Some 30000%Q) None None);
         ("retries", numberRule (Some 3%Q) (Some 0%Q) (Some 10%Q)) ]) ].

(** The template [prefix ? `${prefix}.${key}` : key]. *)
Definition fullPath (prefix key : string) : string :=
  match prefix with
  | EmptyString => key
  | _ => prefix ++ "." ++ key
  end.

(** One step of the reduction of [flattenSchema]: [sub] is the flattened
    sub-schema of a group. *)
Definition flattenStep (prefix : string) (acc : JsObject.t Rule.t)
  (entry : string * (Schema * JsObject.t Rule.t)) : JsObject.t Rule.t :=
  match fst (snd entry) with
  | SRule rule => JsObject.set acc (fullPath prefix (fst entry)) rule
  | SGroup _ =>
      fold_left (fun a kv => JsObject.set a (fst kv) (snd kv))
        (JsObject.entries (snd (snd entry))) acc
  end.

(** [flattenSchema(schema, prefix)] on the group [node].  The sub-schemas
    are flattened first, each with its own prefix, and the reduction then
    visits the keys in enumeration order; it uses the flattened sub-schema
    of a group only. *)
Fixpoint flattenGroup (node : Schema) (prefix : string) {struct node}
  : JsObject.t Rule.t :=
  match node with
  | SRule _ => JsObject.empty
  | SGroup children =>
      let flattened :=
        (fix each (cs : list (string * Schema))
           : list (string * (Schema * JsObject.t Rule.t)) :=
           match cs with
           | [] => []
           | (key, child) :: rest =>
               (key, (child, flattenGroup child (fullPath prefix key)))
               :: each rest
           end) children in
      fold_left (flattenStep prefix) (JsObject.entries flattened)
        JsObject.empty
  end.

(** [flattenSchema(schema, prefix)] *)
Definition flattenSchema (schema : list (string * Schema)) (prefix : string)
  : JsObject.t Rule.t :=
  flattenGroup (SGroup schema) prefix.

(** An entry of the [errors] array. *)
Module ValidationError.
Record t : Type := mk {
  path : string;
  message : string
}.
End ValidationError.

(** The object [validateConfig] returns. *)
Module Validation.
Record t : Type := mk {
  valid : bool;
  errors : list ValidationError.t;
  config : JsValue.t
}.
End Validation.

(** The double quote character. *)
Definition quote : string := String (ascii_of_nat 34) EmptyString.

(** [const flat = flattenSchema(CONFIG_SCHEMA)], as the list of the rules
    under their paths, in the order in which [_.forEach(flat, ...)] visits
    them. *)
Definition schemaRules : list (string * Rule.t) :=
  JsObject.entries (flattenSchema CONFIG_SCHEMA EmptyString).

Section Validate.

(** String conversion of a bound of the schema. *)
Variable numberToString : Q -> string.

Definition requiredMessage (path : string) : string :=
  "Required field " ++ quote ++ path ++ quote ++ " is missing".

Definition typeMessage (rule : Rule.t) (path actualType : string) : string :=
  "Expected " ++ Rule.type rule ++ " at " ++ quote ++ path ++ quote
  ++ ", got " ++ actualType.

Definition minMessage (path : string) (min : Q) : string :=
  quote ++ path ++ quote ++ " must be >= " ++ numberToString min.

Definition maxMessage (path : string) (max : Q) : string :=
  quote ++ path ++ quote ++ " must be <= " ++ numberToString max.

(** [_.isArray(value) ? "array" : typeof value] *)
Definition actualTypeOf (value : JsValue.t) : string :=
  if JsValue.isArray value then "array" else JsValue.typeOf value.

(** The range check of a number: the errors it adds. *)
Definition rangeErrors (rule : Rule.t) (path : string) (value : JsValue.t)
  : list ValidationError.t :=
  match value with
  | JsValue.Num n =>
      (match Rule.min rule with
       | Some min =>
           if Lodash.ltb n min
           then [ValidationError.mk path (minMessage path min)]
           else []
       | None => []
       end
       ++
       match Rule.max rule with
       | Some max =>
           if Lodash.ltb max n
           then [ValidationError.mk path (maxMessage path max)]
           else []
       | None => []
       end)%list
  | _ => []
  end.

(** The body of the [_.forEach] of [validateConfig], for one rule: the
    configuration and the errors it leaves. *)
Definition validateStep (state : JsValue.t * list ValidationError.t)
  (entry : string * Rule.t) : JsValue.t * list ValidationError.t :=
  let config := fst state in
  let errors := snd state in
  let path := fst entry in
  let rule := snd entry in
  let value := Path.get config path in
  match JsValue.isNil value, Rule.default rule with
  | true, Some default => (Path.set config path default, errors)
  | _, _ =>
      if Rule.required rule && JsValue.isNil value
      then (config,
            (errors ++ [ValidationError.mk path (requiredMessage path)])%list)
      else if JsValue.isNil value then (config, errors)
      else if negb (String.eqb (actualTypeOf value) (Rule.type rule))
      then (config,
            (errors
             ++ [ValidationError.mk path
                   (typeMessage rule path (actualTypeOf value))])%list)
      else if String.eqb (Rule.type rule) "number"
      then (config, (errors ++ rangeErrors rule path value)%list)
      else (config, errors)
  end.

(** [validateConfig(rawConfig)] *)
Definition validateConfig (rawConfig : JsValue.t) : Validation.t :=
  let final := fold_left validateStep schemaRules (rawConfig, []) in
  {| Validation.valid := length (snd final) =? 0;
     Validation.errors := snd final;
     Validation.config := fst final |}.

End Validate.

(* ------------------------------------------------------------------ *)
(** ** Environment overrides *)

Module Env.

Definition lower_char (ch : ascii) : ascii :=
  if JsString.is_upper ch then ascii_of_nat (JsString.code ch + 32) else ch.

(** [String.prototype.toLowerCase], on a text of ASCII characters. *)
Fixpoint toLowerCase (s : string) : string :=
  match s with
  | EmptyString => EmptyString
  | String ch rest => String (lower_char ch) (toLowerCase rest)
  end.

(** [s.replace(/_/g, ".")] *)
Fixpoint underscoresToDots (s : string) : string :=
  match s with
  | EmptyString => EmptyString
  | String ch rest =>
      String (if Ascii.eqb ch "_"%char then "."%char else ch)
        (underscoresToDots rest)
  end.

(** [s.replace(/^CONFVE_/, "")] *)
Definition dropPrefix (s : string) : string :=
  match JsString.strip_prefix "CONFVE_" s with
  | Some rest => rest
  | None => s
  end.

(** The path [mergeEnvOverrides] computes for a variable. *)
Definition overridePath (key : string) : string :=
  underscoresToDots (toLowerCase (dropPrefix key)).

(** [/^\d+$/.test(value)] *)
Definition allDigits (value : string) : bool :=
  match value with
  | EmptyString => false
  | _ =>
      match JsString.digits_value 0%N value with
      | Some _ => true
      | None => false
      end
  end.

(** The coerced value of a variable: a boolean, the number
    [_.toNumber(digits)] of a text of digits, or the text itself. *)
Inductive coerced : Type :=
| CBool (b : bool)
| CNumber (digits : string)
| CString (s : string).

Definition coerce (value : string) : coerced :=
  if String.eqb value "true" then CBool true
  else if String.eqb value "false" then CBool false
  else if allDigits value then CNumber value
  else CString value.

End Env.


(* ------------------------------------------------------------------ *)
(** ** Vocabulary of the specification *)

(** Sum of the values of a table of counts. *)
Definition totalCount (o : JsObject.t nat) : nat := list_sum (map snd o).

(** Number of elements of [xs] that [key] sends to [k]. *)
Definition occurrences {A : Type} (key : A -> string) (k : string)
  (xs : list A) : nat :=
  length (filter (fun x => String.eqb (key x) k) xs).

(** The four canonical severity names. *)
Definition canonical : list string := ["CRITICAL"; "HIGH"; "MEDIUM"; "LOW"].

(** A case mapping that leaves every text outside ASCII as it is, for the
    examples: their text is ASCII. *)
Definition unchanged (s : string) : string := s.

(** The severity of a finding as it is observed: in upper case, and UNKNOWN
    when the finding has none. *)
Definition observedSeverity (unicodeUpper : string -> string) (r : Finding.t)
  : string :=
  match Finding.severity r with
  | Some s => JsString.toUpperCase unicodeUpper s
  | None => "UNKNOWN"
  end.

(** The classification of a finding as it is observed: UNCLASSIFIED when
    the finding has none. *)
Definition observedClassification (r : Finding.t) : string :=
  match Finding.classification r with
  | Some c => c
  | None => "UNCLASSIFIED"
  end.

(** The finding has a severity, and in upper case it is [name]. *)
Definition hasSeverity (unicodeUpper : string -> string) (name : string)
  (r : Finding.t) : bool :=
  match Finding.severity r with
  | Some s => String.eqb (JsString.toUpperCase unicodeUpper s) name
  | None => false
  end.

(** The classification of a finding is one of the two safely actionable
    ones. *)
Definition safelyActionable (r : Finding.t) : bool :=
  match Finding.classification r with
  | Some c => String.eqb c "SAFE_PATCH" || String.eqb c "MINOR_BUMP"
  | None => false
  end.

(** The findings whose severity is CRITICAL or HIGH and whose
    classification is safely actionable, in input order. *)
Definition selected (unicodeUpper : string -> string)
  (results : list Finding.t) : list Finding.t :=
  filter
    (fun r => (hasSeverity unicodeUpper "CRITICAL" r
               || hasSeverity unicodeUpper "HIGH" r)
              && safelyActionable r)
    results.

(** The CRITICAL findings of [l] in the order of [l], then the HIGH ones in
    the order of [l]: [l] after a stable sort that puts CRITICAL before
    HIGH. *)
Definition criticalFirst (unicodeUpper : string -> string)
  (l : list Finding.t) : list Finding.t :=
  (filter (hasSeverity unicodeUpper "CRITICAL") l
   ++ filter (hasSeverity unicodeUpper "HIGH") l)%list.

(** The item of a finding:
    [{id: cveId, package: packageUrl, severity, classification, fixVersion}]. *)
Definition projected (r : Finding.t) : ActionItem.t :=
  {| ActionItem.id := Finding.cveId r;
     ActionItem.package := Finding.packageUrl r;
     ActionItem.severity := Finding.severity r;
     ActionItem.classification := Finding.classification r;
     ActionItem.fixVersion := Finding.fixVersion r |}.

(** A list is ascending for [rank]. *)
Definition ascendingBy {A : Type} (rank : A -> nat) (l : list A) : Prop :=
  StronglySorted (fun x y => rank x <= rank y) l.

(** The doubles nearest to 0.9, 0.6, 0.3, 0.7 and 0.825. *)
Definition double09 : Q := Eval vm_compute in JsNumber.literal (9 # 10).

Definition double06 : Q := Eval vm_compute in JsNumber.literal (6 # 10).

Definition double03 : Q := Eval vm_compute in JsNumber.literal (3 # 10).

Definition double07 : Q := Eval vm_compute in JsNumber.literal (7 # 10).

Definition double0825 : Q := Eval vm_compute in JsNumber.literal (825 # 1000).

(** The findings of the example scenario of the specification.  A
    confidence written [0.9] is the double nearest to 0.9. *)
Definition cve1 : Finding.t :=
  {| Finding.cveId := Some "CVE-1";
     Finding.packageUrl := Some "pkg:npm/foo";
     Finding.severity := Some "CRITICAL";
     Finding.classification := Some "SAFE_PATCH";
     Finding.fixVersion := Some "1.2.3";
     Finding.confidence := Some double09 |}.

Definition cve2 : Finding.t :=
  {| Finding.cveId := Some "CVE-2";
     Finding.packageUrl := Some "pkg:npm/bar";
     Finding.severity := Some "HIGH";
     Finding.classification := Some "MAJOR_BUMP_SAFE";
     Finding.fixVersion := None;
     Finding.confidence := Some double06 |}.

Definition cve3 : Finding.t :=
  {| Finding.cveId := Some "CVE-3";
     Finding.packageUrl := Some "pkg:pypi/baz";
     Finding.severity := Some "LOW";
     Finding.classification := Some "NO_FIX";
     Finding.fixVersion := None;
     Finding.confidence := Some double03 |}.

Definition scenario : list Finding.t := [cve1; cve2; cve3].


(** The confidence values that are defined, in input order. *)
Definition definedConfidences (results : list Finding.t) : list Q :=
  flat_map
    (fun r => match Finding.confidence r with
              | Some c => [c]
              | None => []
              end)
    results.

(** Number of findings that carry a confidence value. *)
Definition withConfidence (results : list Finding.t) : nat :=
  length (definedConfidences results).

(** The larger of two numbers. *)
Definition qmax (a b : Q) : Q := if Lodash.ltb a b then b else a.

(** The largest confidence value observed (0 when there is none). *)
Definition maxObserved (results : list Finding.t) : Q :=
  match definedConfidences results with
  | [] => 0%Q
  | c :: cs => fold_left qmax cs c
  end.

(** Sum of the three buckets of a distribution. *)
Definition bucketTotal (d : Distribution.t) : nat :=
  Distribution.high d + Distribution.medium d + Distribution.low d.

(** A finding whose confidence is the number zero. *)
Definition zeroConfidence : Finding.t :=
  {| Finding.cveId := Some "CVE-4";
     Finding.packageUrl := Some "pkg:npm/qux";
     Finding.severity := Some "LOW";
     Finding.classification := Some "NO_FIX";
     Finding.fixVersion := None;
     Finding.confidence := Some 0%Q |}.

(** A finding whose confidence, 0.8125, has four decimal places (and is a
    double: thirteen sixteenths). *)
Definition sixteenths : Finding.t :=
  {| Finding.cveId := Some "CVE-5";
     Finding.packageUrl := Some "pkg:npm/quux";
     Finding.severity := Some "LOW";
     Finding.classification := Some "NO_FIX";
     Finding.fixVersion := None;
     Finding.confidence := Some (13 # 16)%Q |}.

(** A finding whose confidence is the double nearest to 0.825. *)
Definition nearlyHigh : Finding.t :=
  {| Finding.cveId := Some "CVE-9";
     Finding.packageUrl := Some "pkg:npm/waldo";
     Finding.severity := Some "LOW";
     Finding.classification := Some "NO_FIX";
     Finding.fixVersion := None;
     Finding.confidence := Some double0825 |}.

(** A number lies in the closed interval from [lo] to [hi]: it is finite
    and its value does. *)
Definition within (lo hi : Q) (x : JsNumber.t) : Prop :=
  match x with
  | JsNumber.Finite a => (lo <= a)%Q /\ (a <= hi)%Q
  | _ => False
  end.

(** C3 as the specification words it: the average of the summary lies in
    the closed interval from its minimum to the largest observed value. *)
Definition averageWithinObserved (unicodeUpper : string -> string)
  (now : string) (results : list Finding.t) : Prop :=
  let stats := Summary.confidence (buildSummary unicodeUpper now results) in
  within (ConfidenceStats.minimum stats) (maxObserved results)
    (ConfidenceStats.average stats).

(** The arithmetic mean of a list of numbers, in exact arithmetic. *)
Definition exactSum (xs : list Q) : Q :=
  match xs with
  | [] => 0%Q
  | c :: cs => fold_left Qplus cs c
  end.

Definition exactMean (xs : list Q) : Q :=
  match xs with
  | [] => 0%Q
  | _ :: _ => (exactSum xs / inject_Z (Z.of_nat (length xs)))%Q
  end.

(** The unit roundoff of double precision, and half the spacing of the
    subnormal numbers. *)
Definition unitRoundoff : Q := JsNumber.pow2 (-53).

Definition tiny : Q := JsNumber.pow2 (-1075).

(** The rounding error that [k] additions of numbers between 0 and 1 can
    add up to. *)
Fixpoint slack (k : nat) : Q :=
  match k with
  | O => 0%Q
  | S k' =>
      (slack k' + unitRoundoff * (2 * inject_Z (Z.of_nat k') + 1) + tiny)%Q
  end.


(** A finding whose severity is written in lower case. *)
Definition lowerCaseCritical : Finding.t :=
  {| Finding.cveId := Some "CVE-6";
     Finding.packageUrl := Some "pkg:npm/corge";
     Finding.severity := Some "critical";
     Finding.classification := Some "SAFE_PATCH";
     Finding.fixVersion := Some "2.0.1";
     Finding.confidence := Some double07 |}.


(** No character of [s] is a slash. *)
Fixpoint noSlash (s : string) : bool :=
  match s with
  | EmptyString => true
  | String c s' => negb (Ascii.eqb c "/"%char) && noSlash s'
  end.

(** The pattern [pkg:<ecosystem>/<rest>] as the specification words it:
    [eco] is the text between the prefix [pkg:] and the first slash. *)
Definition followsPattern (purl eco : string) : Prop :=
  noSlash eco = true /\ exists rest, purl = "pkg:" ++ eco ++ "/" ++ rest.

(** C2 as the specification words it, for one finding: the ecosystem is
    the text between [pkg:] and the first slash, and it is "unknown"
    exactly when the package URL is absent or not of that pattern. *)
Definition ecosystemAsWorded (r : Finding.t) : Prop :=
  (forall purl eco,
      Finding.packageUrl r = Some purl -> followsPattern purl eco ->
      ecosystemOf r = eco)
  /\ (ecosystemOf r = "unknown" <->
      ~ exists purl eco,
          Finding.packageUrl r = Some purl /\ followsPattern purl eco).

(** The pattern the expression [/^pkg:(\w+)\//] accepts: [eco] is a
    non-empty run of word characters between [pkg:] and a slash. *)
Definition matchesPkg (purl eco : string) : Prop :=
  eco <> EmptyString /\ JsString.all_word eco = true
  /\ exists rest, purl = "pkg:" ++ eco ++ "/" ++ rest.

(** A finding whose ecosystem is named "unknown". *)
Definition namedUnknown : Finding.t :=
  {| Finding.cveId := Some "CVE-7";
     Finding.packageUrl := Some "pkg:unknown/grault";
     Finding.severity := Some "MEDIUM";
     Finding.classification := Some "NO_FIX";
     Finding.fixVersion := None;
     Finding.confidence := None |}.

(** A finding whose ecosystem name has a character outside [\w]. *)
Definition hyphenated : Finding.t :=
  {| Finding.cveId := Some "CVE-8";
     Finding.packageUrl := Some "pkg:my-eco/garply";
     Finding.severity := Some "MEDIUM";
     Finding.classification := Some "NO_FIX";
     Finding.fixVersion := None;
     Finding.confidence := None |}.


(** Two summaries that differ at most in their timestamp. *)
Definition sameButTimestamp (s1 s2 : Summary.t) : Prop :=
  Summary.overview s1 = Summary.overview s2
  /\ Summary.ecosystems s1 = Summary.ecosystems s2
  /\ Summary.actionRequired s1 = Summary.actionRequired s2
  /\ Summary.confidence s1 = Summary.confidence s2.

(** The line break [\n]. *)
Definition newline : string := String "010"%char EmptyString.

(** The report up to and including the line break before its last line,
    the timestamp line. *)
Definition beforeTimestamp (numberToString : JsNumber.t -> string)
  (s : Summary.t)
  : string :=
  JsString.join newline (body numberToString s) ++ newline.

(** Digits of the thousandths [n < 1000] of a number, without trailing
    zeros. *)
Definition fractionText (n : nat) : string :=
  let d1 := JsString.of_nat (n / 100) in
  let d2 := JsString.of_nat ((n / 10) mod 10) in
  let d3 := JsString.of_nat (n mod 10) in
  if n mod 10 =? 0
  then if (n / 10) mod 10 =? 0 then d1 else d1 ++ d2
  else d1 ++ d2 ++ d3.

(** String conversion of a non-negative number that has at most three
    decimal places, for the examples: it prints like the language does. *)
Definition decimalText (q : Q) : string :=
  let n := Z.to_nat (Qfloor (q * 1000)%Q) in
  if n mod 1000 =? 0
  then JsString.of_nat (n / 1000)
  else JsString.of_nat (n / 1000) ++ "." ++ fractionText (n mod 1000).

(** String conversion of a non-negative number whose text has at most three
    decimal places, for the examples. *)
Definition numberText (x : JsNumber.t) : string :=
  match x with
  | JsNumber.Finite q => decimalText (JsNumber.toDecimal q)
  | JsNumber.Infinity false => "Infinity"
  | JsNumber.Infinity true => "-Infinity"
  | JsNumber.NaN => "NaN"
  end.


(** Sum of a measure over the values of a table. *)
Definition sumOver {V : Type} (f : V -> nat) (o : JsObject.t V) : nat :=
  list_sum (map (fun kv => f (snd kv)) o).

(** The distinct elements of a list of names, each at the place of its
    first occurrence. *)
Definition firstSeen (names : list string) : list string :=
  fold_left
    (fun seen k => if existsb (String.eqb k) seen then seen else (seen ++ [k])%list)
    names [].

(** Total weight of the elements of a list. *)
Definition weighted {A : Type} (w : A -> nat) (g : list A) : nat :=
  list_sum (map w g).

(** Number of findings a predicate holds of. *)
Definition countIf (p : Finding.t -> bool) (results : list Finding.t) : nat :=
  length (filter p results).


(** A failed attempt that is not the last: the post, then the pause. *)
Definition failedRound (c : MultipartClient.t) (form : list FormPart.t)
  (attempt : nat) : list ClientEvent :=
  [Posted (MultipartClient.request c form attempt);
   Slept (MultipartClient.retryDelay c * attempt)].

(** The attempts [first], ..., [first + n - 1], all failed and each
    followed by its pause. *)
Definition failedRounds (c : MultipartClient.t) (form : list FormPart.t)
  (first n : nat) : list ClientEvent :=
  flat_map (failedRound c form) (seq first n).

(** Number of posts among events. *)
Fixpoint postCount (events : list ClientEvent) : nat :=
  match events with
  | [] => 0
  | Posted _ :: rest => S (postCount rest)
  | Slept _ :: rest => postCount rest
  end.

(** Total time slept among events, in milliseconds. *)
Fixpoint sleptMs (events : list ClientEvent) : nat :=
  match events with
  | [] => 0
  | Posted _ :: rest => sleptMs rest
  | Slept ms :: rest => ms + sleptMs rest
  end.

(** A server that rejects the attempts before [k] and accepts the others. *)
Definition acceptsFrom (k : nat) (request : PostRequest.t) : PostResult :=
  match NilEmpty.uint_of_string (PostRequest.xAttempt request) with
  | Some d =>
      if Nat.of_uint d <? k
      then Rejected "503 Service Unavailable"
      else Resolved "accepted"
  | None => Rejected "400 Bad Request"
  end.


(** The first character of a text is a range character. *)
Definition startsWithRangeChar (s : string) : bool :=
  match s with
  | String ch _ => Deps.isRangeChar ch
  | EmptyString => false
  end.

(** Every character of a text is a range character. *)
Fixpoint allRangeChars (s : string) : bool :=
  match s with
  | String ch rest => Deps.isRangeChar ch && allRangeChars rest
  | EmptyString => true
  end.

(** A declared range without its first character when that character is
    a caret or a tilde, as it is written otherwise. *)
Definition withoutCaret (range : string) : string :=
  if String.prefix "^" range || String.prefix "~" range
  then String.substring 1 (String.length range - 1) range
  else range.

(** A registry that knows every package: its report is the name and the
    version it was asked about. *)
Definition asked (name version : string) : (string * string) + string :=
  inl (name, version).

(** A registry in which the packages whose name starts with [@] cannot be
    fetched; the report or tarball of another package is its name and
    version. *)
Definition publicOnly (name version : string) : (string * string) + string :=
  match name with
  | String "@" _ => inr "404 Not Found"
  | _ => inl (name, version)
  end.

(** A [package.json] with a package declared in both sections. *)
Definition samplePackage : PackageJson.t :=
  {| PackageJson.dependencies :=
       Some [("axios", "^1.6.0"); ("lodash", "~4.17.20"); ("@acme/core", ">=2.0.0")];
     PackageJson.devDependencies :=
       Some [("jest", "^29.0.0"); ("lodash", "4.17.21")] |}.


(** The range a section of [package.json] declares for a package, if
    any. *)
Definition declared (section : option (JsObject.t string)) (name : string)
  : option string :=
  match section with
  | Some t => JsObject.get t name
  | None => None
  end.


(** A key that is an ordinary property name: not an index, not [length],
    and not one of the keys [_.set] refuses. *)
Definition plainKey (k : string) : bool :=
  negb (Path.unsafeKey k) && negb (Path.isIndex k)
  && match JsValue.position k with
     | Some _ => false
     | None => true
     end
  && negb (String.eqb k "length").

(** Two lists of keys part ways: after a common beginning, each has a key
    and the two keys differ. *)
Fixpoint diverge (ps qs : list string) : bool :=
  match ps, qs with
  | a :: ps', b :: qs' => if String.eqb a b then diverge ps' qs' else true
  | _, _ => false
  end.

(** A path of ordinary keys separated by dots, with at least one dot. *)
Definition dottedPath (p : string) : bool :=
  Path.hasDot p && plainKey p && forallb plainKey (Path.splitDots p).

(** Two dotted paths, different and neither leading to a part of what the
    other leads to. *)
Definition apart (p q : string) : bool :=
  negb (String.eqb p q) && diverge (Path.splitDots p) (Path.splitDots q).

(** The paths of a list of rules are dotted paths, apart from one
    another. *)
Fixpoint wellFormed (rules : list (string * Rule.t)) : bool :=
  match rules with
  | [] => true
  | (p, _) :: rest =>
      dottedPath p
      && forallb (fun e => apart p (fst e) && apart (fst e) p) rest
      && wellFormed rest
  end.

(** The errors a rule raises for the value found at its path: none for
    a missing value that has a default. *)
Definition judge (numberToString : Q -> string) (rule : Rule.t) (path : string)
  (value : JsValue.t) : list ValidationError.t :=
  if JsValue.isNil value
  then match Rule.default rule with
       | Some _ => []
       | None =>
           if Rule.required rule
           then [ValidationError.mk path (requiredMessage path)]
           else []
       end
  else if negb (String.eqb (actualTypeOf value) (Rule.type rule))
  then [ValidationError.mk path (typeMessage rule path (actualTypeOf value))]
  else if String.eqb (Rule.type rule) "number"
  then rangeErrors numberToString rule path value
  else [].

(** The value a rule leaves at its path: the default when the value is
    missing from a configuration that is an object, the value found
    otherwise. *)
Definition filled (rawConfig : JsValue.t) (rule : Rule.t) (path : string)
  : JsValue.t :=
  let value := Path.get rawConfig path in
  if JsValue.isNil value && JsValue.isObject rawConfig
  then match Rule.default rule with
       | Some default => default
       | None => value
       end
  else value.

(** A value conforms to a rule: it is present when the rule requires it or
    gives a default, and when present it has the type of the rule and, for a
    number, lies within the bounds of the rule. *)
Definition conforms (rule : Rule.t) (value : JsValue.t) : Prop :=
  (JsValue.isNil value = true ->
   Rule.required rule = false /\ Rule.default rule = None)
  /\ (JsValue.isNil value = false ->
      actualTypeOf value = Rule.type rule
      /\ forall n, value = JsValue.Num n ->
           (forall min, Rule.min rule = Some min -> (min <= n)%Q)
           /\ (forall max, Rule.max rule = Some max -> (n <= max)%Q)).

(** A configuration with a token and an out-of-range number of retries. *)
Definition sampleConfig : JsValue.t :=
  JsValue.Obj
    [ ("integrations",
       JsValue.Obj [("github", JsValue.Obj [("token", JsValue.Str "ghp_x")])]);
      ("processing", JsValue.Obj [("retries", JsValue.Num 11)]) ].

(** A configuration that sets the token only. *)
Definition tokenOnly : JsValue.t :=
  JsValue.Obj
    [ ("integrations",
       JsValue.Obj [("github", JsValue.Obj [("token", JsValue.Str "ghp_x")])]) ].


(** The configuration a rule leaves: the default is written when the value
    at the path is missing. *)
Definition applyDefault (config : JsValue.t) (rule : Rule.t) (path : string)
  : JsValue.t :=
  match JsValue.isNil (Path.get config path), Rule.default rule with
  | true, Some default => Path.set config path default
  | _, _ => config
  end.

(** A rule raises no error for a value. *)
Definition accepts (rule : Rule.t) (value : JsValue.t) : bool :=
  if JsValue.isNil value
  then match Rule.default rule with
       | Some _ => true
       | None => negb (Rule.required rule)
       end
  else String.eqb (actualTypeOf value) (Rule.type rule)
       && (negb (String.eqb (Rule.type rule) "number")
           || match value with
              | JsValue.Num n =>
                  match Rule.min rule with
                  | Some min => negb (Lodash.ltb n min)
                  | None => true
                  end
                  && match Rule.max rule with
                     | Some max => negb (Lodash.ltb max n)
                     | None => true
                     end
              | _ => true
              end).

(** The defaults of a list of rules are present values that their own
    rules accept. *)
Definition defaultsAccepted (rules : list (string * Rule.t)) : bool :=
  forallb
    (fun e =>
       match Rule.default (snd e) with
       | Some d => negb (JsValue.isNil d) && accepts (snd e) d
       | None => true
       end)
    rules.

(** The rule of the GitHub token, the one required value. *)
Definition tokenRule : Rule.t :=
  {| Rule.type := "string";
     Rule.default := None;
     Rule.required := true;
     Rule.min := None;
     Rule.max := None |}.


(** The error [validateConfig] raises for the missing GitHub token. *)
Definition tokenMissing : ValidationError.t :=
  ValidationError.mk "integrations.github.token"
    (requiredMessage "integrations.github.token").

(** No character of the text is an upper-case letter or an underscore. *)
Fixpoint lowerOnly (s : string) : bool :=
  match s with
  | EmptyString => true
  | String ch rest =>
      negb (JsString.is_upper ch) && negb (Ascii.eqb ch "_"%char)
      && lowerOnly rest
  end.

(** Lower-case letters, digits and dots only. *)
Fixpoint lowerDotted (s : string) : bool :=
  match s with
  | EmptyString => true
  | String ch rest =>
      (JsString.is_lower ch || JsString.is_digit ch || Ascii.eqb ch "."%char)
      && lowerDotted rest
  end.

(** A path in upper case, with underscores for its dots. *)
Fixpoint envChars (p : string) : string :=
  match p with
  | EmptyString => EmptyString
  | String ch rest =>
      String (if Ascii.eqb ch "."%char then "_"%char else JsString.upper_char ch)
        (envChars rest)
  end.

(** The variable the naming convention gives a path: [CONFVE_SERVER_PORT]
    for [server.port]. *)
Definition envName (p : string) : string := "CONFVE_" ++ envChars p.

(** The paths of the schema that have an upper-case letter or an
    underscore. *)
Definition camelCasePaths : list string :=
  filter (fun p => negb (lowerOnly p)) (map fst schemaRules).


(* ------------------------------------------------------------------ *)
(** ** Property tables *)

Section TableFacts.

Context {V : Type}.
Implicit Types (o : JsObject.t V) (k : string) (v : V).

Lemma get_set_same o k v : JsObject.get (JsObject.set o k v) k = Some v.
Proof.
  induction o as [|[k' v'] o IH]; simpl.
  - now rewrite String.eqb_refl.
  - destruct (String.eqb k k') eqn:E; simpl; rewrite E; auto.
Qed.

Lemma get_set_other o k k' v :
  k' <> k -> JsObject.get (JsObject.set o k v) k' = JsObject.get o k'.
Proof.
  intros Hne. induction o as [|[k0 v0] o IH]; simpl.
  - apply String.eqb_neq in Hne. now rewrite Hne.
  - destruct (String.eqb k k0) eqn:E; simpl.
    + apply String.eqb_eq in E. subst k0.
      apply String.eqb_neq in Hne. now rewrite Hne.
    + now rewrite IH.
Qed.

Lemma get_set o k k' v :
  JsObject.get (JsObject.set o k v) k' =
  if String.eqb k' k then Some v else JsObject.get o k'.
Proof.
  destruct (String.eqb k' k) eqn:E.
  - apply String.eqb_eq in E. subst. apply get_set_same.
  - apply String.eqb_neq in E. now apply get_set_other.
Qed.

Lemma get_In o k v : JsObject.get o k = Some v -> In (k, v) o.
Proof.
  induction o as [|[k' v'] o IH]; simpl; [discriminate|].
  destruct (String.eqb k k') eqn:E.
  - apply String.eqb_eq in E. intros [= ->]. subst. now left.
  - intros H. right. auto.
Qed.

Lemma get_None_notin o k :
  JsObject.get o k = None <-> ~ In k (map fst o).
Proof.
  induction o as [|[k' v'] o IH]; simpl.
  - tauto.
  - destruct (String.eqb k k') eqn:E.
    + apply String.eqb_eq in E. subst. split; [discriminate | tauto].
    + apply String.eqb_neq in E. rewrite IH. split.
      * intros H [H1|H1]; [congruence | tauto].
      * tauto.
Qed.

(** Writing a property never duplicates a key. *)
Lemma set_keys_known o k v v0 :
  JsObject.get o k = Some v0 ->
  map fst (JsObject.set o k v) = map fst o.
Proof.
  induction o as [|[k' v'] o IH]; simpl; [discriminate|].
  destruct (String.eqb k k') eqn:E; simpl; [reflexivity|].
  intros H. now rewrite IH.
Qed.

Lemma set_keys_new o k v :
  JsObject.get o k = None ->
  map fst (JsObject.set o k v) = (map fst o ++ [k])%list.
Proof.
  induction o as [|[k' v'] o IH]; simpl; [reflexivity|].
  destruct (String.eqb k k') eqn:E; simpl; [discriminate|].
  intros H. now rewrite IH.
Qed.

Lemma set_NoDup o k v :
  NoDup (map fst o) -> NoDup (map fst (JsObject.set o k v)).
Proof.
  intros Hnd. destruct (JsObject.get o k) eqn:E.
  - now rewrite (set_keys_known _ _ _ _ E).
  - rewrite (set_keys_new _ _ _ E).
    apply get_None_notin in E.
    apply NoDup_rev in Hnd. rewrite <- (rev_involutive (_ ++ _)%list).
    apply NoDup_rev. rewrite rev_app_distr. simpl. constructor; [|exact Hnd].
    now rewrite <- in_rev.
Qed.

(** [_.defaults] reads a key from the object when it has it, and from the
    source otherwise. *)
Lemma defaults_get (src : list (string * V)) o k :
  JsObject.get (Lodash.defaults o src) k =
  match JsObject.get o k with
  | Some v => Some v
  | None => JsObject.get src k
  end.
Proof.
  unfold Lodash.defaults. revert o.
  induction src as [|[k0 v0] src IH]; intros o; simpl.
  - now destruct (JsObject.get o k).
  - rewrite IH. destruct (JsObject.get o k0) eqn:E0.
    + destruct (JsObject.get o k) eqn:E; [reflexivity|].
      destruct (String.eqb k k0) eqn:Ek; [|reflexivity].
      apply String.eqb_eq in Ek. congruence.
    + rewrite get_set. destruct (String.eqb k k0) eqn:Ek.
      * apply String.eqb_eq in Ek. subst. now rewrite E0.
      * reflexivity.
Qed.

Lemma defaults_NoDup (src : list (string * V)) o :
  NoDup (map fst o) -> NoDup (map fst (Lodash.defaults o src)).
Proof.
  unfold Lodash.defaults. revert o.
  induction src as [|[k0 v0] src IH]; intros o Hnd; simpl; [exact Hnd|].
  apply IH. destruct (JsObject.get o k0); [exact Hnd | now apply set_NoDup].
Qed.

End TableFacts.

(* ------------------------------------------------------------------ *)
(** ** Counting and grouping *)


Section Aggregation.

Context {A : Type}.
Variable key : A -> string.

Lemma totalCount_set_known (o : JsObject.t nat) k n :
  JsObject.get o k = Some n ->
  totalCount (JsObject.set o k (S n)) = S (totalCount o).
Proof.
  unfold totalCount.
  induction o as [|[k' v'] o IH]; simpl; [discriminate|].
  destruct (String.eqb k k') eqn:E; simpl.
  - intros [= ->]. reflexivity.
  - intros H. rewrite (IH H). lia.
Qed.

Lemma totalCount_set_new (o : JsObject.t nat) k n :
  JsObject.get o k = None ->
  totalCount (JsObject.set o k n) = totalCount o + n.
Proof.
  unfold totalCount.
  induction o as [|[k' v'] o IH]; simpl; [intros _; lia|].
  destruct (String.eqb k k') eqn:E; simpl; [discriminate|].
  intros H. rewrite (IH H). lia.
Qed.

Lemma totalCount_bump o x : totalCount (Lodash.bump key o x) = S (totalCount o).
Proof.
  unfold Lodash.bump. destruct (JsObject.get o (key x)) eqn:E.
  - now apply totalCount_set_known.
  - rewrite totalCount_set_new by exact E. lia.
Qed.

Lemma totalCount_fold xs o :
  totalCount (fold_left (Lodash.bump key) xs o) = totalCount o + length xs.
Proof.
  revert o. induction xs as [|x xs IH]; intros o; simpl; [lia|].
  rewrite IH, totalCount_bump. lia.
Qed.

(** The counts of [_.countBy] add up to the number of elements. *)
Lemma countBy_total xs : totalCount (Lodash.countBy key xs) = length xs.
Proof. exact (totalCount_fold xs JsObject.empty). Qed.

Lemma get_bump o x k :
  JsObject.get (Lodash.bump key o x) k =
  if String.eqb (key x) k
  then Some (S (Lodash.get (JsObject.get o k) 0))
  else JsObject.get o k.
Proof.
  unfold Lodash.bump. destruct (String.eqb (key x) k) eqn:E.
  - apply String.eqb_eq in E. subst k.
    destruct (JsObject.get o (key x)); simpl; apply get_set_same.
  - apply String.eqb_neq in E.
    destruct (JsObject.get o (key x)); apply get_set_other; congruence.
Qed.

Lemma get_fold_bump xs o k :
  JsObject.get (fold_left (Lodash.bump key) xs o) k =
  match JsObject.get o k, occurrences key k xs with
  | None, 0 => None
  | None, S n => Some (S n)
  | Some m, n => Some (m + n)
  end.
Proof.
  unfold occurrences. revert o.
  induction xs as [|x xs IH]; intros o; simpl.
  - destruct (JsObject.get o k); [f_equal; lia | reflexivity].
  - rewrite IH, get_bump. destruct (String.eqb (key x) k); simpl.
    + destruct (JsObject.get o k); simpl; f_equal; lia.
    + reflexivity.
Qed.

(** [_.countBy] maps a key to the number of elements that have it, and has
    no entry for a key that no element has. *)
Lemma countBy_get xs k :
  JsObject.get (Lodash.countBy key xs) k =
  match occurrences key k xs with
  | 0 => None
  | S n => Some (S n)
  end.
Proof. exact (get_fold_bump xs JsObject.empty k). Qed.

Lemma bump_NoDup o x : NoDup (map fst o) -> NoDup (map fst (Lodash.bump key o x)).
Proof. unfold Lodash.bump. destruct (JsObject.get o (key x)); apply set_NoDup. Qed.

Lemma countBy_NoDup xs : NoDup (map fst (Lodash.countBy key xs)).
Proof.
  unfold Lodash.countBy.
  assert (H : NoDup (map fst (@JsObject.empty nat))) by constructor.
  revert H. generalize (@JsObject.empty nat).
  induction xs as [|x xs IH]; intros o H; simpl; [exact H|].
  apply IH. now apply bump_NoDup.
Qed.

Lemma get_push o x k :
  JsObject.get (Lodash.push key o x) k =
  if String.eqb (key x) k
  then Some (Lodash.get (JsObject.get o k) [] ++ [x])%list
  else JsObject.get o k.
Proof.
  unfold Lodash.push. destruct (String.eqb (key x) k) eqn:E.
  - apply String.eqb_eq in E. subst k.
    destruct (JsObject.get o (key x)); simpl; apply get_set_same.
  - apply String.eqb_neq in E.
    destruct (JsObject.get o (key x)); apply get_set_other; congruence.
Qed.

Lemma get_fold_push xs o k :
  JsObject.get (fold_left (Lodash.push key) xs o) k =
  match JsObject.get o k, filter (fun x => String.eqb (key x) k) xs with
  | None, [] => None
  | None, g => Some g
  | Some g0, g => Some (g0 ++ g)%list
  end.
Proof.
  revert o. induction xs as [|x xs IH]; intros o; simpl.
  - destruct (JsObject.get o k); [now rewrite app_nil_r | reflexivity].
  - rewrite IH, get_push. destruct (String.eqb (key x) k); simpl.
    + destruct (JsObject.get o k); simpl.
      * now rewrite <- app_assoc.
      * reflexivity.
    + reflexivity.
Qed.

(** The group of a key is the elements that have it, in input order; a key
    that no element has has no group. *)
Lemma groupBy_get xs k :
  JsObject.get (Lodash.groupBy key xs) k =
  match filter (fun x => String.eqb (key x) k) xs with
  | [] => None
  | g => Some g
  end.
Proof. exact (get_fold_push xs JsObject.empty k). Qed.

Lemma push_NoDup o x : NoDup (map fst o) -> NoDup (map fst (Lodash.push key o x)).
Proof. unfold Lodash.push. destruct (JsObject.get o (key x)); apply set_NoDup. Qed.

Lemma groupBy_NoDup xs : NoDup (map fst (Lodash.groupBy key xs)).
Proof.
  unfold Lodash.groupBy.
  assert (H : NoDup (map fst (@JsObject.empty (list A)))) by constructor.
  revert H. generalize (@JsObject.empty (list A)).
  induction xs as [|x xs IH]; intros o H; simpl; [exact H|].
  apply IH. now apply push_NoDup.
Qed.

End Aggregation.

Lemma occurrences_pos {A : Type} (key : A -> string) (xs : list A) (x : A) :
  In x xs -> 0 < occurrences key (key x) xs.
Proof.
  intros Hin. unfold occurrences.
  assert (H : In x (filter (fun y => String.eqb (key y) (key x)) xs)).
  { apply filter_In. split; [exact Hin | apply String.eqb_refl]. }
  destruct (filter _ xs); [contradiction | simpl; lia].
Qed.

Lemma occurrences_witness {A : Type} (key : A -> string) (xs : list A) k :
  0 < occurrences key k xs -> exists x, In x xs /\ key x = k.
Proof.
  unfold occurrences. intros H.
  destruct (filter (fun y => String.eqb (key y) k) xs) as [|x g] eqn:E.
  - simpl in H. lia.
  - assert (Hx : In x (filter (fun y => String.eqb (key y) k) xs))
      by (rewrite E; now left).
    apply filter_In in Hx. destruct Hx as [Hx Hk].
    exists x. split; [exact Hx | now apply String.eqb_eq].
Qed.

Lemma get_canonicalSeverities k :
  JsObject.get canonicalSeverities k =
  if existsb (String.eqb k) canonical then Some 0 else None.
Proof.
  unfold canonicalSeverities, canonical. simpl.
  repeat match goal with
         | |- context [String.eqb k ?c] => destruct (String.eqb k c); simpl; auto
         end.
Qed.

Lemma totalCount_defaults_zero (src : list (string * nat)) o :
  Forall (fun kv => snd kv = 0) src ->
  totalCount (Lodash.defaults o src) = totalCount o.
Proof.
  unfold Lodash.defaults. intros H. revert o.
  induction H as [|[k0 v0] src Hz _ IH]; intros o; simpl; [reflexivity|].
  rewrite IH. destruct (JsObject.get o k0) eqn:E; [reflexivity|].
  simpl in Hz. subst v0. rewrite totalCount_set_new by exact E. lia.
Qed.

(** The severity counts of the summary, key by key. *)
Lemma bySeverity_get (unicodeUpper : string -> string) now results k :
  JsObject.get
    (Overview.bySeverity
       (Summary.overview (buildSummary unicodeUpper now results))) k =
  match occurrences (severityKey unicodeUpper) k results with
  | 0 => if existsb (String.eqb k) canonical then Some 0 else None
  | S n => Some (S n)
  end.
Proof.
  unfold buildSummary. cbn [Summary.overview Overview.bySeverity].
  rewrite defaults_get. unfold bySeverity. rewrite countBy_get.
  destruct (occurrences (severityKey unicodeUpper) k results); [|reflexivity].
  apply get_canonicalSeverities.
Qed.

(** The severity key of the code is the severity as it is observed. *)
Lemma severityKey_observed (unicodeUpper : string -> string) (r : Finding.t) :
  severityKey unicodeUpper r = observedSeverity unicodeUpper r.
Proof.
  unfold severityKey, observedSeverity.
  destruct (Finding.severity r); reflexivity.
Qed.

Lemma occurrences_ext {A : Type} (f g : A -> string) (k : string)
  (xs : list A) :
  (forall x, f x = g x) -> occurrences f k xs = occurrences g k xs.
Proof.
  intros H. unfold occurrences. f_equal. apply filter_ext.
  intros x. now rewrite H.
Qed.

(** C5.  For every findings array, the empty one included, the severity
    counts of the summary hold each of the four canonical keys CRITICAL,
    HIGH, MEDIUM and LOW, with a value that is a count (the number of
    findings observed with that severity, possibly 0); they hold the
    severity observed of every finding (its severity in upper case, UNKNOWN
    when it has none), with the number of findings observed with it, at
    least 1; they hold no other key; and no key occurs twice. *)
Theorem bySeverity_canonical_and_observed_keys :
  forall (unicodeUpper : string -> string) (now : string)
         (results : list Finding.t),
    let counts :=
      Overview.bySeverity
        (Summary.overview (buildSummary unicodeUpper now results)) in
    let observed := observedSeverity unicodeUpper in
    (forall k, In k canonical ->
       exists n, JsObject.get counts k = Some n /\ 0 <= n
                 /\ n = occurrences observed k results)
    /\ (forall r, In r results ->
          exists n, JsObject.get counts (observed r) = Some n /\ 1 <= n
                    /\ n = occurrences observed (observed r) results)
    /\ (forall k n, JsObject.get counts k = Some n ->
          In k canonical \/ exists r, In r results /\ observed r = k)
    /\ NoDup (map fst counts).
Proof.
  intros unicodeUpper now results counts observed. subst counts observed.
  assert (Hget : forall k,
             JsObject.get
               (Overview.bySeverity
                  (Summary.overview (buildSummary unicodeUpper now results))) k
             = match occurrences (observedSeverity unicodeUpper) k results with
               | 0 => if existsb (String.eqb k) canonical then Some 0 else None
               | S n => Some (S n)
               end).
  { intros k. rewrite bySeverity_get.
    now rewrite (occurrences_ext _ _ k results (severityKey_observed unicodeUpper)). }
  repeat split.
  - intros k Hk. rewrite Hget.
    assert (Hc : existsb (String.eqb k) canonical = true).
    { apply existsb_exists. exists k. split; [exact Hk | apply String.eqb_refl]. }
    rewrite Hc.
    destruct (occurrences (observedSeverity unicodeUpper) k results) as [|n].
    + exists 0. repeat split; lia.
    + exists (S n). repeat split; lia.
  - intros r Hr. rewrite Hget.
    pose proof (occurrences_pos (observedSeverity unicodeUpper) results r Hr)
      as Hpos.
    destruct (occurrences (observedSeverity unicodeUpper)
                (observedSeverity unicodeUpper r) results) as [|n]; [lia|].
    exists (S n). repeat split; lia.
  - intros k n. rewrite Hget.
    destruct (occurrences (observedSeverity unicodeUpper) k results)
      as [|m] eqn:E.
    + destruct (existsb (String.eqb k) canonical) eqn:Hc; [|discriminate].
      intros _. left. apply existsb_exists in Hc.
      destruct Hc as [c [Hin Heq]]. apply String.eqb_eq in Heq. now subst.
    + intros _. right. apply occurrences_witness. lia.
  - unfold buildSummary. cbn [Summary.overview Overview.bySeverity].
    apply defaults_NoDup. apply countBy_NoDup.
Qed.

(** C6.  The values of the severity counts of the summary, canonical and
    ad-hoc keys together, add up to the length of the findings array (a
    finding without severity is counted under UNKNOWN, the others under
    their severity in upper case). *)
Theorem bySeverity_total_is_length :
  forall (unicodeUpper : string -> string)
         (now : string) (results : list Finding.t),
    totalCount
      (Overview.bySeverity
         (Summary.overview (buildSummary unicodeUpper now results)))
    = length results
    /\ Overview.totalVulnerabilities
         (Summary.overview (buildSummary unicodeUpper now results))
       = length results.
Proof.
  intros unicodeUpper now results. split; [|reflexivity].
  unfold buildSummary. cbn [Summary.overview Overview.bySeverity].
  rewrite totalCount_defaults_zero.
  - apply countBy_total.
  - unfold canonicalSeverities. repeat constructor.
Qed.

(* ------------------------------------------------------------------ *)
(** ** Enumeration order *)

Section Enumeration.

Context {V : Type}.
Implicit Types (o : JsObject.t V) (k : string) (v : V).

Lemma insert_by_index_In (x y : N * (string * V)) l :
  In y (JsObject.insert_by_index x l) <-> y = x \/ In y l.
Proof.
  induction l as [|z l IH]; simpl.
  - intuition.
  - destruct (fst x <=? fst z)%N; simpl; [intuition|].
    rewrite IH. intuition.
Qed.

Lemma ascending_In (y : N * (string * V)) l :
  In y (JsObject.ascending l) <-> In y l.
Proof.
  unfold JsObject.ascending. induction l as [|x l IH]; simpl; [tauto|].
  rewrite insert_by_index_In, IH. intuition.
Qed.

Lemma indexed_In o (kv : string * V) :
  In kv (map snd (JsObject.indexed o)) <->
  In kv o /\ JsString.array_index (fst kv) <> None.
Proof.
  induction o as [|[k v] o IH]; simpl; [tauto|].
  destruct (JsString.array_index k) eqn:E; simpl; rewrite IH.
  - split.
    + intros [<-|[H1 H2]]; simpl; [rewrite E; split; [now left | discriminate] | tauto].
    + intros [[<-|H1] H2]; [now left | tauto].
  - split.
    + intuition.
    + intros [[<-|H1] H2]; [simpl in H2; congruence | tauto].
Qed.

Lemma named_In o (kv : string * V) :
  In kv (JsObject.named o) <->
  In kv o /\ JsString.array_index (fst kv) = None.
Proof.
  induction o as [|[k v] o IH]; simpl; [tauto|].
  destruct (JsString.array_index k) eqn:E; simpl; rewrite IH.
  - split.
    + intuition.
    + intros [[<-|H1] H2]; [simpl in H2; congruence | tauto].
  - split.
    + intros [<-|[H1 H2]]; simpl; [tauto | tauto].
    + intros [[<-|H1] H2]; [now left | tauto].
Qed.

(** Enumerating an object yields its own properties, each once more or
    less reordered. *)
Lemma entries_In o (kv : string * V) : In kv (JsObject.entries o) <-> In kv o.
Proof.
  unfold JsObject.entries. rewrite in_app_iff, named_In.
  assert (H : In kv (map snd (JsObject.ascending (JsObject.indexed o))) <->
              In kv (map snd (JsObject.indexed o))).
  { rewrite !in_map_iff. split; intros [y [Hy Hin]]; exists y;
      (split; [exact Hy|]); now apply ascending_In. }
  rewrite H, indexed_In.
  destruct (JsString.array_index (fst kv)); split; intros; intuition congruence.
Qed.

Lemma In_get_NoDup o k v :
  NoDup (map fst o) -> In (k, v) o -> JsObject.get o k = Some v.
Proof.
  induction o as [|[k' v'] o IH]; simpl; [tauto|].
  intros Hnd [Heq|Hin].
  - injection Heq as -> ->. now rewrite String.eqb_refl.
  - inversion Hnd as [|? ? Hnotin Hnd']; subst.
    destruct (String.eqb k k') eqn:E.
    + apply String.eqb_eq in E. subst k'. exfalso. apply Hnotin.
      apply in_map_iff. now exists (k, v).
    + now apply IH.
Qed.

End Enumeration.

Lemma mapValues_In {V W : Type} (f : V -> string -> W) (o : JsObject.t V)
  (k : string) (w : W) :
  In (k, w) (Lodash.mapValues f o) <-> exists v, In (k, v) o /\ w = f v k.
Proof.
  unfold Lodash.mapValues. rewrite in_map_iff. split.
  - intros [[k' v] [Heq Hin]]. simpl in Heq. injection Heq as Hk Hw. subst k' w.
    exists v. split; [now apply entries_In | reflexivity].
  - intros [v [Hin ->]]. exists (k, v). split; [reflexivity | now apply entries_In].
Qed.

Lemma filter_length_le {A : Type} (p : A -> bool) (l : list A) :
  length (filter p l) <= length l.
Proof. induction l as [|x l IH]; simpl; [lia | destruct (p x); simpl; lia]. Qed.

Lemma filter_disjoint_length {A : Type} (p q : A -> bool) (l : list A) :
  (forall x, p x = true -> q x = false) ->
  length (filter p l) + length (filter q l) <= length l.
Proof.
  intros Hpq. induction l as [|x l IH]; simpl; [lia|].
  destruct (p x) eqn:Ep.
  - rewrite (Hpq x Ep). simpl. lia.
  - destruct (q x); simpl; lia.
Qed.

Lemma critical_not_high (r : Finding.t) :
  severityIs "CRITICAL" r = true -> severityIs "HIGH" r = false.
Proof.
  unfold severityIs. destruct (Finding.severity r) as [s|]; [|discriminate].
  intros H. apply String.eqb_eq in H. now subst s.
Qed.

(** The ecosystem summaries, entry by entry: the summary filed under [e]
    is computed from the findings whose ecosystem is [e], in input order. *)
Lemma ecosystemSummaries_In results e s :
  In (e, s) (ecosystemSummaries results) ->
  s = summarize (filter (fun r => String.eqb (ecosystemOf r) e) results) e
  /\ filter (fun r => String.eqb (ecosystemOf r) e) results <> [].
Proof.
  unfold ecosystemSummaries, byEcosystem. intros H.
  apply mapValues_In in H. destruct H as [g [Hin ->]].
  apply In_get_NoDup in Hin; [|apply groupBy_NoDup].
  rewrite groupBy_get in Hin.
  destruct (filter (fun r => String.eqb (ecosystemOf r) e) results) eqn:E;
    [discriminate|].
  injection Hin as <-. split; [reflexivity | discriminate].
Qed.

(** C7.  For every ecosystem summary of the resulting summary, filed under
    the ecosystem [e]: its [ecosystem] is [e], [count] is the size of the group of [e] (the
    findings whose ecosystem is [e]), [critical] and [high] count the
    findings of the group whose severity is exactly CRITICAL, resp. HIGH,
    [fixable] counts those whose classification is SAFE_PATCH, MINOR_BUMP or
    MAJOR_BUMP_SAFE, and [critical + high <= count], [fixable <= count]. *)
Theorem ecosystem_counters_within_count :
  forall (unicodeUpper : string -> string)
         (now : string) (results : list Finding.t)
         (e : string) (s : EcosystemSummary.t),
    In (e, s) (Summary.ecosystems (buildSummary unicodeUpper now results)) ->
    let group := filter (fun r => String.eqb (ecosystemOf r) e) results in
    EcosystemSummary.ecosystem s = e
    /\ EcosystemSummary.count s = length group
    /\ EcosystemSummary.critical s
       = length (filter (severityIs "CRITICAL") group)
    /\ EcosystemSummary.high s = length (filter (severityIs "HIGH") group)
    /\ EcosystemSummary.fixable s = length (filter isFixable group)
    /\ EcosystemSummary.critical s + EcosystemSummary.high s
       <= EcosystemSummary.count s
    /\ EcosystemSummary.fixable s <= EcosystemSummary.count s.
Proof.
  intros unicodeUpper now results e s Hin group.
  unfold buildSummary in Hin. cbn [Summary.ecosystems] in Hin.
  apply ecosystemSummaries_In in Hin. destruct Hin as [-> _].
  fold group. unfold summarize, Lodash.size.
  cbn [EcosystemSummary.ecosystem EcosystemSummary.count
       EcosystemSummary.critical EcosystemSummary.high EcosystemSummary.fixable].
  repeat split.
  - apply filter_disjoint_length. exact critical_not_high.
  - apply filter_length_le.
Qed.

(* ------------------------------------------------------------------ *)
(** ** The action ranker *)

Section Sorting.

Context {A : Type}.
Variable rank : A -> nat.

Lemma insert_by_In x y l :
  In y (Lodash.insert_by rank x l) <-> y = x \/ In y l.
Proof.
  induction l as [|z l IH]; simpl.
  - intuition.
  - destruct (rank x <=? rank z); simpl; [intuition|].
    rewrite IH. intuition.
Qed.

Lemma insert_by_sorted x l :
  ascendingBy rank l -> ascendingBy rank (Lodash.insert_by rank x l).
Proof.
  unfold ascendingBy. induction 1 as [|z l Hs IH Hz]; simpl.
  - repeat constructor.
  - destruct (rank x <=? rank z) eqn:E.
    + apply Nat.leb_le in E. constructor.
      * now constructor.
      * constructor; [exact E|].
        eapply Forall_impl; [|exact Hz]. simpl. intros; lia.
    + apply Nat.leb_gt in E. constructor; [exact IH|].
      apply Forall_forall. intros y Hy. apply insert_by_In in Hy.
      destruct Hy as [->|Hy]; [lia|].
      rewrite Forall_forall in Hz. now apply Hz.
Qed.

(** [_.sortBy] returns an ascending list. *)
Lemma sortBy_sorted l : ascendingBy rank (Lodash.sortBy rank l).
Proof.
  unfold Lodash.sortBy. induction l as [|x l IH]; simpl.
  - constructor.
  - now apply insert_by_sorted.
Qed.

Lemma insert_by_filter_same x l k :
  ascendingBy rank l -> rank x = k ->
  filter (fun y => rank y =? k) (Lodash.insert_by rank x l)
  = x :: filter (fun y => rank y =? k) l.
Proof.
  unfold ascendingBy. intros Hs Hk. induction Hs as [|z l Hs IH Hz]; simpl.
  - now rewrite Hk, Nat.eqb_refl.
  - destruct (rank x <=? rank z) eqn:E; simpl.
    + now rewrite Hk, Nat.eqb_refl.
    + apply Nat.leb_gt in E.
      destruct (rank z =? k) eqn:Ez; [apply Nat.eqb_eq in Ez; lia | exact IH].
Qed.

Lemma insert_by_filter_other x l k :
  rank x <> k ->
  filter (fun y => rank y =? k) (Lodash.insert_by rank x l)
  = filter (fun y => rank y =? k) l.
Proof.
  intros Hk. apply Nat.eqb_neq in Hk. induction l as [|z l IH]; simpl.
  - now rewrite Hk.
  - destruct (rank x <=? rank z); simpl.
    + now rewrite Hk.
    + now rewrite IH.
Qed.

(** [_.sortBy] is stable: the elements of one rank keep their input
    order. *)
Lemma sortBy_stable l k :
  filter (fun y => rank y =? k) (Lodash.sortBy rank l)
  = filter (fun y => rank y =? k) l.
Proof.
  induction l as [|x l IH]; [reflexivity|].
  change (Lodash.sortBy rank (x :: l))
    with (Lodash.insert_by rank x (Lodash.sortBy rank l)).
  simpl. destruct (rank x =? k) eqn:E.
  - apply Nat.eqb_eq in E.
    rewrite insert_by_filter_same; [now rewrite IH | apply sortBy_sorted | exact E].
  - apply Nat.eqb_neq in E. now rewrite insert_by_filter_other.
Qed.

Lemma sortBy_In l y : In y (Lodash.sortBy rank l) <-> In y l.
Proof.
  unfold Lodash.sortBy. induction l as [|x l IH]; simpl; [tauto|].
  rewrite insert_by_In, IH. intuition.
Qed.

(** An ascending list whose ranks are all 0 or 1 is its rank-0 elements
    followed by its rank-1 elements. *)
Lemma ascending_two_ranks l :
  ascendingBy rank l ->
  (forall x, In x l -> rank x = 0 \/ rank x = 1) ->
  l = (filter (fun y => rank y =? 0) l ++ filter (fun y => rank y =? 1) l)%list.
Proof.
  unfold ascendingBy. induction 1 as [|z l Hs IH Hz]; intros Hr; simpl.
  - reflexivity.
  - assert (Hr' : forall x, In x l -> rank x = 0 \/ rank x = 1)
      by (intros x Hx; apply Hr; now right).
    destruct (Hr z (or_introl eq_refl)) as [E|E]; rewrite E; simpl.
    + f_equal. now apply IH.
    + assert (H0 : filter (fun y => rank y =? 0) l = []).
      { rewrite Forall_forall in Hz. clear - Hz E.
        induction l as [|y l IHl]; simpl; [reflexivity|].
        destruct (rank y =? 0) eqn:Ey.
        - apply Nat.eqb_eq in Ey. specialize (Hz y (or_introl eq_refl)). lia.
        - apply IHl. intros x Hx. apply Hz. now right. }
      rewrite H0. simpl. f_equal.
      rewrite (IH Hr') at 1. now rewrite H0.
Qed.

(** Sorting a list whose ranks are all 0 or 1. *)
Lemma sortBy_two_ranks l :
  (forall x, In x l -> rank x = 0 \/ rank x = 1) ->
  Lodash.sortBy rank l
  = (filter (fun y => rank y =? 0) l ++ filter (fun y => rank y =? 1) l)%list.
Proof.
  intros Hr.
  rewrite (ascending_two_ranks (Lodash.sortBy rank l)).
  - now rewrite !sortBy_stable.
  - apply sortBy_sorted.
  - intros x Hx. apply Hr. now apply sortBy_In.
Qed.

End Sorting.

(** The ranker reads the severity in upper case, and the empty text when
    the finding has no severity. *)
Lemma hasSeverity_severityUpper (unicodeUpper : string -> string)
  (name : string) (r : Finding.t) :
  name <> EmptyString ->
  hasSeverity unicodeUpper name r
  = String.eqb (severityUpper unicodeUpper r) name.
Proof.
  intros Hn. unfold hasSeverity, severityUpper.
  destruct (Finding.severity r) as [s|]; [reflexivity|].
  destruct name; [congruence | reflexivity].
Qed.

Lemma rank_cases (unicodeUpper : string -> string) (r : Finding.t) :
  severityRank unicodeUpper r =
  if hasSeverity unicodeUpper "CRITICAL" r then 0
  else if hasSeverity unicodeUpper "HIGH" r then 1 else 99.
Proof.
  rewrite !hasSeverity_severityUpper by discriminate.
  unfold severityRank, order. simpl.
  destruct (String.eqb (severityUpper unicodeUpper r) "CRITICAL");
    [reflexivity|].
  destruct (String.eqb (severityUpper unicodeUpper r) "HIGH"); reflexivity.
Qed.

Lemma hasSeverity_exclusive (unicodeUpper : string -> string) (r : Finding.t) :
  hasSeverity unicodeUpper "CRITICAL" r = true ->
  hasSeverity unicodeUpper "HIGH" r = false.
Proof.
  unfold hasSeverity. destruct (Finding.severity r) as [s|]; [|reflexivity].
  intros H. apply String.eqb_eq in H. now rewrite H.
Qed.

Lemma rank_zero (unicodeUpper : string -> string) (r : Finding.t) :
  (severityRank unicodeUpper r =? 0) = hasSeverity unicodeUpper "CRITICAL" r.
Proof.
  rewrite rank_cases.
  destruct (hasSeverity unicodeUpper "CRITICAL" r); [reflexivity|].
  destruct (hasSeverity unicodeUpper "HIGH" r); reflexivity.
Qed.

Lemma rank_one (unicodeUpper : string -> string) (r : Finding.t) :
  (severityRank unicodeUpper r =? 1) = hasSeverity unicodeUpper "HIGH" r.
Proof.
  rewrite rank_cases.
  destruct (hasSeverity unicodeUpper "CRITICAL" r) eqn:E.
  - now rewrite (hasSeverity_exclusive unicodeUpper r E).
  - destruct (hasSeverity unicodeUpper "HIGH" r); reflexivity.
Qed.

Lemma isSevere_hasSeverity (unicodeUpper : string -> string) (r : Finding.t) :
  isSevere unicodeUpper r
  = hasSeverity unicodeUpper "CRITICAL" r || hasSeverity unicodeUpper "HIGH" r.
Proof.
  rewrite !hasSeverity_severityUpper by discriminate.
  unfold isSevere, JsString.includes. simpl.
  now rewrite orb_false_r.
Qed.

Lemma isActionable_safelyActionable (r : Finding.t) :
  isActionable r = safelyActionable r.
Proof.
  unfold isActionable, safelyActionable, JsString.includes.
  destruct (Finding.classification r); [|reflexivity].
  simpl. now rewrite orb_false_r.
Qed.

Lemma filter_filter {A : Type} (p q : A -> bool) (l : list A) :
  filter q (filter p l) = filter (fun x => p x && q x) l.
Proof.
  induction l as [|x l IH]; simpl; [reflexivity|].
  destruct (p x); simpl; [destruct (q x)|]; now rewrite IH.
Qed.

(** The two filters of the ranker select the findings of [selected]. *)
Lemma ranker_filters (unicodeUpper : string -> string)
  (results : list Finding.t) :
  filter isActionable (filter (isSevere unicodeUpper) results)
  = selected unicodeUpper results.
Proof.
  rewrite filter_filter. unfold selected. apply filter_ext. intros r.
  now rewrite isSevere_hasSeverity, isActionable_safelyActionable.
Qed.

Lemma selected_ranks (unicodeUpper : string -> string)
  (results : list Finding.t) (r : Finding.t) :
  In r (selected unicodeUpper results) ->
  severityRank unicodeUpper r = 0 \/ severityRank unicodeUpper r = 1.
Proof.
  unfold selected. intros H. apply filter_In in H. destruct H as [_ H].
  apply andb_true_iff in H. destruct H as [H _]. rewrite rank_cases.
  destruct (hasSeverity unicodeUpper "CRITICAL" r); [now left|].
  simpl in H. rewrite H. now right.
Qed.

(** The ranker, step by step: selection, stable sort, truncation. *)
Lemma actionRequired_spec (unicodeUpper : string -> string)
  (results : list Finding.t) :
  actionRequired unicodeUpper results
  = firstn 10 (criticalFirst unicodeUpper (selected unicodeUpper results)).
Proof.
  unfold actionRequired, Lodash.take. rewrite ranker_filters.
  rewrite sortBy_two_ranks by apply selected_ranks.
  unfold criticalFirst. f_equal. f_equal; apply filter_ext; intros r.
  - apply rank_zero.
  - apply rank_one.
Qed.

(** C4.  The items of [actionRequired] are the first at most 10 findings
    of the following list, each as the item
    [{id: cveId, package: packageUrl, severity, classification, fixVersion}]:
    the findings whose severity, in upper case, is CRITICAL or HIGH and whose
    classification is SAFE_PATCH or MINOR_BUMP, sorted stably with CRITICAL
    before HIGH, that is, the selected CRITICAL findings in input order
    followed by the selected HIGH findings in input order.  The list has at
    most 10 items and [count] is its length. *)
Theorem actionRequired_items_are_top_ten :
  forall (unicodeUpper : string -> string) (now : string)
         (results : list Finding.t),
    let action :=
      Summary.actionRequired (buildSummary unicodeUpper now results) in
    ActionRequired.items action
    = map projected
        (firstn 10
           (criticalFirst unicodeUpper (selected unicodeUpper results)))
    /\ length (ActionRequired.items action) <= 10
    /\ ActionRequired.count action = length (ActionRequired.items action).
Proof.
  intros unicodeUpper now results action. subst action. unfold buildSummary.
  cbn [Summary.actionRequired ActionRequired.items ActionRequired.count].
  rewrite actionRequired_spec.
  change (map toItem) with (map projected). repeat split.
  - rewrite length_map. apply firstn_le_length.
  - now rewrite length_map.
Qed.

(* ------------------------------------------------------------------ *)
(** ** The confidence analyzer *)

Lemma geb_true (a b : Q) : Lodash.geb a b = true <-> (b <= a)%Q.
Proof. unfold Lodash.geb. apply Qle_bool_iff. Qed.

Lemma ltb_true (a b : Q) : Lodash.ltb a b = true <-> (a < b)%Q.
Proof.
  unfold Lodash.ltb. rewrite negb_true_iff. split.
  - intros H. apply Qnot_le_lt. intros Hle.
    apply Qle_bool_iff in Hle. congruence.
  - intros H. destruct (Qle_bool b a) eqn:E; [|reflexivity].
    apply Qle_bool_iff in E. exfalso. now apply (Qlt_not_le a b).
Qed.

Lemma ltb_false (a b : Q) : Lodash.ltb a b = false <-> (b <= a)%Q.
Proof.
  unfold Lodash.ltb. rewrite negb_false_iff. apply Qle_bool_iff.
Qed.

(** Every number falls in exactly one of the three buckets. *)
Lemma one_bucket (c : Q) :
  Nat.b2n (isHighConfidence c) + Nat.b2n (isMediumConfidence c)
  + Nat.b2n (isLowConfidence c) = 1.
Proof.
  unfold isHighConfidence, isMediumConfidence, isLowConfidence.
  unfold Lodash.ltb, Lodash.geb.
  destruct (Qle_bool (8 # 10) c) eqn:H8; destruct (Qle_bool (5 # 10) c) eqn:H5;
    simpl; try reflexivity.
  exfalso. apply Qle_bool_iff in H8.
  assert (H : (5 # 10 <= c)%Q) by lra.
  apply Qle_bool_iff in H. congruence.
Qed.

Lemma filter_length_b2n {A : Type} (p : A -> bool) (x : A) (l : list A) :
  length (filter p (x :: l)) = Nat.b2n (p x) + length (filter p l).
Proof. simpl. now destruct (p x). Qed.

(** The three buckets partition the collected values. *)
Lemma buckets_partition (cs : list Q) :
  length (filter isHighConfidence cs) + length (filter isMediumConfidence cs)
  + length (filter isLowConfidence cs) = length cs.
Proof.
  induction cs as [|c cs IH]; [reflexivity|].
  rewrite !filter_length_b2n. pose proof (one_bucket c). simpl length. lia.
Qed.

(** The collected values are the defined values that are not zero. *)
Lemma confidences_defined_nonzero (results : list Finding.t) :
  confidences results = filter Lodash.truthy (definedConfidences results).
Proof.
  unfold confidences, definedConfidences.
  induction results as [|r results IH]; simpl; [reflexivity|].
  destruct (Finding.confidence r) as [c|]; simpl; [|exact IH].
  destruct (Lodash.truthy c); now rewrite IH.
Qed.

(** The buckets of the summary add up to the number of findings whose
    confidence is defined and not zero. *)
Lemma distribution_total (unicodeUpper : string -> string)
  (now : string) (results : list Finding.t) :
  bucketTotal
    (ConfidenceStats.distribution
       (Summary.confidence (buildSummary unicodeUpper now results)))
  = length (filter Lodash.truthy (definedConfidences results)).
Proof.
  unfold buildSummary, bucketTotal.
  cbn [Summary.confidence ConfidenceStats.distribution Distribution.high
       Distribution.medium Distribution.low].
  rewrite buckets_partition. now rewrite confidences_defined_nonzero.
Qed.

(** When no finding has the confidence 0, the buckets add up to the number
    of findings that carry a confidence value. *)
Lemma distribution_total_without_zero (unicodeUpper : string -> string)
  (now : string) (results : list Finding.t) :
  (forall c, In c (definedConfidences results) -> Lodash.truthy c = true) ->
  bucketTotal
    (ConfidenceStats.distribution
       (Summary.confidence (buildSummary unicodeUpper now results)))
  = withConfidence results.
Proof.
  intros Hnz. rewrite distribution_total. unfold withConfidence.
  f_equal. induction (definedConfidences results) as [|c l IH]; [reflexivity|].
  simpl. rewrite (Hnz c (or_introl eq_refl)). f_equal.
  apply IH. intros x Hx. apply Hnz. now right.
Qed.

(** C1, on the findings array that holds one finding of confidence 0: the
    finding carries a defined confidence value, so one finding has a
    defined confidence, but the collected set is empty and the three
    buckets add up to 0. *)
Theorem zero_confidence_is_not_collected :
  forall unicodeUpper : string -> string,
    Finding.confidence zeroConfidence = Some 0%Q
    /\ withConfidence [zeroConfidence] = 1
    /\ confidences [zeroConfidence] = []
    /\ bucketTotal
         (ConfidenceStats.distribution
            (Summary.confidence (buildSummary unicodeUpper "2024-01-01T00:00:00.000Z"
                                   [zeroConfidence])))
       = 0.
Proof. intros unicodeUpper. repeat split. Qed.

(* ------------------------------------------------------------------ *)
(** ** Average, minimum and rounding *)

Open Scope Q_scope.

Lemma count_succ (n : nat) :
  inject_Z (Z.of_nat (S n)) == inject_Z (Z.of_nat n) + 1.
Proof. rewrite Nat2Z.inj_succ. unfold Z.succ. now rewrite inject_Z_plus. Qed.

Lemma count_nonneg (n : nat) : 0 <= inject_Z (Z.of_nat n).
Proof.
  change 0 with (inject_Z 0). rewrite <- Zle_Qle. lia.
Qed.

Lemma fold_Qplus_bounds (lo hi : Q) (l : list Q) (a : Q) :
  (forall c, In c l -> lo <= c /\ c <= hi) ->
  a + inject_Z (Z.of_nat (length l)) * lo <= fold_left Qplus l a
  /\ fold_left Qplus l a <= a + inject_Z (Z.of_nat (length l)) * hi.
Proof.
  revert a. induction l as [|c l IH]; intros a Hb.
  - cbn [fold_left length Z.of_nat]. change (inject_Z 0) with 0. split; lra.
  - assert (Hc : lo <= c /\ c <= hi) by (apply Hb; now left).
    assert (Hl : forall x, In x l -> lo <= x /\ x <= hi)
      by (intros x Hx; apply Hb; now right).
    specialize (IH (a + c) Hl).
    cbn [fold_left length]. rewrite count_succ.
    split; lra.
Qed.

(** The mean of a non-empty list lies between any lower and any upper
    bound of its elements. *)
Lemma mean_bounds (lo hi : Q) (cs : list Q) :
  cs <> [] ->
  (forall c, In c cs -> lo <= c /\ c <= hi) ->
  lo <= exactMean cs /\ exactMean cs <= hi.
Proof.
  destruct cs as [|c cs]; [congruence|]. intros _ Hb.
  assert (Hc : lo <= c /\ c <= hi) by (apply Hb; now left).
  assert (Hl : forall x, In x cs -> lo <= x /\ x <= hi)
    by (intros x Hx; apply Hb; now right).
  pose proof (fold_Qplus_bounds lo hi cs c Hl) as [Hlo Hhi].
  unfold exactMean, exactSum.
  pose proof (count_nonneg (length cs)) as Hn.
  assert (Hpos : 0 < inject_Z (Z.of_nat (length (c :: cs))))
    by (cbn [length]; rewrite count_succ; lra).
  split.
  - apply Qle_shift_div_l; [exact Hpos|].
    cbn [length]. rewrite count_succ. lra.
  - apply Qle_shift_div_r; [exact Hpos|].
    cbn [length]. rewrite count_succ. lra.
Qed.

Lemma min_fold_lower (l : list Q) (a : Q) :
  fold_left (fun m x => if Lodash.ltb x m then x else m) l a <= a
  /\ forall c, In c l ->
       fold_left (fun m x => if Lodash.ltb x m then x else m) l a <= c.
Proof.
  revert a. induction l as [|x l IH]; intros a; simpl.
  - split; [lra | tauto].
  - destruct (IH (if Lodash.ltb x a then x else a)) as [H1 H2].
    destruct (Lodash.ltb x a) eqn:E.
    + apply ltb_true in E. split; [lra|].
      intros c [<-|Hc]; [exact H1 | now apply H2].
    + apply ltb_false in E. split; [exact H1|].
      intros c [<-|Hc]; [lra | now apply H2].
Qed.

(** [_.min] is a lower bound of the array. *)
Lemma min_lower (cs : list Q) (c : Q) : In c cs -> Lodash.min cs <= c.
Proof.
  destruct cs as [|a l]; [contradiction|]. unfold Lodash.min.
  destruct (min_fold_lower l a) as [H1 H2].
  intros [<-|Hc]; [exact H1 | now apply H2].
Qed.

Lemma qmax_fold_upper (l : list Q) (a : Q) :
  a <= fold_left qmax l a /\ forall c, In c l -> c <= fold_left qmax l a.
Proof.
  revert a. induction l as [|x l IH]; intros a; simpl.
  - split; [lra | tauto].
  - destruct (IH (qmax a x)) as [H1 H2]. unfold qmax in *.
    destruct (Lodash.ltb a x) eqn:E.
    + apply ltb_true in E. split; [lra|].
      intros c [<-|Hc]; [exact H1 | now apply H2].
    + apply ltb_false in E. split; [exact H1|].
      intros c [<-|Hc]; [lra | now apply H2].
Qed.

(** [maxObserved] is an upper bound of the defined confidence values. *)
Lemma maxObserved_upper (results : list Finding.t) (c : Q) :
  In c (definedConfidences results) -> c <= maxObserved results.
Proof.
  unfold maxObserved. destruct (definedConfidences results) as [|a l];
    [contradiction|].
  destruct (qmax_fold_upper l a) as [H1 H2].
  intros [<-|Hc]; [exact H1 | now apply H2].
Qed.

Lemma defined_In (results : list Finding.t) (r : Finding.t) (c : Q) :
  In r results -> Finding.confidence r = Some c ->
  In c (definedConfidences results).
Proof.
  intros Hr Hc. unfold definedConfidences. apply in_flat_map.
  exists r. split; [exact Hr|]. rewrite Hc. now left.
Qed.

(** *** Double precision *)

Lemma pow2_pos (z : Z) : 0 < JsNumber.pow2 z.
Proof. apply Qpower_0_lt. reflexivity. Qed.

Lemma pow10_pos (z : Z) : 0 < JsNumber.pow10 z.
Proof. apply Qpower_0_lt. reflexivity. Qed.

Lemma pow2_plus (a b : Z) : JsNumber.pow2 (a + b) == JsNumber.pow2 a * JsNumber.pow2 b.
Proof. apply Qpower_plus. discriminate. Qed.

Lemma pow2_inject (n : Z) : (0 <= n)%Z -> inject_Z (2 ^ n) == JsNumber.pow2 n.
Proof. intros H. unfold JsNumber.pow2. now rewrite Zpower_Qpower. Qed.

Lemma binade_le (a : Q) : 0 < a -> JsNumber.pow2 (JsNumber.binade a) <= a.
Proof.
  intros Ha. unfold JsNumber.binade.
  set (e := (Z.log2 (Qnum a) - Z.log2 (Z.pos (Qden a)))%Z).
  destruct (Qle_bool (JsNumber.pow2 e) a) eqn:E; [now apply Qle_bool_iff|].
  destruct a as [n d]. cbn [Qnum Qden] in e.
  assert (Hn : (0 < n)%Z).
  { unfold Qlt in Ha. cbn in Ha. lia. }
  destruct (Z.log2_spec n Hn) as [Hn1 _].
  destruct (Z.log2_spec (Z.pos d) eq_refl) as [_ Hd2].
  pose proof (Z.log2_nonneg n) as Ln. pose proof (Z.log2_nonneg (Z.pos d)) as Ld.
  assert (Hsplit : JsNumber.pow2 (Z.log2 n)
                   == JsNumber.pow2 (e - 1) * JsNumber.pow2 (Z.succ (Z.log2 (Z.pos d)))).
  { rewrite <- pow2_plus.
    replace (e - 1 + Z.succ (Z.log2 (Z.pos d)))%Z with (Z.log2 n)
      by (unfold e; lia).
    reflexivity. }
  rewrite <- (pow2_inject (Z.log2 n)) in Hsplit by lia.
  rewrite <- (pow2_inject (Z.succ (Z.log2 (Z.pos d)))) in Hsplit by lia.
  rewrite (Qmake_Qdiv n d). apply Qle_shift_div_l; [reflexivity|].
  apply Qle_trans with (inject_Z (2 ^ Z.log2 n)); [|now rewrite <- Zle_Qle].
  rewrite Hsplit. apply (proj2 (Qmult_le_l _ _ _ (pow2_pos _))).
  rewrite <- Zle_Qle. lia.
Qed.

Lemma roundHalfEven_close (x : Q) :
  Qabs (inject_Z (JsNumber.roundHalfEven x) - x) <= 1 # 2.
Proof.
  unfold JsNumber.roundHalfEven.
  pose proof (Qfloor_le x) as H1. pose proof (Qlt_floor x) as H2.
  rewrite inject_Z_plus in H2. change (inject_Z 1) with 1 in H2.
  apply Qabs_Qle_condition.
  destruct (Qcompare (x - inject_Z (Qfloor x)) (1 # 2)) eqn:E.
  - apply Qeq_alt in E. destruct (Z.even (Qfloor x));
      [|rewrite inject_Z_plus; change (inject_Z 1) with 1]; split; lra.
  - apply Qlt_alt in E. split; lra.
  - apply Qgt_alt in E. rewrite inject_Z_plus. change (inject_Z 1) with 1.
    split; lra.
Qed.

Lemma roundHalfEven_nonneg (x : Q) : 0 <= x -> (0 <= JsNumber.roundHalfEven x)%Z.
Proof.
  intros Hx. unfold JsNumber.roundHalfEven.
  assert (H : (0 <= Qfloor x)%Z).
  { change 0%Z with (Qfloor 0). now apply Qfloor_resp_le. }
  destruct (Qcompare _ _); [destruct (Z.even _)| |]; lia.
Qed.

Lemma quantum_pos (a : Q) : 0 < JsNumber.quantum a.
Proof. apply pow2_pos. Qed.

Lemma quantum_half (a : Q) :
  0 < a -> JsNumber.quantum a * (1 # 2) <= unitRoundoff * a + tiny.
Proof.
  intros Ha. unfold JsNumber.quantum.
  pose proof (binade_le a Ha) as Hb.
  pose proof (pow2_pos (-1075)) as Ht. fold tiny in Ht.
  destruct (Z.max_spec (JsNumber.binade a - 52) (-1074)) as [[_ ->]|[_ ->]].
  - change (JsNumber.pow2 (-1074) * (1 # 2)) with (JsNumber.pow2 (-1074) * JsNumber.pow2 (-1)).
    rewrite <- pow2_plus. change (JsNumber.pow2 (-1074 + -1)) with tiny.
    assert (0 <= unitRoundoff * a).
    { apply Qmult_le_0_compat; [apply Qlt_le_weak, pow2_pos | lra]. }
    lra.
  - change (1 # 2) with (JsNumber.pow2 (-1)). rewrite <- pow2_plus.
    replace (JsNumber.binade a - 52 + -1)%Z with (-53 + JsNumber.binade a)%Z by lia.
    rewrite pow2_plus. fold unitRoundoff.
    assert (unitRoundoff * JsNumber.pow2 (JsNumber.binade a) <= unitRoundoff * a).
    { apply Qmult_le_l; [apply pow2_pos | exact Hb]. }
    lra.
Qed.

Lemma nearestMagnitude_close (a : Q) :
  0 < a ->
  0 <= JsNumber.nearestMagnitude a
  /\ Qabs (JsNumber.nearestMagnitude a - a) <= unitRoundoff * a + tiny.
Proof.
  intros Ha. unfold JsNumber.nearestMagnitude.
  pose proof (quantum_pos a) as Hq. pose proof (quantum_half a Ha) as Hh.
  set (g := JsNumber.quantum a) in *.
  assert (Hdiv : 0 <= a / g).
  { apply Qle_shift_div_l; [exact Hq | lra]. }
  pose proof (roundHalfEven_nonneg (a / g) Hdiv) as Hm.
  pose proof (roundHalfEven_close (a / g)) as Hc.
  set (m := inject_Z (JsNumber.roundHalfEven (a / g))) in *.
  assert (Hm' : 0 <= m).
  { unfold m. change 0 with (inject_Z 0). now rewrite <- Zle_Qle. }
  split; [apply Qmult_le_0_compat; lra|].
  assert (Ea : m * g - a == (m - a / g) * g) by (field; lra).
  rewrite Ea, Qabs_Qmult, (Qabs_pos g) by lra.
  apply Qle_trans with ((1 # 2) * g); [|lra].
  apply Qmult_le_r; [exact Hq | exact Hc].
Qed.

Lemma unitRoundoff_value : unitRoundoff == 1 # 9007199254740992.
Proof. vm_compute. reflexivity. Qed.

Lemma tiny_bounds : 0 < tiny /\ tiny <= 1 # 1000000000000000000000000.
Proof. split; [apply pow2_pos|]. vm_compute. discriminate. Qed.

Lemma overflow_threshold : 4398046511104 <= JsNumber.pow2 1024.
Proof. vm_compute. discriminate. Qed.

(** The error of rounding to nearest: a relative error of at most the unit
    roundoff, or an absolute error of at most [tiny] near zero. *)
Lemma nearest_error (q r : Q) :
  JsNumber.nearest q = JsNumber.Finite r ->
  Qabs (r - q) <= unitRoundoff * Qabs q + tiny.
Proof.
  unfold JsNumber.nearest. pose proof tiny_bounds as [Ht _].
  destruct (Qcompare q 0) eqn:E.
  - apply Qeq_alt in E. intros [= <-]. rewrite E. 
    change (Qabs (0 - 0)) with 0. change (Qabs 0) with 0. lra.
  - apply Qlt_alt in E.
    destruct (Qle_bool _ _); [discriminate|]. intros [= <-].
    assert (Hq : 0 < - q) by lra.
    destruct (nearestMagnitude_close (- q) Hq) as [_ Hc].
    rewrite (Qabs_neg q) by lra.
    assert (Ea : - JsNumber.nearestMagnitude (- q) - q
                 == - (JsNumber.nearestMagnitude (- q) - - q)) by ring.
    now rewrite Ea, Qabs_opp.
  - apply Qgt_alt in E.
    destruct (Qle_bool _ _); [discriminate|]. intros [= <-].
    destruct (nearestMagnitude_close q E) as [_ Hc].
    now rewrite (Qabs_pos q) by lra.
Qed.

Lemma nearest_nonneg (q r : Q) : 0 <= q -> JsNumber.nearest q = JsNumber.Finite r -> 0 <= r.
Proof.
  unfold JsNumber.nearest. intros Hq.
  destruct (Qcompare q 0) eqn:E.
  - intros [= <-]. lra.
  - apply Qlt_alt in E. lra.
  - apply Qgt_alt in E. destruct (Qle_bool _ _); [discriminate|].
    intros [= <-]. now apply nearestMagnitude_close.
Qed.

(** No overflow far below the largest double. *)
Lemma nearest_finite (q : Q) :
  0 <= q -> q <= 1099511627776 -> exists r, JsNumber.nearest q = JsNumber.Finite r.
Proof.
  intros H0 Hq. unfold JsNumber.nearest.
  destruct (Qcompare q 0) eqn:E; [now exists 0| |].
  - apply Qlt_alt in E. lra.
  - apply Qgt_alt in E.
    destruct (nearestMagnitude_close q E) as [_ Hc].
    apply Qabs_Qle_condition in Hc.
    pose proof unitRoundoff_value as Hu. pose proof tiny_bounds as [_ Ht].
    pose proof overflow_threshold as Ho.
    destruct (Qle_bool (JsNumber.pow2 1024) (JsNumber.nearestMagnitude q)) eqn:B.
    + apply Qle_bool_iff in B. rewrite Hu in Hc. lra.
    + now exists (JsNumber.nearestMagnitude q).
Qed.

(** ** The shortest decimal *)

Lemma roundTrips_close (c a : Q) :
  JsNumber.roundTrips c a = true -> Qabs (a - c) <= unitRoundoff * Qabs c + tiny.
Proof.
  unfold JsNumber.roundTrips. destruct (JsNumber.nearest c) as [r| |] eqn:E; try discriminate.
  intros H. apply Qeq_bool_iff in H. rewrite <- H. now apply nearest_error.
Qed.

Lemma shortestAt_close (a : Q) (p k : Z) (c : Q) :
  0 < a -> JsNumber.shortestAt a p k = Some c ->
  0 <= c /\ Qabs (a - c) <= unitRoundoff * Qabs c + tiny.
Proof.
  intros Ha. unfold JsNumber.shortestAt.
  set (scale := JsNumber.pow10 (p - k + 1)).
  set (s := Qfloor (a / scale)).
  assert (Hs : 0 < scale) by apply pow10_pos.
  assert (Hs0 : (0 <= s)%Z).
  { unfold s. change 0%Z with (Qfloor 0). apply Qfloor_resp_le.
    apply Qle_shift_div_l; [exact Hs | lra]. }
  assert (Hlo : 0 <= inject_Z s * scale).
  { apply Qmult_le_0_compat; [|lra].
    change 0 with (inject_Z 0). now rewrite <- Zle_Qle. }
  assert (Hhi : 0 <= inject_Z (s + 1) * scale).
  { apply Qmult_le_0_compat; [|lra].
    change 0 with (inject_Z 0). rewrite <- Zle_Qle. lia. }
  destruct (JsNumber.roundTrips (inject_Z s * scale) a) eqn:E1,
           (JsNumber.roundTrips (inject_Z (s + 1) * scale) a) eqn:E2;
    try discriminate.
  - destruct (Qcompare _ _); [destruct (Z.even s)| |]; intros [= <-];
      (split; [assumption | now apply roundTrips_close]).
  - intros [= <-]. split; [assumption | now apply roundTrips_close].
  - intros [= <-]. split; [assumption | now apply roundTrips_close].
Qed.

Lemma shortestFrom_close (digits : nat) (a : Q) (p k : Z) :
  0 < a ->
  0 <= JsNumber.shortestFrom digits a p k
  /\ Qabs (a - JsNumber.shortestFrom digits a p k)
     <= unitRoundoff * Qabs (JsNumber.shortestFrom digits a p k) + tiny.
Proof.
  intros Ha. revert k. induction digits as [|digits IH]; intros k;
    cbn [JsNumber.shortestFrom].
  - split; [lra|]. pose proof tiny_bounds as [Ht _].
    assert (E : a - a == 0) by ring. rewrite E. change (Qabs 0) with 0.
    assert (0 <= unitRoundoff * Qabs a).
    { apply Qmult_le_0_compat;
        [apply Qlt_le_weak, pow2_pos | apply Qabs_nonneg]. }
    lra.
  - destruct (JsNumber.shortestAt a p k) as [c|] eqn:E; [|apply IH].
    rewrite (Qred_correct c). now apply (shortestAt_close a p k).
Qed.

(** The decimal text of a number denotes a value that rounds back to the
    number; so the two are close. *)
Lemma toDecimal_close (q : Q) :
  0 <= q ->
  0 <= JsNumber.toDecimal q
  /\ Qabs (q - JsNumber.toDecimal q) <= unitRoundoff * JsNumber.toDecimal q + tiny.
Proof.
  intros Hq. unfold JsNumber.toDecimal. pose proof tiny_bounds as [Ht _].
  destruct (Qcompare q 0) eqn:E.
  - apply Qeq_alt in E. rewrite E. split; [lra|].
    change (Qabs (0 - 0)) with 0. lra.
  - apply Qlt_alt in E. lra.
  - apply Qgt_alt in E.
    destruct (shortestFrom_close 17 q (JsNumber.decade q) 1 E) as [H1 H2].
    split; [exact H1|]. now rewrite (Qabs_pos _ H1) in H2.
Qed.

(** Linear arithmetic once the unit roundoff is a numeral. *)
Ltac double_bound :=
  repeat match goal with
         | H : unitRoundoff == _ |- _ => clear H
         end;
  lra.

(** [_.round(x, 2)] moves a number between 0 and 2 by at most 0.005, up to
    the rounding of the conversions. *)
Lemma round2_close (x : Q) :
  0 <= x -> x <= 2 ->
  exists a,
    Lodash.round2 (JsNumber.Finite x) = JsNumber.Finite a
    /\ x - (5 # 1000) - (1 # 1000000000000) <= a
    /\ a <= x + (5 # 1000) + (1 # 1000000000000).
Proof.
  intros H0 H2. unfold Lodash.round2.
  pose proof unitRoundoff_value as Hu. pose proof tiny_bounds as [Ht0 Ht].
  destruct (toDecimal_close x H0) as [Hc0 Hc].
  set (c := JsNumber.toDecimal x) in *. clearbody c.
  rewrite Hu in Hc. apply Qabs_Qle_condition in Hc. destruct Hc as [Hcl Hcr].
  assert (Hc3 : c <= 3) by double_bound.
  destruct (nearest_finite (c * 100)) as [y Hy]; [double_bound | double_bound |].
  rewrite Hy.
  assert (Hy0 : 0 <= y)
    by (apply (nearest_nonneg (c * 100)); [double_bound | exact Hy]).
  pose proof (nearest_error _ _ Hy) as Hye.
  rewrite (Qabs_pos (c * 100)), Hu in Hye by double_bound.
  apply Qabs_Qle_condition in Hye. destruct Hye as [Hyel Hyer].
  pose proof (Qfloor_le (y + (1 # 2))) as Hk1.
  pose proof (Qlt_floor (y + (1 # 2))) as Hk2.
  rewrite inject_Z_plus in Hk2. change (inject_Z 1) with 1 in Hk2.
  fold (JsNumber.mathRound y) in Hk1, Hk2.
  assert (Hk0 : 0 <= JsNumber.mathRound y).
  { unfold JsNumber.mathRound. change 0 with (inject_Z 0). rewrite <- Zle_Qle.
    change 0%Z with (Qfloor 0). apply Qfloor_resp_le. double_bound. }
  destruct (toDecimal_close (JsNumber.mathRound y) Hk0) as [Hd0 Hd].
  set (d := JsNumber.toDecimal (JsNumber.mathRound y)) in *. clearbody d.
  rewrite Hu in Hd. apply Qabs_Qle_condition in Hd. destruct Hd as [Hdl Hdr].
  assert (Hd9 : d <= 400) by double_bound.
  assert (Hdiv : d / 100 == d * (1 # 100)) by (field).
  destruct (nearest_finite (d / 100)) as [a Ha]; [double_bound | double_bound |].
  exists a. split; [exact Ha|].
  pose proof (nearest_error _ _ Ha) as Hae.
  rewrite (Qabs_pos (d / 100)), Hu in Hae by double_bound.
  apply Qabs_Qle_condition in Hae. destruct Hae as [Hael Haer].
  split; double_bound.
Qed.

Lemma slack_closed (k : nat) :
  slack k
  == unitRoundoff * (inject_Z (Z.of_nat k) * inject_Z (Z.of_nat k))
     + inject_Z (Z.of_nat k) * tiny.
Proof.
  induction k as [|k IH]; [reflexivity|].
  cbn [slack]. rewrite IH, Nat2Z.inj_succ. unfold Z.succ.
  rewrite inject_Z_plus. change (inject_Z 1) with 1. ring.
Qed.

Lemma add_fold (cs : list Q) :
  forall (s T : Q) (k : nat),
    (Z.of_nat (k + length cs) <= 4294967296)%Z ->
    (forall x, In x cs -> 0 <= x /\ x <= 1) ->
    0 <= s -> s <= 2 * inject_Z (Z.of_nat k) ->
    Qabs (s - T) <= slack k ->
    exists s',
      fold_left JsNumber.add cs (JsNumber.Finite s) = JsNumber.Finite s'
      /\ 0 <= s' /\ s' <= 2 * inject_Z (Z.of_nat (k + length cs))
      /\ Qabs (s' - fold_left Qplus cs T) <= slack (k + length cs).
Proof.
  pose proof unitRoundoff_value as Hu. pose proof tiny_bounds as [Ht0 Ht].
  induction cs as [|x cs IH]; intros s T k Hlen Hin Hs0 Hs2 Hst.
  - exists s. cbn [fold_left length]. rewrite Nat.add_0_r. auto.
  - cbn [fold_left length] in *.
    destruct (Hin x (or_introl eq_refl)) as [Hx0 Hx1].
    assert (Hk : inject_Z (Z.of_nat k) <= 4294967295).
    { change 4294967295 with (inject_Z 4294967295). rewrite <- Zle_Qle. lia. }
    assert (Hk0 : 0 <= inject_Z (Z.of_nat k)).
    { change 0 with (inject_Z 0). rewrite <- Zle_Qle. lia. }
    destruct (nearest_finite (s + x)) as [s1 Hs1]; [double_bound | double_bound |].
    assert (Hs10 : 0 <= s1)
      by (apply (nearest_nonneg (s + x)); [double_bound | exact Hs1]).
    pose proof (nearest_error _ _ Hs1) as He.
    rewrite (Qabs_pos (s + x)), Hu in He by double_bound.
    apply Qabs_Qle_condition in He. destruct He as [Hel Her].
    apply Qabs_Qle_condition in Hst. destruct Hst as [Hstl Hstr].
    assert (Ek : inject_Z (Z.of_nat (S k)) == inject_Z (Z.of_nat k) + 1).
    { rewrite Nat2Z.inj_succ. unfold Z.succ. now rewrite inject_Z_plus. }
    destruct (IH s1 (T + x) (S k)) as [s' [Hf [H0' [H2' Hd]]]].
    + rewrite Nat.add_succ_l, <- Nat.add_succ_r. exact Hlen.
    + intros y Hy. apply Hin. now right.
    + exact Hs10.
    + rewrite Ek. double_bound.
    + cbn [slack]. rewrite Hu. apply Qabs_Qle_condition. double_bound.
    + exists s'. unfold JsNumber.add at 2. rewrite Hs1.
      rewrite Nat.add_succ_l, <- Nat.add_succ_r in H2', Hd. auto.
Qed.

Lemma sum_close (xs : list Q) :
  xs <> [] ->
  (Z.of_nat (length xs) <= 4294967296)%Z ->
  (forall x, In x xs -> 0 <= x /\ x <= 1) ->
  exists s,
    Lodash.sum xs = JsNumber.Finite s
    /\ 0 <= s /\ s <= 2 * inject_Z (Z.of_nat (length xs))
    /\ Qabs (s - exactSum xs) <= slack (length xs).
Proof.
  destruct xs as [|c cs]; [congruence|]. intros _ Hlen Hin.
  destruct (Hin c (or_introl eq_refl)) as [Hc0 Hc1].
  pose proof tiny_bounds as [Ht0 _]. pose proof (pow2_pos (-53)) as Hu0.
  fold unitRoundoff in Hu0.
  apply (add_fold cs c c 1).
  - exact Hlen.
  - intros x Hx. apply Hin. now right.
  - exact Hc0.
  - change (inject_Z (Z.of_nat 1)) with 1. lra.
  - assert (E : c - c == 0) by ring. rewrite E. cbn [slack].
    change (Qabs 0) with 0. change (inject_Z (Z.of_nat 0)) with 0. lra.
Qed.

(** The mean of at most [2^32] numbers between 0 and 1, computed in double
    precision, is within [5e-7] of their arithmetic mean. *)
Lemma mean_close (xs : list Q) :
  xs <> [] ->
  (Z.of_nat (length xs) <= 4294967296)%Z ->
  (forall x, In x xs -> 0 <= x /\ x <= 1) ->
  exists m,
    Lodash.mean xs = JsNumber.Finite m
    /\ 0 <= m
    /\ Qabs (m - exactMean xs) <= 1 # 2000000.
Proof.
  intros Hne Hlen Hin.
  destruct (sum_close xs Hne Hlen Hin) as [s [Hs [Hs0 [Hs2 Hst]]]].
  assert (Em : Lodash.mean xs
               = JsNumber.divide (Lodash.sum xs) (length xs))
    by (destruct xs; [congruence | reflexivity]).
  rewrite Em, Hs. unfold JsNumber.divide.
  pose proof unitRoundoff_value as Hu. pose proof tiny_bounds as [Ht0 Ht].
  set (n := inject_Z (Z.of_nat (length xs))) in *.
  assert (Hn1 : 1 <= n).
  { unfold n. change 1 with (inject_Z 1). rewrite <- Zle_Qle.
    destruct xs; [congruence | cbn [length]; lia]. }
  assert (Hn2 : n <= 4294967296).
  { unfold n. change 4294967296 with (inject_Z 4294967296).
    now rewrite <- Zle_Qle. }
  assert (Hmean : exactMean xs == exactSum xs / n).
  { destruct xs; [congruence | reflexivity]. }
  rewrite slack_closed in Hst. fold n in Hst. clearbody n.
  set (T := exactSum xs) in *. clearbody T.
  assert (Es : s / n * n == s) by (field; lra).
  assert (ET : T / n * n == T) by (field; lra).
  set (sn := s / n) in *. set (Tn := T / n) in *.
  assert (Hsn : sn <= 2).
  { apply (Qmult_le_r _ _ n); [lra|]. rewrite Es. lra. }
  assert (Hsn0 : 0 <= sn).
  { apply (Qmult_le_r _ _ n); [lra|]. rewrite Es. lra. }
  assert (Hd : Qabs (sn - Tn) <= unitRoundoff * n + tiny).
  { apply Qabs_Qle_condition in Hst. destruct Hst as [Hl Hr].
    apply Qabs_Qle_condition.
    split; apply (Qmult_le_r _ _ n); lra. }
  clearbody sn Tn.
  destruct (nearest_finite sn) as [m Hm]; [lra | lra |].
  exists m. split; [exact Hm|].
  assert (Hm0 : 0 <= m) by (apply (nearest_nonneg sn); [lra | exact Hm]).
  split; [exact Hm0|].
  pose proof (nearest_error _ _ Hm) as He.
  rewrite (Qabs_pos sn), Hu in He by lra. rewrite Hu in Hd.
  apply Qabs_Qle_condition in He. destruct He as [Hel Her].
  apply Qabs_Qle_condition in Hd. destruct Hd as [Hdl Hdr].
  rewrite Hmean. apply Qabs_Qle_condition. clear Hu.
  split; lra.
Qed.

Close Scope Q_scope.

(** Three findings whose confidence is the double nearest to 0.825.  In
    double precision their sum is 2.4749999999999996 and their mean
    0.8249999999999998, so the average is 0.82 and not 0.83: it is not
    above [minimum - 0.005]. *)
Example average_of_three_nearlyHigh :
  let stats :=
    Summary.confidence
      (buildSummary unchanged "2024-01-01T00:00:00.000Z"
         [nearlyHigh; nearlyHigh; nearlyHigh]) in
  exists a,
    ConfidenceStats.average stats = JsNumber.Finite a
    /\ (a == JsNumber.literal (82 # 100))%Q
    /\ (ConfidenceStats.minimum stats == double0825)%Q
    /\ ~ (ConfidenceStats.minimum stats - (5 # 1000) < a)%Q.
Proof.
  eexists. split; [vm_compute; reflexivity|].
  split; [vm_compute; reflexivity|]. split; [vm_compute; reflexivity|].
  vm_compute. discriminate.
Qed.

Lemma confidences_length (results : list Finding.t) :
  length (confidences results) <= length results.
Proof.
  unfold confidences. induction results as [|r results IH]; [apply Nat.le_refl|].
  cbn [map Lodash.compact length].
  destruct (Finding.confidence r) as [c|];
    [destruct (Lodash.truthy c)|]; cbn [length]; lia.
Qed.

Lemma confidences_In (results : list Finding.t) (c : Q) :
  In c (confidences results) ->
  exists r, In r results /\ Finding.confidence r = Some c.
Proof.
  rewrite confidences_defined_nonzero. intros H.
  apply filter_In in H. destruct H as [H _].
  unfold definedConfidences in H. apply in_flat_map in H.
  destruct H as [r [Hr Hc]]. exists r. split; [exact Hr|].
  destruct (Finding.confidence r) as [c'|]; [|contradiction].
  destruct Hc as [->|[]]. reflexivity.
Qed.

(** C3, amended.  The array has fewer than [2^32] findings, as every
    JavaScript array has, and its confidence values lie between 0 and 1.
    When at least one finding carries a defined confidence value, the
    average of the summary, computed in double precision, is a finite number
    that lies within 0.005 of the interval from the minimum of the summary
    to the largest observed value, up to the rounding of the arithmetic,
    which is below one millionth:
    [minimum - 0.005 - 0.000001 <= average], and
    [average <= max observed + 0.005 + 0.000001]. *)
Theorem average_within_rounding_of_observed :
  forall (unicodeUpper : string -> string)
         (now : string) (results : list Finding.t),
    (exists r c, In r results /\ Finding.confidence r = Some c) ->
    (Z.of_nat (length results) < 4294967296)%Z ->
    (forall r c, In r results -> Finding.confidence r = Some c ->
                 (0 <= c)%Q /\ (c <= 1)%Q) ->
    let stats := Summary.confidence (buildSummary unicodeUpper now results) in
    within (ConfidenceStats.minimum stats - (5 # 1000) - (1 # 1000000))
           (maxObserved results + (5 # 1000) + (1 # 1000000))
           (ConfidenceStats.average stats).
Proof.
  intros unicodeUpper now results [r [c [Hr Hc]]] Hlen Hrange stats. subst stats.
  unfold buildSummary.
  cbn [Summary.confidence ConfidenceStats.average ConfidenceStats.minimum].
  unfold avgConfidence, minConfidence.
  pose proof (maxObserved_upper results c (defined_In results r c Hr Hc)) as Hmax.
  destruct (Hrange r c Hr Hc) as [Hc0 Hc1].
  destruct (confidences results) as [|c0 cs] eqn:E; cbn [Lodash.isEmpty].
  - (* nothing collected: the defaults *)
    cbn [within]. split; lra.
  - assert (Hunit : forall x, In x (c0 :: cs) -> (0 <= x)%Q /\ (x <= 1)%Q).
    { intros x Hx. rewrite <- E in Hx. apply confidences_In in Hx.
      destruct Hx as [r' [Hr' Hc']]. exact (Hrange r' x Hr' Hc'). }
    assert (Hb : forall x, In x (c0 :: cs) ->
                 (Lodash.min (c0 :: cs) <= x)%Q /\ (x <= maxObserved results)%Q).
    { intros x Hx. split; [now apply min_lower|].
      apply maxObserved_upper. rewrite <- E in Hx.
      rewrite confidences_defined_nonzero in Hx.
      now apply filter_In in Hx. }
    assert (Hn : (Z.of_nat (length (c0 :: cs)) <= 4294967296)%Z).
    { pose proof (confidences_length results) as Hl. rewrite E in Hl. lia. }
    destruct (mean_close (c0 :: cs) ltac:(discriminate) Hn Hunit)
      as [m [Hm [Hm0 Hme]]].
    pose proof (mean_bounds _ _ (c0 :: cs) ltac:(discriminate) Hb) as [H1 H2].
    pose proof (mean_bounds _ _ (c0 :: cs) ltac:(discriminate) Hunit) as [_ H3].
    apply Qabs_Qle_condition in Hme. destruct Hme as [Hml Hmr].
    rewrite Hm.
    destruct (round2_close m Hm0 ltac:(lra)) as [a [Ha [Hal Har]]].
    rewrite Ha. cbn [within]. split; lra.
Qed.

(* ------------------------------------------------------------------ *)
(** ** The summary of particular arrays *)

(** C8.  On the empty findings array [buildSummary] returns the summary
    with total 0, the four canonical severity counts at 0, no
    classification count, no ecosystem, no action item and an action count
    of 0, average 0, minimum 0 and the three buckets at 0. *)
Theorem buildSummary_empty :
  forall (unicodeUpper : string -> string) (now : string),
    buildSummary unicodeUpper now [] =
    {| Summary.generatedAt := now;
       Summary.overview :=
         {| Overview.totalVulnerabilities := 0;
            Overview.bySeverity :=
              [("CRITICAL", 0); ("HIGH", 0); ("MEDIUM", 0); ("LOW", 0)];
            Overview.byClassification := [] |};
       Summary.ecosystems := [];
       Summary.actionRequired :=
         {| ActionRequired.count := 0; ActionRequired.items := [] |};
       Summary.confidence :=
         {| ConfidenceStats.average := JsNumber.Finite 0;
            ConfidenceStats.minimum := 0%Q;
            ConfidenceStats.distribution :=
              {| Distribution.high := 0;
                 Distribution.medium := 0;
                 Distribution.low := 0 |} |} |}.
Proof. intros unicodeUpper now. reflexivity. Qed.

(** The summary of the example scenario of the specification. *)
Example buildSummary_scenario :
  let s := buildSummary unchanged "2024-01-01T00:00:00.000Z" scenario in
  Overview.bySeverity (Summary.overview s)
  = [("CRITICAL", 1); ("HIGH", 1); ("LOW", 1); ("MEDIUM", 0)]
  /\ Summary.ecosystems s
     = [("npm", EcosystemSummary.mk "npm" 2 1 1 2);
        ("pypi", EcosystemSummary.mk "pypi" 1 0 0 0)]
  /\ ActionRequired.items (Summary.actionRequired s) = [toItem cve1]
  /\ numberText (ConfidenceStats.average (Summary.confidence s)) = "0.6"
  /\ numberText (JsNumber.Finite (ConfidenceStats.minimum (Summary.confidence s)))
     = "0.3"
  /\ ConfidenceStats.distribution (Summary.confidence s) = Distribution.mk 1 1 1.
Proof. vm_compute. repeat split. Qed.

(** Enumeration puts the array-index keys first, in ascending order. *)
Example entries_order :
  JsObject.entries [("npm", 1); ("10", 2); ("go", 3); ("2", 4); ("01", 5)]
  = [("2", 4); ("10", 2); ("npm", 1); ("go", 3); ("01", 5)].
Proof. reflexivity. Qed.

(** C10.  Severity is compared without regard to case by the action
    ranker and by the severity counts, and exactly by the ecosystem
    summaries: in the array made of CVE-1 (severity CRITICAL) and of a
    finding of severity "critical" and classification SAFE_PATCH, both of
    ecosystem npm, the second finding is an action item and is counted
    under the key CRITICAL (count 2), but the npm summary, of count 2, has a
    critical counter of 1. *)
Theorem severity_case_asymmetry :
  forall unicodeUpper : string -> string,
    exists (results : list Finding.t) (r : Finding.t),
      In r results
      /\ Finding.severity r = Some "critical"
      /\ Finding.classification r = Some "SAFE_PATCH"
      /\ In (toItem r)
           (ActionRequired.items
              (Summary.actionRequired
                 (buildSummary unicodeUpper "2024-01-01T00:00:00.000Z"
                    results)))
      /\ severityKey unicodeUpper r = "CRITICAL"
      /\ JsObject.get
           (Overview.bySeverity
              (Summary.overview
                 (buildSummary unicodeUpper "2024-01-01T00:00:00.000Z"
                    results)))
           "CRITICAL"
         = Some 2
      /\ severityIs "CRITICAL" r = false
      /\ exists es : EcosystemSummary.t,
           JsObject.get
             (Summary.ecosystems
                (buildSummary unicodeUpper "2024-01-01T00:00:00.000Z"
                   results))
             (ecosystemOf r)
           = Some es
           /\ EcosystemSummary.count es = 2
           /\ EcosystemSummary.critical es = 1.
Proof.
  intros unicodeUpper.
  exists [cve1; lowerCaseCritical], lowerCaseCritical.
  split; [right; now left|].
  split; [reflexivity|]. split; [reflexivity|].
  split; [right; now left|].
  split; [reflexivity|]. split; [reflexivity|]. split; [reflexivity|].
  exists (summarize [cve1; lowerCaseCritical] "npm").
  repeat split.
Qed.

(* ------------------------------------------------------------------ *)
(** ** The ecosystem of a package URL *)

Lemma strip_prefix_spec (p s r : string) :
  JsString.strip_prefix p s = Some r <-> s = p ++ r.
Proof.
  revert s. induction p as [|a p IH]; intros s; simpl.
  - split; [now intros [= ->] | now intros ->].
  - destruct s as [|b s]; [split; discriminate|].
    destruct (Ascii.eqb a b) eqn:E.
    + apply Ascii.eqb_eq in E. subst b. rewrite IH.
      split; [now intros -> | now intros [= ->]].
    + apply Ascii.eqb_neq in E. split; [discriminate|].
      intros [= Hab _]. congruence.
Qed.

(** What the greedy run of word characters leaves: the text splits into
    the run and a rest that does not start with a word character. *)
Lemma span_word_spec (s w r : string) :
  JsString.span_word s = (w, r) ->
  s = w ++ r /\ JsString.all_word w = true
  /\ match r with
     | String c _ => JsString.is_word c = false
     | EmptyString => True
     end.
Proof.
  revert w r. induction s as [|c s IH]; intros w r; simpl.
  - intros [= <- <-]. auto.
  - destruct (JsString.is_word c) eqn:E.
    + destruct (JsString.span_word s) as [w' r'].
      intros [= <- <-]. destruct (IH w' r' eq_refl) as [H1 [H2 H3]].
      simpl. rewrite E, H2. repeat split; [now f_equal | exact H3].
    + intros [= <- <-]. simpl. auto.
Qed.

(** A run of word characters followed by a slash is what the greedy run
    takes. *)
Lemma span_word_segment (eco rest : string) :
  JsString.all_word eco = true ->
  JsString.span_word (eco ++ String "/"%char rest)
  = (eco, String "/"%char rest).
Proof.
  induction eco as [|c eco IH]; simpl.
  - reflexivity.
  - intros H. apply andb_true_iff in H. destruct H as [Hc He].
    now rewrite Hc, (IH He).
Qed.

(** The expression matches exactly the URLs of the pattern [matchesPkg],
    and captures the run of word characters. *)
Lemma matchPkg_Some (purl eco : string) :
  matchPkg purl = Some eco <-> matchesPkg purl eco.
Proof.
  unfold matchPkg, matchesPkg. split.
  - destruct (JsString.strip_prefix "pkg:" purl) as [rest|] eqn:Ep;
      [|discriminate].
    apply strip_prefix_spec in Ep.
    destruct (JsString.span_word rest) as [w r] eqn:Es.
    apply span_word_spec in Es. destruct Es as [Hs [Hw _]].
    destruct w as [|a w]; [discriminate|].
    destruct r as [|c r]; [discriminate|].
    destruct (Ascii.eqb c "/"%char) eqn:Ec; [|discriminate].
    apply Ascii.eqb_eq in Ec. subst c. intros [= <-].
    split; [discriminate|]. split; [exact Hw|].
    exists r. now rewrite Ep, Hs.
  - intros [Hne [Hw [rest ->]]].
    assert (Ep : JsString.strip_prefix "pkg:" ("pkg:" ++ eco ++ "/" ++ rest)
                 = Some (eco ++ "/" ++ rest))
      by now apply strip_prefix_spec.
    rewrite Ep.
    change ("/" ++ rest) with (String "/"%char rest).
    rewrite (span_word_segment eco rest Hw).
    destruct eco; [congruence | reflexivity].
Qed.

Lemma matchPkg_None (purl : string) :
  matchPkg purl = None <-> forall eco, ~ matchesPkg purl eco.
Proof.
  split.
  - intros Hn eco Hm. apply matchPkg_Some in Hm. congruence.
  - intros Hn. destruct (matchPkg purl) as [eco|] eqn:E; [|reflexivity].
    apply matchPkg_Some in E. now apply Hn in E.
Qed.

(** Every finding is in the group of its ecosystem. *)
Lemma grouped_under_ecosystemOf (results : list Finding.t) (r : Finding.t) :
  In r results ->
  exists g, JsObject.get (byEcosystem results) (ecosystemOf r) = Some g
            /\ In r g.
Proof.
  intros Hr. unfold byEcosystem. rewrite groupBy_get.
  assert (Hin : In r (filter (fun x => String.eqb (ecosystemOf x) (ecosystemOf r))
                        results))
    by (apply filter_In; split; [exact Hr | apply String.eqb_refl]).
  destruct (filter _ results) as [|a g] eqn:E; [contradiction|].
  exists (a :: g). now split.
Qed.

(** Counterexamples to C2 as worded.  The URL [pkg:unknown/grault] is
    of the pattern, yet its ecosystem is "unknown".  The URL
    [pkg:my-eco/garply] is of the pattern with first segment [my-eco], yet
    its ecosystem is "unknown": the hyphen is not a word character. *)
Lemma ecosystem_wording_counterexamples :
  (ecosystemOf namedUnknown = "unknown"
   /\ followsPattern "pkg:unknown/grault" "unknown"
   /\ ~ ecosystemAsWorded namedUnknown)
  /\ (ecosystemOf hyphenated = "unknown"
      /\ followsPattern "pkg:my-eco/garply" "my-eco"
      /\ ~ ecosystemAsWorded hyphenated).
Proof.
  assert (H1 : followsPattern "pkg:unknown/grault" "unknown")
    by (split; [reflexivity | now exists "grault"]).
  assert (H2 : followsPattern "pkg:my-eco/garply" "my-eco")
    by (split; [reflexivity | now exists "garply"]).
  split; (split; [reflexivity|]); (split; [assumption|]).
  - intros [_ [Hiff _]]. apply (Hiff eq_refl).
    exists "pkg:unknown/grault", "unknown". now split.
  - intros [Hseg _].
    specialize (Hseg "pkg:my-eco/garply" "my-eco" eq_refl H2).
    discriminate Hseg.
Qed.

(** C2, amended.  The ecosystem of a finding is [e] exactly when either
    its package URL is [pkg:], then [e], then a slash, then anything, with
    [e] a non-empty run of word characters (letters, digits, underscore); or
    [e] is "unknown" and the package URL is absent or not of that form. *)
Theorem ecosystemOf_is_word_segment :
  forall (r : Finding.t) (e : string),
    ecosystemOf r = e <->
    (exists purl, Finding.packageUrl r = Some purl /\ matchesPkg purl e)
    \/ (e = "unknown"
        /\ forall purl eco,
             Finding.packageUrl r = Some purl -> ~ matchesPkg purl eco).
Proof.
  intros r e. unfold ecosystemOf. split.
  - destruct (Finding.packageUrl r) as [purl|]; simpl.
    + destruct (matchPkg purl) as [eco|] eqn:E.
      * intros <-. left. exists purl. split; [reflexivity|].
        now apply matchPkg_Some.
      * intros <-. right. split; [reflexivity|].
        intros purl' eco [= <-]. now apply matchPkg_None.
    + intros <-. right. split; [reflexivity|]. intros purl eco [=].
  - intros [[purl [Hp Hm]]|[-> Hn]].
    + rewrite Hp. simpl. apply matchPkg_Some in Hm. now rewrite Hm.
    + destruct (Finding.packageUrl r) as [purl|]; simpl; [|reflexivity].
      assert (E : matchPkg purl = None)
        by (apply matchPkg_None; intros eco; now apply Hn).
      now rewrite E.
Qed.

(* ------------------------------------------------------------------ *)
(** ** Rendering *)

Lemma string_app_assoc (a b c : string) : (a ++ b) ++ c = a ++ (b ++ c).
Proof. induction a as [|x a IH]; simpl; [reflexivity | now rewrite IH]. Qed.

(** Joining an array that ends with [x]: the joined text ends with the
    separator and [x]. *)
Lemma join_snoc (sep x : string) (l : list string) :
  l <> [] ->
  JsString.join sep (l ++ [x]) = JsString.join sep l ++ sep ++ x.
Proof.
  induction l as [|a l IH]; [congruence|]. intros _.
  destruct l as [|b l].
  - reflexivity.
  - change (JsString.join sep ((a :: b :: l) ++ [x]))
      with (a ++ sep ++ JsString.join sep ((b :: l) ++ [x])).
    rewrite IH by discriminate.
    change (JsString.join sep (a :: b :: l))
      with (a ++ sep ++ JsString.join sep (b :: l)).
    now rewrite !string_app_assoc.
Qed.

Section RenderFacts.

Variable numberToString : JsNumber.t -> string.

Lemma body_nonempty (s : Summary.t) : body numberToString s <> [].
Proof. unfold body. simpl. discriminate. Qed.

(** The report is the text before the timestamp line, then that line. *)
Lemma renderMarkdown_split (s : Summary.t) :
  renderMarkdown numberToString s
  = beforeTimestamp numberToString s ++ generatedLine (Summary.generatedAt s).
Proof.
  unfold renderMarkdown, lines, beforeTimestamp. fold newline.
  rewrite join_snoc by apply body_nonempty.
  now rewrite string_app_assoc.
Qed.

(** The lines before the timestamp line do not read the timestamp. *)
Lemma body_ignores_timestamp (s1 s2 : Summary.t) :
  sameButTimestamp s1 s2 -> body numberToString s1 = body numberToString s2.
Proof.
  intros [Ho [He [Ha Hc]]]. unfold body. now rewrite Ho, He, Ha, Hc.
Qed.

End RenderFacts.

(** C9.  [renderMarkdown] is a function of its summary: on equal
    summaries the two reports are the same text.  On two summaries that
    differ at most in [generatedAt], the lines before the last one are the
    same, and each report is that common text followed by its own
    timestamp line [_Generated: <generatedAt>_]. *)
Theorem renderMarkdown_deterministic :
  forall (numberToString : JsNumber.t -> string) (s1 s2 : Summary.t),
    sameButTimestamp s1 s2 ->
    (Summary.generatedAt s1 = Summary.generatedAt s2 ->
     renderMarkdown numberToString s1 = renderMarkdown numberToString s2)
    /\ body numberToString s1 = body numberToString s2
    /\ renderMarkdown numberToString s1
       = beforeTimestamp numberToString s1
         ++ generatedLine (Summary.generatedAt s1)
    /\ renderMarkdown numberToString s2
       = beforeTimestamp numberToString s1
         ++ generatedLine (Summary.generatedAt s2).
Proof.
  intros numberToString s1 s2 Hsame.
  pose proof (body_ignores_timestamp numberToString s1 s2 Hsame) as Hbody.
  assert (Hbefore : beforeTimestamp numberToString s2
                    = beforeTimestamp numberToString s1)
    by (unfold beforeTimestamp; now rewrite Hbody).
  repeat split.
  - intros Ht. rewrite !renderMarkdown_split. now rewrite Hbefore, Ht.
  - exact Hbody.
  - apply renderMarkdown_split.
  - rewrite renderMarkdown_split. now rewrite Hbefore.
Qed.

(** The report of the example scenario. *)
Example renderMarkdown_scenario :
  renderMarkdown numberText (buildSummary unchanged "2024-01-01T00:00:00.000Z" scenario)
  = JsString.join newline
      [ "# Vulnerability Scan Summary";
        EmptyString;
        "**3** vulnerabilities found | **1** critical | **1** high";
        EmptyString;
        "## By Classification";
        "- **SAFE_PATCH**: 1";
        "- **MAJOR_BUMP_SAFE**: 1";
        "- **NO_FIX**: 1";
        EmptyString;
        "## Ecosystems";
        "- **npm**: 2 vulns (2 fixable)";
        "- **pypi**: 1 vulns (0 fixable)";
        EmptyString;
        "## Action Required (1)";
        "- `CVE-1` in `pkg:npm/foo` — CRITICAL / SAFE_PATCH → fix: 1.2.3";
        EmptyString;
        "---";
        "_Confidence: avg 0.6 | min 0.3_";
        "_Generated: 2024-01-01T00:00:00.000Z_" ].
Proof. vm_compute. reflexivity. Qed.

(* ------------------------------------------------------------------ *)
(** ** Further properties of the summary *)

Lemma insert_by_index_Permutation {V : Type} (x : N * (string * V)) l :
  Permutation (JsObject.insert_by_index x l) (x :: l).
Proof.
  induction l as [|y l IH]; simpl; [reflexivity|].
  destruct (fst x <=? fst y)%N; [reflexivity|].
  rewrite IH. apply perm_swap.
Qed.

Lemma ascending_Permutation {V : Type} (l : list (N * (string * V))) :
  Permutation (JsObject.ascending l) l.
Proof.
  unfold JsObject.ascending. induction l as [|x l IH]; simpl; [reflexivity|].
  rewrite insert_by_index_Permutation. now constructor.
Qed.

Lemma indexed_named_Permutation {V : Type} (o : JsObject.t V) :
  Permutation (map snd (JsObject.indexed o) ++ JsObject.named o) o.
Proof.
  induction o as [|[k v] o IH]; simpl; [reflexivity|].
  destruct (JsString.array_index k); simpl.
  - now constructor.
  - rewrite <- Permutation_middle. now constructor.
Qed.

(** Enumerating an object reorders its properties, without loss or
    repetition. *)
Lemma entries_Permutation {V : Type} (o : JsObject.t V) :
  Permutation (JsObject.entries o) o.
Proof.
  unfold JsObject.entries.
  rewrite (Permutation_map snd (ascending_Permutation (JsObject.indexed o))).
  apply indexed_named_Permutation.
Qed.

Lemma list_sum_Permutation (l l' : list nat) :
  Permutation l l' -> list_sum l = list_sum l'.
Proof. induction 1; simpl; lia. Qed.

Lemma sumOver_mapValues {V W : Type} (g : V -> string -> W) (f : W -> nat)
  (h : V -> nat) (o : JsObject.t V) :
  (forall v k, f (g v k) = h v) ->
  sumOver f (Lodash.mapValues g o) = sumOver h o.
Proof.
  intros Hfg. unfold sumOver, Lodash.mapValues. rewrite map_map. simpl.
  rewrite (map_ext _ (fun kv => h (snd kv))) by (intros kv; apply Hfg).
  apply list_sum_Permutation, Permutation_map, entries_Permutation.
Qed.

Section GroupTotals.

Context {A : Type}.
Variable key : A -> string.
Variable w : A -> nat.

Lemma sumOver_set_known (o : JsObject.t (list A)) k g x :
  JsObject.get o k = Some g ->
  sumOver (weighted w) (JsObject.set o k (g ++ [x])%list) = sumOver (weighted w) o + w x.
Proof.
  unfold sumOver.
  induction o as [|[k' v'] o IH]; simpl; [discriminate|].
  destruct (String.eqb k k') eqn:E; simpl.
  - intros [= ->]. unfold weighted. rewrite map_app, list_sum_app. simpl. lia.
  - intros H. rewrite (IH H). lia.
Qed.

Lemma sumOver_set_new (o : JsObject.t (list A)) k x :
  JsObject.get o k = None ->
  sumOver (weighted w) (JsObject.set o k [x]) = sumOver (weighted w) o + w x.
Proof.
  unfold sumOver.
  induction o as [|[k' v'] o IH]; simpl.
  - intros _. unfold weighted. simpl. lia.
  - destruct (String.eqb k k') eqn:E; simpl; [discriminate|].
    intros H. rewrite (IH H). lia.
Qed.

Lemma sumOver_fold_push xs o :
  sumOver (weighted w) (fold_left (Lodash.push key) xs o)
  = sumOver (weighted w) o + (weighted w) xs.
Proof.
  revert o. induction xs as [|x xs IH]; intros o; simpl.
  - unfold weighted. simpl. lia.
  - rewrite IH. unfold Lodash.push.
    destruct (JsObject.get o (key x)) eqn:E.
    + rewrite (sumOver_set_known _ _ _ _ E). unfold weighted. simpl. lia.
    + rewrite (sumOver_set_new _ _ _ E). unfold weighted. simpl. lia.
Qed.

(** The groups of [_.groupBy] split the input: a (weighted w) summed group by
    group is the (weighted w) of the input. *)
Lemma groupBy_weight xs :
  sumOver (weighted w) (Lodash.groupBy key xs) = (weighted w) xs.
Proof. exact (sumOver_fold_push xs JsObject.empty). Qed.

End GroupTotals.

Lemma weighted_filter {A : Type} (p : A -> bool) (g : list A) :
  weighted (fun x => Nat.b2n (p x)) g = length (filter p g).
Proof.
  unfold weighted. induction g as [|x g IH]; simpl; [reflexivity|].
  rewrite IH. now destruct (p x).
Qed.

(** A counter of the ecosystem summaries, summed over the ecosystems, is
    the same counter over the whole array. *)
Lemma ecosystems_filter_total (p : Finding.t -> bool)
  (f : EcosystemSummary.t -> nat) (results : list Finding.t) :
  (forall items e, f (summarize items e) = length (filter p items)) ->
  sumOver f (ecosystemSummaries results) = countIf p results.
Proof.
  intros Hf. unfold ecosystemSummaries, byEcosystem, countIf.
  rewrite (sumOver_mapValues summarize f (fun g => length (filter p g))) by exact Hf.
  rewrite <- weighted_filter, <- (groupBy_weight ecosystemOf).
  unfold sumOver. f_equal. apply map_ext. intros kv.
  now rewrite weighted_filter.
Qed.

Lemma filter_true_length {A : Type} (l : list A) :
  length (filter (fun _ => true) l) = length l.
Proof. induction l; simpl; congruence. Qed.

(** Every finding is counted in exactly one ecosystem summary: summed
    over the ecosystems, [count] is the number of findings, [critical] and
    [high] are the numbers of findings whose severity is exactly CRITICAL,
    resp. HIGH, and [fixable] is the number of findings whose
    classification is SAFE_PATCH, MINOR_BUMP or MAJOR_BUMP_SAFE. *)
Theorem ecosystem_counters_add_up :
  forall (unicodeUpper : string -> string)
         (now : string) (results : list Finding.t),
    let ecosystems :=
      Summary.ecosystems (buildSummary unicodeUpper now results) in
    sumOver EcosystemSummary.count ecosystems = length results
    /\ sumOver EcosystemSummary.critical ecosystems
       = countIf (severityIs "CRITICAL") results
    /\ sumOver EcosystemSummary.high ecosystems
       = countIf (severityIs "HIGH") results
    /\ sumOver EcosystemSummary.fixable ecosystems = countIf isFixable results.
Proof.
  intros unicodeUpper now results ecosystems. subst ecosystems.
  unfold buildSummary. cbn [Summary.ecosystems].
  repeat split.
  - rewrite (ecosystems_filter_total (fun _ => true)).
    + apply filter_true_length.
    + intros items e. simpl. unfold Lodash.size.
      now rewrite filter_true_length.
  - now apply ecosystems_filter_total.
  - now apply ecosystems_filter_total.
  - now apply ecosystems_filter_total.
Qed.

Lemma filter_implies_length {A : Type} (p q : A -> bool) (l : list A) :
  (forall x, p x = true -> q x = true) ->
  length (filter p l) <= length (filter q l).
Proof.
  intros Hpq. induction l as [|x l IH]; simpl; [lia|].
  destruct (p x) eqn:Ep.
  - rewrite (Hpq x Ep). simpl. lia.
  - destruct (q x); simpl; lia.
Qed.

Lemma severityIs_severityKey (unicodeUpper : string -> string)
  (lit : string) (r : Finding.t) :
  severityIs lit r = true ->
  String.eqb (severityKey unicodeUpper r) (JsString.toUpperCase unicodeUpper lit) = true.
Proof.
  unfold severityIs, severityKey.
  destruct (Finding.severity r) as [s|]; [|discriminate].
  intros H. apply String.eqb_eq in H. subst s. apply String.eqb_refl.
Qed.

(** The ecosystem summaries compare the severity exactly, the severity
    counts compare it in upper case: summed over the ecosystems, the
    [critical] counters are at most the count of the key CRITICAL, and the
    [high] counters at most the count of the key HIGH. *)
Theorem ecosystem_severity_counters_below_severity_counts :
  forall (unicodeUpper : string -> string)
         (now : string) (results : list Finding.t),
    let s := buildSummary unicodeUpper now results in
    sumOver EcosystemSummary.critical (Summary.ecosystems s)
    <= Lodash.get
         (JsObject.get (Overview.bySeverity (Summary.overview s)) "CRITICAL") 0
    /\ sumOver EcosystemSummary.high (Summary.ecosystems s)
       <= Lodash.get
            (JsObject.get (Overview.bySeverity (Summary.overview s)) "HIGH") 0.
Proof.
  intros unicodeUpper now results s. subst s. rewrite !bySeverity_get.
  unfold buildSummary. cbn [Summary.ecosystems].
  rewrite (ecosystems_filter_total (severityIs "CRITICAL")) by reflexivity.
  rewrite (ecosystems_filter_total (severityIs "HIGH")) by reflexivity.
  assert (Hle : forall lit,
             JsString.toUpperCase unicodeUpper lit = lit ->
             countIf (severityIs lit) results
             <= occurrences (severityKey unicodeUpper) lit results).
  { intros lit Hup. unfold countIf, occurrences.
    apply filter_implies_length. intros r Hr.
    apply (severityIs_severityKey unicodeUpper) in Hr.
    now rewrite Hup in Hr. }
  split.
  - pose proof (Hle "CRITICAL" eq_refl) as H.
    destruct (occurrences (severityKey unicodeUpper) "CRITICAL" results); simpl in *; lia.
  - pose proof (Hle "HIGH" eq_refl) as H.
    destruct (occurrences (severityKey unicodeUpper) "HIGH" results); simpl in *; lia.
Qed.

(** The classification key of the code is the classification as it is
    observed. *)
Lemma classificationKey_observed (r : Finding.t) :
  classificationKey r = observedClassification r.
Proof.
  unfold classificationKey, observedClassification.
  destruct (Finding.classification r); reflexivity.
Qed.

(** No classification count is pre-seeded: the classification counts hold
    exactly the classifications observed (UNCLASSIFIED standing for an
    absent one), each with the number of findings that have it, and the
    counts add up to the number of findings. *)
Theorem byClassification_counts_observed :
  forall (unicodeUpper : string -> string) (now : string)
         (results : list Finding.t),
    let counts :=
      Overview.byClassification
        (Summary.overview (buildSummary unicodeUpper now results)) in
    totalCount counts = length results
    /\ (forall r, In r results ->
          exists n, JsObject.get counts (observedClassification r) = Some n
                    /\ 1 <= n
                    /\ n = occurrences observedClassification
                             (observedClassification r) results)
    /\ (forall k n, JsObject.get counts k = Some n ->
          exists r, In r results /\ observedClassification r = k)
    /\ NoDup (map fst counts).
Proof.
  intros unicodeUpper now results counts. subst counts. unfold buildSummary.
  cbn [Summary.overview Overview.byClassification]. unfold byClassification.
  assert (Hget : forall k,
             JsObject.get (Lodash.countBy classificationKey results) k
             = match occurrences observedClassification k results with
               | 0 => None
               | S n => Some (S n)
               end).
  { intros k. rewrite countBy_get.
    now rewrite (occurrences_ext _ _ k results classificationKey_observed). }
  repeat split.
  - apply countBy_total.
  - intros r Hr. rewrite Hget.
    pose proof (occurrences_pos observedClassification results r Hr) as Hpos.
    destruct (occurrences observedClassification (observedClassification r)
                results) as [|n]; [lia|].
    exists (S n). repeat split; lia.
  - intros k n. rewrite Hget.
    destruct (occurrences observedClassification k results) as [|m] eqn:E;
      [discriminate|].
    intros _. apply occurrences_witness. lia.
  - apply countBy_NoDup.
Qed.

Lemma filter_either_length {A : Type} (p q : A -> bool) (l : list A) :
  length (filter (fun x => p x || q x) l)
  <= length (filter p l) + length (filter q l).
Proof.
  induction l as [|x l IH]; simpl; [lia|].
  destruct (p x), (q x); simpl; lia.
Qed.

Lemma hasSeverity_severityKey (unicodeUpper : string -> string)
  (lit : string) (r : Finding.t) :
  lit <> EmptyString ->
  hasSeverity unicodeUpper lit r = true ->
  String.eqb (severityKey unicodeUpper r) lit = true.
Proof.
  unfold hasSeverity, severityUpper, severityKey. intros Hne.
  destruct (Finding.severity r) as [s|]; simpl; [tauto|].
  destruct lit; [congruence | discriminate].
Qed.

Lemma safelyActionable_isFixable (r : Finding.t) :
  safelyActionable r = true -> isFixable r = true.
Proof.
  unfold safelyActionable, isFixable, JsString.includes.
  destruct (Finding.classification r) as [c|]; [|discriminate].
  simpl. intros H. apply orb_true_iff in H.
  destruct H as [-> | ->]; [reflexivity | apply orb_true_r].
Qed.

Lemma criticalFirst_length (unicodeUpper : string -> string)
  (results : list Finding.t) :
  length (criticalFirst unicodeUpper (selected unicodeUpper results))
  = length (selected unicodeUpper results).
Proof.
  unfold criticalFirst. rewrite length_app.
  assert (H : forall r, In r (selected unicodeUpper results) ->
                xorb (hasSeverity unicodeUpper "CRITICAL" r) (hasSeverity unicodeUpper "HIGH" r) = true).
  { intros r Hr. unfold selected in Hr. apply filter_In in Hr.
    destruct Hr as [_ Hr]. apply andb_true_iff in Hr. destruct Hr as [Hr _].
    destruct (hasSeverity unicodeUpper "CRITICAL" r) eqn:Ec.
    - now rewrite (hasSeverity_exclusive unicodeUpper r Ec).
    - simpl in Hr. now rewrite Hr. }
  induction (selected unicodeUpper results) as [|r l IH]; [reflexivity|].
  simpl. pose proof (H r (or_introl eq_refl)) as Hx.
  assert (IH' := IH (fun x Hxl => H x (or_intror Hxl))).
  destruct (hasSeverity unicodeUpper "CRITICAL" r), (hasSeverity unicodeUpper "HIGH" r);
    simpl in *; try discriminate; lia.
Qed.

(** The action count is the number of findings whose severity, in upper
    case, is CRITICAL or HIGH and whose classification is SAFE_PATCH or
    MINOR_BUMP, capped at 10.
    Every such finding is also counted as fixable in its ecosystem and
    under the key CRITICAL or HIGH of the severity counts: the action count
    is at most the sum of the [fixable] counters and at most the sum of the
    two severity counts. *)
Theorem actionRequired_count_bounds :
  forall (unicodeUpper : string -> string)
         (now : string) (results : list Finding.t),
    let s := buildSummary unicodeUpper now results in
    ActionRequired.count (Summary.actionRequired s)
    = Nat.min 10 (length (selected unicodeUpper results))
    /\ ActionRequired.count (Summary.actionRequired s)
       <= sumOver EcosystemSummary.fixable (Summary.ecosystems s)
    /\ ActionRequired.count (Summary.actionRequired s)
       <= Lodash.get
            (JsObject.get (Overview.bySeverity (Summary.overview s)) "CRITICAL") 0
          + Lodash.get
              (JsObject.get (Overview.bySeverity (Summary.overview s)) "HIGH") 0.
Proof.
  intros unicodeUpper now results s. subst s. rewrite !bySeverity_get.
  unfold buildSummary.
  cbn [Summary.actionRequired ActionRequired.count Summary.ecosystems].
  rewrite actionRequired_spec, length_firstn, criticalFirst_length.
  rewrite (ecosystems_filter_total isFixable) by reflexivity.
  assert (Hfix : length (selected unicodeUpper results) <= countIf isFixable results).
  { unfold selected, countIf. apply filter_implies_length. intros r Hr.
    apply andb_true_iff in Hr. now apply safelyActionable_isFixable. }
  assert (Hsev : length (selected unicodeUpper results)
                 <= occurrences (severityKey unicodeUpper) "CRITICAL" results
                    + occurrences (severityKey unicodeUpper) "HIGH" results).
  { unfold selected, occurrences.
    etransitivity; [|apply filter_either_length].
    apply filter_implies_length. intros r Hr.
    apply andb_true_iff in Hr. destruct Hr as [Hr _].
    apply orb_true_iff in Hr. apply orb_true_iff.
    destruct Hr as [Hr|Hr]; [left|right];
      apply hasSeverity_severityKey; auto; discriminate. }
  split; [reflexivity|]. split; [lia|].
  destruct (occurrences (severityKey unicodeUpper) "CRITICAL" results),
    (occurrences (severityKey unicodeUpper) "HIGH" results); cbn [Lodash.get existsb];
    simpl Lodash.get; lia.
Qed.

Lemma existsb_eqb_In (k : string) (l : list string) :
  existsb (String.eqb k) l = true <-> In k l.
Proof.
  rewrite existsb_exists. split.
  - intros [x [Hx He]]. apply String.eqb_eq in He. now subst.
  - intros H. exists k. split; [exact H | apply String.eqb_refl].
Qed.

Lemma push_keys {A : Type} (key : A -> string) (o : JsObject.t (list A)) (x : A) :
  map fst (Lodash.push key o x)
  = if existsb (String.eqb (key x)) (map fst o) then map fst o
    else (map fst o ++ [key x])%list.
Proof.
  unfold Lodash.push. destruct (JsObject.get o (key x)) eqn:E.
  - rewrite (set_keys_known _ _ _ _ E).
    assert (H : existsb (String.eqb (key x)) (map fst o) = true).
    { apply existsb_eqb_In. apply get_In in E.
      apply in_map_iff. now exists (key x, l). }
    now rewrite H.
  - rewrite (set_keys_new _ _ _ E).
    destruct (existsb (String.eqb (key x)) (map fst o)) eqn:H; [|reflexivity].
    apply existsb_eqb_In in H. now apply get_None_notin in E.
Qed.

Lemma bump_keys {A : Type} (key : A -> string) (o : JsObject.t nat) (x : A) :
  map fst (Lodash.bump key o x)
  = if existsb (String.eqb (key x)) (map fst o) then map fst o
    else (map fst o ++ [key x])%list.
Proof.
  unfold Lodash.bump. destruct (JsObject.get o (key x)) eqn:E.
  - rewrite (set_keys_known _ _ _ _ E).
    assert (H : existsb (String.eqb (key x)) (map fst o) = true).
    { apply existsb_eqb_In. apply get_In in E.
      apply in_map_iff. now exists (key x, n). }
    now rewrite H.
  - rewrite (set_keys_new _ _ _ E).
    destruct (existsb (String.eqb (key x)) (map fst o)) eqn:H; [|reflexivity].
    apply existsb_eqb_In in H. now apply get_None_notin in E.
Qed.

(** The keys of [_.groupBy] and of [_.countBy] are created in the order in
    which they are first seen. *)
Lemma groupBy_keys {A : Type} (key : A -> string) (xs : list A) :
  map fst (Lodash.groupBy key xs) = firstSeen (map key xs).
Proof.
  unfold Lodash.groupBy, firstSeen.
  assert (H : forall o : JsObject.t (list A),
             map fst (fold_left (Lodash.push key) xs o)
             = fold_left
                 (fun seen k => if existsb (String.eqb k) seen then seen
                                else (seen ++ [k])%list)
                 (map key xs) (map fst o)).
  { induction xs as [|x xs IH]; intros o; simpl; [reflexivity|].
    now rewrite IH, push_keys. }
  apply (H JsObject.empty).
Qed.

Lemma countBy_keys {A : Type} (key : A -> string) (xs : list A) :
  map fst (Lodash.countBy key xs) = firstSeen (map key xs).
Proof.
  unfold Lodash.countBy, firstSeen.
  assert (H : forall o : JsObject.t nat,
             map fst (fold_left (Lodash.bump key) xs o)
             = fold_left
                 (fun seen k => if existsb (String.eqb k) seen then seen
                                else (seen ++ [k])%list)
                 (map key xs) (map fst o)).
  { induction xs as [|x xs IH]; intros o; simpl; [reflexivity|].
    now rewrite IH, bump_keys. }
  apply (H JsObject.empty).
Qed.

(** An object none of whose keys is an array index is enumerated in
    creation order. *)
Lemma entries_creation_order {V : Type} (o : JsObject.t V) :
  (forall k, In k (map fst o) -> JsString.array_index k = None) ->
  JsObject.entries o = o.
Proof.
  intros H. unfold JsObject.entries.
  assert (Hi : JsObject.indexed o = [] /\ JsObject.named o = o).
  { induction o as [|[k v] o IH]; simpl; [auto|].
    rewrite (H k (or_introl eq_refl)).
    destruct IH as [-> ->]; [|auto].
    intros k' Hk'. apply H. now right. }
  destruct Hi as [-> ->]. reflexivity.
Qed.

Lemma firstSeen_In (names : list string) (k : string) :
  In k (firstSeen names) -> In k names.
Proof.
  unfold firstSeen.
  assert (H : forall seen, In k (fold_left
             (fun seen k => if existsb (String.eqb k) seen then seen
                            else (seen ++ [k])%list) names seen) ->
             In k seen \/ In k names).
  { induction names as [|n names IH]; intros seen; simpl; [tauto|].
    intros Hin. apply IH in Hin. destruct Hin as [Hin|Hin]; [|tauto].
    destruct (existsb (String.eqb n) seen); [tauto|].
    apply in_app_iff in Hin. simpl in Hin. tauto. }
  intros Hin. apply H in Hin. simpl in Hin. tauto.
Qed.

(** Discovery order.  When no ecosystem name is an array index (the
    decimal text of an integer), the ecosystem summaries are created and
    enumerated in the order in which the ecosystems are first seen in the
    findings array.  When no classification is an array index, the
    classification counts are enumerated in the order in which the
    classifications are first seen. *)
Theorem ecosystems_in_first_seen_order :
  forall (unicodeUpper : string -> string) (now : string)
         (results : list Finding.t),
    let s := buildSummary unicodeUpper now results in
    ((forall r, In r results -> JsString.array_index (ecosystemOf r) = None) ->
     JsObject.keys (Summary.ecosystems s) = firstSeen (map ecosystemOf results)
     /\ map fst (Summary.ecosystems s) = firstSeen (map ecosystemOf results))
    /\ ((forall r, In r results ->
           JsString.array_index (observedClassification r) = None) ->
        JsObject.keys (Overview.byClassification (Summary.overview s))
        = firstSeen (map observedClassification results)).
Proof.
  intros unicodeUpper now results s. subst s. unfold buildSummary.
  cbn [Summary.ecosystems Summary.overview Overview.byClassification].
  assert (Hnames : forall (key : Finding.t -> string) k,
             (forall r, In r results -> JsString.array_index (key r) = None) ->
             In k (firstSeen (map key results)) ->
             JsString.array_index k = None).
  { intros key k Hk Hin. apply firstSeen_In in Hin.
    apply in_map_iff in Hin. destruct Hin as [r [<- Hr]]. now apply Hk. }
  split.
  - intros He.
    assert (Hg : JsObject.entries (byEcosystem results) = byEcosystem results).
    { apply entries_creation_order. unfold byEcosystem.
      rewrite groupBy_keys. intros k. now apply Hnames. }
    assert (Hkeys : map fst (ecosystemSummaries results)
                    = firstSeen (map ecosystemOf results)).
    { unfold ecosystemSummaries, Lodash.mapValues. rewrite Hg, map_map. simpl.
      apply groupBy_keys. }
    split; [|exact Hkeys].
    unfold JsObject.keys. rewrite entries_creation_order; [exact Hkeys|].
    rewrite Hkeys. intros k. now apply Hnames.
  - intros Hc.
    assert (Hmap : map classificationKey results
                   = map observedClassification results)
      by (apply map_ext; exact classificationKey_observed).
    unfold JsObject.keys, byClassification.
    rewrite entries_creation_order; rewrite countBy_keys, Hmap;
      [reflexivity|].
    intros k. now apply Hnames.
Qed.

Lemma min_fold_attained (l : list Q) (a : Q) :
  In (fold_left (fun m x => if Lodash.ltb x m then x else m) l a) (a :: l).
Proof.
  revert a. induction l as [|x l IH]; intros a; simpl; [now left|].
  destruct (IH (if Lodash.ltb x a then x else a)) as [H|H].
  - destruct (Lodash.ltb x a); [right; left | left]; exact H.
  - right. right. exact H.
Qed.

(** The minimum of the summary is one of the collected confidence values,
    hence the confidence of a finding, and no collected value is below
    it. *)
Theorem minimum_is_smallest_collected :
  forall (unicodeUpper : string -> string)
         (now : string) (results : list Finding.t),
    confidences results <> [] ->
    let m :=
      ConfidenceStats.minimum
        (Summary.confidence (buildSummary unicodeUpper now results)) in
    In m (confidences results)
    /\ (exists r, In r results /\ Finding.confidence r = Some m)
    /\ (forall c, In c (confidences results) -> (m <= c)%Q).
Proof.
  intros unicodeUpper now results Hne m. subst m. unfold buildSummary.
  cbn [Summary.confidence ConfidenceStats.minimum]. unfold minConfidence.
  destruct (confidences results) as [|c0 cs] eqn:E; [congruence|].
  cbn [Lodash.isEmpty].
  assert (Hin : In (Lodash.min (c0 :: cs)) (c0 :: cs))
    by apply min_fold_attained.
  split; [exact Hin|]. split.
  - remember (Lodash.min (c0 :: cs)) as m eqn:Em. clear Em.
    rewrite <- E, confidences_defined_nonzero in Hin.
    apply filter_In in Hin. destruct Hin as [Hin _].
    unfold definedConfidences in Hin. apply in_flat_map in Hin.
    destruct Hin as [r [Hr Hc]]. exists r. split; [exact Hr|].
    destruct (Finding.confidence r) as [c|]; [|contradiction].
    destruct Hc as [->|[]]. reflexivity.
  - intros c Hc. now apply min_lower.
Qed.

(** Without confidence data the statistics are the defaults: when every
    finding has no confidence, or the confidence 0, the average and the
    minimum are 0 and the three buckets are empty. *)
Theorem confidence_defaults_without_data :
  forall (unicodeUpper : string -> string)
         (now : string) (results : list Finding.t),
    (forall r c, In r results -> Finding.confidence r = Some c -> (c == 0)%Q) ->
    Summary.confidence (buildSummary unicodeUpper now results)
    = {| ConfidenceStats.average := JsNumber.Finite 0;
         ConfidenceStats.minimum := 0%Q;
         ConfidenceStats.distribution :=
           {| Distribution.high := 0;
              Distribution.medium := 0;
              Distribution.low := 0 |} |}.
Proof.
  intros unicodeUpper now results Hz.
  assert (E : confidences results = []).
  { unfold confidences. induction results as [|r results IH]; [reflexivity|].
    simpl. destruct (Finding.confidence r) as [c|] eqn:Ec.
    - assert (Hc : (c == 0)%Q) by (apply (Hz r c); [now left | exact Ec]).
      unfold Lodash.truthy. apply Qeq_bool_iff in Hc. rewrite Hc. simpl.
      apply IH. intros r' c' Hr'. apply Hz. now right.
    - apply IH. intros r' c' Hr'. apply Hz. now right. }
  unfold buildSummary. cbn [Summary.confidence].
  unfold avgConfidence, minConfidence. now rewrite E.
Qed.

(* ------------------------------------------------------------------ *)
(** ** The summary of the examples *)

(** Counterexample to C3 as worded: one finding of confidence 0.8125.  The
    average is 0.81 after rounding, the minimum is 0.8125: the average is
    below the minimum. *)
Lemma average_below_minimum_example :
  Finding.confidence sixteenths = Some (13 # 16)%Q
  /\ (exists a,
        ConfidenceStats.average
          (Summary.confidence
             (buildSummary unchanged "2024-01-01T00:00:00.000Z" [sixteenths]))
        = JsNumber.Finite a
        /\ (a == JsNumber.literal (81 # 100))%Q)
  /\ (ConfidenceStats.minimum
        (Summary.confidence
           (buildSummary unchanged "2024-01-01T00:00:00.000Z" [sixteenths]))
      == 13 # 16)%Q
  /\ ~ averageWithinObserved unchanged "2024-01-01T00:00:00.000Z"
         [sixteenths].
Proof.
  split; [reflexivity|]. split; [|split; [reflexivity|]].
  - eexists. split; [vm_compute; reflexivity|]. vm_compute. reflexivity.
  - unfold averageWithinObserved. vm_compute. intros [H _]. now apply H.
Qed.

(** Witness of C3 (amended): the example scenario. *)
Lemma average_within_rounding_of_observed_witness :
  (exists r c, In r scenario /\ Finding.confidence r = Some c)
  /\ within
       (ConfidenceStats.minimum
          (Summary.confidence
             (buildSummary unchanged "2024-01-01T00:00:00.000Z" scenario))
        - (5 # 1000) - (1 # 1000000))
       (maxObserved scenario + (5 # 1000) + (1 # 1000000))
       (ConfidenceStats.average
          (Summary.confidence
             (buildSummary unchanged "2024-01-01T00:00:00.000Z" scenario))).
Proof.
  assert (H : exists r c, In r scenario /\ Finding.confidence r = Some c).
  { exists cve1, double09. split; [now left | reflexivity]. }
  split; [exact H|].
  apply (average_within_rounding_of_observed unchanged
           "2024-01-01T00:00:00.000Z" scenario H).
  - vm_compute. reflexivity.
  - intros r c [<-|[<-|[<-|[]]]] [= <-]; split; vm_compute; discriminate.
Defined.

(** Witness of C7: the npm group of the example scenario. *)
Lemma ecosystem_counters_within_count_witness :
  In ("npm", summarize [cve1; cve2] "npm")
     (Summary.ecosystems (buildSummary unchanged "2024-01-01T00:00:00.000Z" scenario))
  /\ EcosystemSummary.critical (summarize [cve1; cve2] "npm")
     + EcosystemSummary.high (summarize [cve1; cve2] "npm")
     <= EcosystemSummary.count (summarize [cve1; cve2] "npm")
  /\ EcosystemSummary.fixable (summarize [cve1; cve2] "npm")
     <= EcosystemSummary.count (summarize [cve1; cve2] "npm").
Proof.
  assert (Hin : In ("npm", summarize [cve1; cve2] "npm")
                  (Summary.ecosystems
                     (buildSummary unchanged "2024-01-01T00:00:00.000Z" scenario)))
    by (left; reflexivity).
  split; [exact Hin|].
  pose proof (ecosystem_counters_within_count unchanged _ _ _ _ Hin) as H.
  cbv zeta in H. tauto.
Defined.

(** Witness of C9: the summaries of the example scenario built at two
    different times. *)
Lemma renderMarkdown_deterministic_witness :
  sameButTimestamp (buildSummary unchanged "2024-01-01T00:00:00.000Z" scenario)
                   (buildSummary unchanged "2024-06-30T12:00:00.000Z" scenario)
  /\ renderMarkdown numberText (buildSummary unchanged "2024-01-01T00:00:00.000Z" scenario)
     = beforeTimestamp numberText
         (buildSummary unchanged "2024-01-01T00:00:00.000Z" scenario)
       ++ generatedLine "2024-01-01T00:00:00.000Z"
  /\ renderMarkdown numberText (buildSummary unchanged "2024-06-30T12:00:00.000Z" scenario)
     = beforeTimestamp numberText
         (buildSummary unchanged "2024-01-01T00:00:00.000Z" scenario)
       ++ generatedLine "2024-06-30T12:00:00.000Z".
Proof.
  assert (H : sameButTimestamp
                (buildSummary unchanged "2024-01-01T00:00:00.000Z" scenario)
                (buildSummary unchanged "2024-06-30T12:00:00.000Z" scenario))
    by (repeat split).
  split; [exact H|].
  pose proof (renderMarkdown_deterministic numberText _ _ H) as [_ [_ H']].
  exact H'.
Defined.

(** Witness: the example scenario, whose ecosystems are npm and pypi. *)
Lemma ecosystems_in_first_seen_order_witness :
  JsObject.keys
    (Summary.ecosystems (buildSummary unchanged "2024-01-01T00:00:00.000Z" scenario))
  = ["npm"; "pypi"].
Proof.
  assert (He : forall r, In r scenario ->
                 JsString.array_index (ecosystemOf r) = None).
  { intros r [<-|[<-|[<-|[]]]]; reflexivity. }
  pose proof (ecosystems_in_first_seen_order unchanged
                "2024-01-01T00:00:00.000Z" scenario) as [H _].
  exact (proj1 (H He)).
Defined.

(** Witness: the example scenario, whose minimum is 0.3. *)
Lemma minimum_is_smallest_collected_witness :
  In double03 (confidences scenario)
  /\ (exists r, In r scenario /\ Finding.confidence r = Some double03)
  /\ (forall c, In c (confidences scenario) -> (double03 <= c)%Q).
Proof.
  exact (minimum_is_smallest_collected unchanged
           "2024-01-01T00:00:00.000Z" scenario ltac:(discriminate)).
Defined.

(** Witness: two findings, one without confidence and one of confidence
    0. *)
Lemma confidence_defaults_without_data_witness :
  Summary.confidence
    (buildSummary unchanged "2024-01-01T00:00:00.000Z" [namedUnknown; zeroConfidence])
  = {| ConfidenceStats.average := JsNumber.Finite 0;
       ConfidenceStats.minimum := 0%Q;
       ConfidenceStats.distribution :=
         {| Distribution.high := 0;
            Distribution.medium := 0;
            Distribution.low := 0 |} |}.
Proof.
  apply (confidence_defaults_without_data unchanged
           "2024-01-01T00:00:00.000Z" [namedUnknown; zeroConfidence]).
  intros r c [<-|[<-|[]]]; simpl; [discriminate|].
  intros [= <-]. reflexivity.
Defined.


(* ------------------------------------------------------------------ *)
(** ** The retry loop of the multipart client *)

Section Retry.

Variable c : MultipartClient.t.
Variable post : PostRequest.t -> PostResult.
Variable form : list FormPart.t.

(** The loop when the attempt [k] is the first to succeed. *)
Lemma attempts_first_success (todo a k : nat) (last : option string)
  (data : string) :
  a + todo = MultipartClient.retries c + 1 ->
  a <= k <= MultipartClient.retries c ->
  (forall j, a <= j < k ->
     exists m, post (MultipartClient.request c form j) = Rejected m) ->
  post (MultipartClient.request c form k) = Resolved data ->
  MultipartClient.attempts c post form todo a last
  = ((failedRounds c form a (k - a)
      ++ [Posted (MultipartClient.request c form k)])%list,
     Returned data).
Proof.
  revert a last. induction todo as [|todo IH]; intros a last Hinv Hk Hrej Hok.
  - lia.
  - cbn [MultipartClient.attempts].
    destruct (Nat.eq_dec a k) as [->|Hne].
    + rewrite Hok, Nat.sub_diag. reflexivity.
    + assert (Ha : a <= a < k) by lia.
      destruct (Hrej a Ha) as [m Hm]. rewrite Hm.
      assert (Hlt : (a <? MultipartClient.retries c) = true)
        by (apply Nat.ltb_lt; lia).
      rewrite Hlt.
      rewrite (IH (S a) (Some m)); try lia; try assumption.
      * cbn [fst snd]. f_equal.
        replace (k - a) with (S (k - S a)) by lia.
        unfold failedRounds. cbn [seq flat_map]. unfold failedRound at 2.
        now rewrite <- !app_comm_cons, app_assoc.
      * intros j Hj. apply Hrej. lia.
Qed.

(** The loop when every remaining attempt fails. *)
Lemma attempts_all_fail (todo a : nat) (last : option string) (m : string) :
  a + todo = MultipartClient.retries c + 1 ->
  1 <= todo ->
  (forall j, a <= j < MultipartClient.retries c ->
     exists m', post (MultipartClient.request c form j) = Rejected m') ->
  post (MultipartClient.request c form (MultipartClient.retries c))
  = Rejected m ->
  MultipartClient.attempts c post form todo a last
  = ((failedRounds c form a (todo - 1)
      ++ [Posted (MultipartClient.request c form (MultipartClient.retries c))])%list,
     MultipartClient.failure c (Some m)).
Proof.
  revert a last. induction todo as [|todo IH]; intros a last Hinv Hpos Hrej Hm.
  - lia.
  - cbn [MultipartClient.attempts].
    destruct todo as [|todo].
    + assert (Ha : a = MultipartClient.retries c) by lia. subst a.
      rewrite Hm, Nat.ltb_irrefl. reflexivity.
    + assert (Ha : a <= a < MultipartClient.retries c) by lia.
      destruct (Hrej a Ha) as [m' Hm']. rewrite Hm'.
      assert (Hlt : (a <? MultipartClient.retries c) = true)
        by (apply Nat.ltb_lt; lia).
      rewrite Hlt.
      rewrite (IH (S a) (Some m')); try lia; try assumption.
      * cbn [fst snd]. f_equal.
        replace (S (S todo) - 1) with (S (S todo - 1)) by lia.
        unfold failedRounds. cbn [seq flat_map]. unfold failedRound at 2.
        now rewrite <- !app_comm_cons, app_assoc.
      * intros j Hj. apply Hrej. lia.
Qed.

(** The loop posts at most once per iteration left, and the time it
    sleeps is at most the sum of the pauses of the attempts before the
    last. *)
Lemma attempts_bounds (todo a : nat) (last : option string) :
  a + todo = MultipartClient.retries c + 1 ->
  1 <= a ->
  postCount (fst (MultipartClient.attempts c post form todo a last)) <= todo
  /\ 2 * sleptMs (fst (MultipartClient.attempts c post form todo a last))
       + MultipartClient.retryDelay c
         * (Nat.min a (MultipartClient.retries c)
            * (Nat.min a (MultipartClient.retries c) - 1))
     <= MultipartClient.retryDelay c
        * (MultipartClient.retries c * (MultipartClient.retries c - 1)).
Proof.
  revert a last. induction todo as [|todo IH]; intros a last Hinv Ha.
  - cbn [MultipartClient.attempts fst postCount sleptMs]. split; [lia|].
    rewrite Nat.min_r by lia. lia.
  - cbn [MultipartClient.attempts].
    destruct (post (MultipartClient.request c form a)) as [data|m].
    + cbn [fst postCount sleptMs]. split; [lia|].
      rewrite Nat.min_l by lia.
      assert (Hle : a * (a - 1)
                    <= MultipartClient.retries c * (MultipartClient.retries c - 1))
        by (apply Nat.mul_le_mono; lia).
      nia.
    + assert (Hinv' : S a + todo = MultipartClient.retries c + 1) by lia.
      assert (Ha' : 1 <= S a) by lia.
      destruct (IH (S a) (Some m) Hinv' Ha') as [Hp Hs].
      destruct (a <? MultipartClient.retries c) eqn:Hlt;
        cbn [fst app postCount sleptMs].
      * apply Nat.ltb_lt in Hlt. split; [lia|].
        rewrite Nat.min_l in Hs by lia. rewrite Nat.min_l by lia.
        replace (S a - 1) with a in Hs by lia.
        replace (S a * a) with (a * (a - 1) + 2 * a) in Hs by nia.
        nia.
      * apply Nat.ltb_ge in Hlt. split; [lia|].
        rewrite Nat.min_r in Hs by lia.
        assert (Hmin : Nat.min a (MultipartClient.retries c)
                       = MultipartClient.retries c) by lia.
        rewrite Hmin. lia.
Qed.

End Retry.

(** [submitReport] returns the data of the first attempt that succeeds.
    When the attempts before the attempt [k] fail and the attempt [k]
    succeeds, [k] being at most [retries], the client posts the attempts 1
    to [k] in order, each with the same form, address and key and with its
    number in X-Attempt, sleeps [retryDelay * j] after the failed attempt
    [j], and returns the data of the attempt [k]; it posts nothing more. *)
Theorem submitReport_returns_first_success :
  forall (c : MultipartClient.t) (post : PostRequest.t -> PostResult)
         (reportJson : string) (evidenceFiles : list EvidenceFile.t)
         (now : string) (k : nat) (data : string),
    let form := MultipartClient.buildForm reportJson evidenceFiles now in
    1 <= k <= MultipartClient.retries c ->
    (forall j, 1 <= j < k ->
       exists m, post (MultipartClient.request c form j) = Rejected m) ->
    post (MultipartClient.request c form k) = Resolved data ->
    MultipartClient.submitReport c post reportJson evidenceFiles now
    = ((failedRounds c form 1 (k - 1)
        ++ [Posted (MultipartClient.request c form k)])%list,
       Returned data).
Proof.
  intros c post reportJson evidenceFiles now k data form Hk Hrej Hok.
  unfold MultipartClient.submitReport. fold form.
  apply attempts_first_success; auto; lia.
Qed.

(** Witness: the default client and a server that accepts the second
    attempt. *)
Lemma submitReport_returns_first_success_witness :
  MultipartClient.submitReport
    (MultipartClient.new "https://compliance.example.com" "dev-key")
    (acceptsFrom 2) "{}" [] "2024-01-01T00:00:00.000Z"
  = ([Posted (MultipartClient.request
                (MultipartClient.new "https://compliance.example.com" "dev-key")
                (MultipartClient.buildForm "{}" [] "2024-01-01T00:00:00.000Z") 1);
      Slept 1000;
      Posted (MultipartClient.request
                (MultipartClient.new "https://compliance.example.com" "dev-key")
                (MultipartClient.buildForm "{}" [] "2024-01-01T00:00:00.000Z") 2)],
     Returned "accepted").
Proof.
  apply (submitReport_returns_first_success
           (MultipartClient.new "https://compliance.example.com" "dev-key")
           (acceptsFrom 2) "{}" [] "2024-01-01T00:00:00.000Z" 2 "accepted").
  - simpl. lia.
  - intros j Hj. assert (j = 1) by lia. subst j.
    now exists "503 Service Unavailable".
  - reflexivity.
Defined.

(** [submitReport] gives up after [retries] attempts.  When [retries] is
    at least 1 and every attempt fails, the client posts the attempts 1 to
    [retries], sleeps [retryDelay * j] after each failed attempt [j] but
    the last, and throws an error whose message names the number of
    attempts and the message of the last failure. *)
Theorem submitReport_gives_up_after_retries :
  forall (c : MultipartClient.t) (post : PostRequest.t -> PostResult)
         (reportJson : string) (evidenceFiles : list EvidenceFile.t)
         (now : string) (last : string),
    let form := MultipartClient.buildForm reportJson evidenceFiles now in
    1 <= MultipartClient.retries c ->
    (forall j, 1 <= j < MultipartClient.retries c ->
       exists m, post (MultipartClient.request c form j) = Rejected m) ->
    post (MultipartClient.request c form (MultipartClient.retries c))
    = Rejected last ->
    MultipartClient.submitReport c post reportJson evidenceFiles now
    = ((failedRounds c form 1 (MultipartClient.retries c - 1)
        ++ [Posted (MultipartClient.request c form (MultipartClient.retries c))])%list,
       Thrown ("Report submission failed after "
               ++ JsString.of_nat (MultipartClient.retries c)
               ++ " attempts: " ++ last)).
Proof.
  intros c post reportJson evidenceFiles now last form Hn Hrej Hlast.
  unfold MultipartClient.submitReport. fold form.
  now apply attempts_all_fail; auto; lia.
Qed.

(** Witness: the default client and a server that rejects every attempt. *)
Lemma submitReport_gives_up_after_retries_witness :
  MultipartClient.submitReport
    (MultipartClient.new "https://compliance.example.com" "dev-key")
    (acceptsFrom 4) "{}" [] "2024-01-01T00:00:00.000Z"
  = ([Posted (MultipartClient.request
                (MultipartClient.new "https://compliance.example.com" "dev-key")
                (MultipartClient.buildForm "{}" [] "2024-01-01T00:00:00.000Z") 1);
      Slept 1000;
      Posted (MultipartClient.request
                (MultipartClient.new "https://compliance.example.com" "dev-key")
                (MultipartClient.buildForm "{}" [] "2024-01-01T00:00:00.000Z") 2);
      Slept 2000;
      Posted (MultipartClient.request
                (MultipartClient.new "https://compliance.example.com" "dev-key")
                (MultipartClient.buildForm "{}" [] "2024-01-01T00:00:00.000Z") 3)],
     Thrown "Report submission failed after 3 attempts: 503 Service Unavailable").
Proof.
  apply (submitReport_gives_up_after_retries
           (MultipartClient.new "https://compliance.example.com" "dev-key")
           (acceptsFrom 4) "{}" [] "2024-01-01T00:00:00.000Z"
           "503 Service Unavailable").
  - simpl. lia.
  - intros j Hj. simpl in Hj.
    assert (Hc : j = 1 \/ j = 2) by lia.
    destruct Hc as [-> | ->]; now exists "503 Service Unavailable".
  - reflexivity.
Defined.

(** The effort of [submitReport] is bounded whatever the server does: at
    most [retries] posts, and a total sleep of at most
    [retryDelay * retries * (retries - 1) / 2] milliseconds.  A client as
    the constructor builds it posts at most 3 times and sleeps at most
    3000 ms. *)
Theorem submitReport_effort_bounded :
  forall (post : PostRequest.t -> PostResult) (reportJson : string)
         (evidenceFiles : list EvidenceFile.t) (now : string),
    (forall c : MultipartClient.t,
       let events :=
         fst (MultipartClient.submitReport c post reportJson evidenceFiles now) in
       postCount events <= MultipartClient.retries c
       /\ 2 * sleptMs events
          <= MultipartClient.retryDelay c
             * (MultipartClient.retries c * (MultipartClient.retries c - 1)))
    /\ (forall baseUrl apiKey : string,
          let events :=
            fst (MultipartClient.submitReport
                   (MultipartClient.new baseUrl apiKey) post reportJson
                   evidenceFiles now) in
          postCount events <= 3 /\ sleptMs events <= 3000).
Proof.
  intros post reportJson evidenceFiles now.
  assert (H : forall c : MultipartClient.t,
             postCount
               (fst (MultipartClient.submitReport c post reportJson
                       evidenceFiles now))
             <= MultipartClient.retries c
             /\ 2 * sleptMs
                      (fst (MultipartClient.submitReport c post reportJson
                              evidenceFiles now))
                <= MultipartClient.retryDelay c
                   * (MultipartClient.retries c
                      * (MultipartClient.retries c - 1))).
  { intros c. unfold MultipartClient.submitReport.
    pose proof (attempts_bounds c post
                  (MultipartClient.buildForm reportJson evidenceFiles now)
                  (MultipartClient.retries c) 1 None) as Hb.
    destruct Hb as [Hp Hs]; [lia | lia |].
    split; [exact Hp|].
    destruct (Nat.min 1 (MultipartClient.retries c)) as [|[|n]] eqn:E;
      simpl in Hs; lia. }
  split; [exact H|].
  intros baseUrl apiKey events. subst events.
  destruct (H (MultipartClient.new baseUrl apiKey)) as [Hp Hs].
  change (MultipartClient.retries (MultipartClient.new baseUrl apiKey))
    with 3 in *.
  change (MultipartClient.retryDelay (MultipartClient.new baseUrl apiKey))
    with 1000 in *.
  split; lia.
Qed.

(* ------------------------------------------------------------------ *)
(** ** Dependency declarations *)

Lemma get_app {V : Type} (a b : list (string * V)) (k : string) :
  JsObject.get (a ++ b)%list k =
  match JsObject.get a k with
  | Some v => Some v
  | None => JsObject.get b k
  end.
Proof.
  induction a as [|[k' v'] a IH]; simpl; [reflexivity|].
  now destruct (String.eqb k k').
Qed.

(** Writing the properties of a list one after the other: the last value
    written under a key stays. *)
Lemma get_fold_set {V : Type} (l : list (string * V)) (o : JsObject.t V)
  (k : string) :
  JsObject.get (fold_left (fun o kv => JsObject.set o (fst kv) (snd kv)) l o) k =
  match JsObject.get (rev l) k with
  | Some v => Some v
  | None => JsObject.get o k
  end.
Proof.
  revert o. induction l as [|[k' v'] l IH]; intros o; simpl.
  - reflexivity.
  - rewrite IH, get_app. simpl.
    destruct (JsObject.get (rev l) k); [reflexivity|].
    rewrite get_set. now destruct (String.eqb k k').
Qed.

Lemma fold_set_NoDup {V : Type} (l : list (string * V)) (o : JsObject.t V) :
  NoDup (map fst o) ->
  NoDup (map fst
           (fold_left (fun o kv => JsObject.set o (fst kv) (snd kv)) l o)).
Proof.
  revert o. induction l as [|kv l IH]; intros o H; simpl; [exact H|].
  apply IH. now apply set_NoDup.
Qed.

(** Reading a key does not depend on the order of the properties, when no
    key occurs twice. *)
Lemma get_Permutation {V : Type} (a b : list (string * V)) (k : string) :
  NoDup (map fst a) -> Permutation a b ->
  JsObject.get a k = JsObject.get b k.
Proof.
  intros Hnd Hp.
  assert (Hndb : NoDup (map fst b))
    by (eapply Permutation_NoDup; [apply Permutation_map; exact Hp | exact Hnd]).
  destruct (JsObject.get a k) as [v|] eqn:Ea.
  - apply get_In in Ea. symmetry. apply In_get_NoDup; [exact Hndb|].
    eapply Permutation_in; eauto.
  - destruct (JsObject.get b k) as [v|] eqn:Eb; [|reflexivity].
    apply get_In in Eb. apply Permutation_sym in Hp.
    pose proof (Permutation_in _ Hp Eb) as Hin.
    apply In_get_NoDup in Hin; [congruence | exact Hnd].
Qed.

Lemma get_rev_entries {V : Type} (o : JsObject.t V) (k : string) :
  NoDup (map fst o) ->
  JsObject.get (rev (JsObject.entries o)) k = JsObject.get o k.
Proof.
  intros Hnd. symmetry. apply get_Permutation; [exact Hnd|].
  rewrite <- Permutation_rev. symmetry. apply entries_Permutation.
Qed.

Lemma get_spreadEntries (o : option (JsObject.t string)) (k : string) :
  (forall t, o = Some t -> NoDup (map fst t)) ->
  JsObject.get (rev (Deps.spreadEntries o)) k =
  match o with
  | Some t => JsObject.get t k
  | None => None
  end.
Proof.
  intros H. destruct o as [t|]; simpl; [|reflexivity].
  apply get_rev_entries. now apply H.
Qed.

(** The merged declarations.  A package declared in [devDependencies] has
    the range of that section, also when [dependencies] declares it too; a
    package declared in [dependencies] only has the range of that section;
    no package occurs twice. *)
Theorem merged_devDependencies_win :
  forall (pkg : PackageJson.t) (name : string),
    (forall t, PackageJson.dependencies pkg = Some t -> NoDup (map fst t)) ->
    (forall t, PackageJson.devDependencies pkg = Some t -> NoDup (map fst t)) ->
    JsObject.get (Deps.merged pkg) name
    = match declared (PackageJson.devDependencies pkg) name with
      | Some range => Some range
      | None => declared (PackageJson.dependencies pkg) name
      end
    /\ NoDup (map fst (Deps.merged pkg)).
Proof.
  intros pkg name Hd Hv. split.
  - unfold Deps.merged. rewrite get_fold_set, rev_app_distr, get_app.
    rewrite (get_spreadEntries _ name Hv), (get_spreadEntries _ name Hd).
    destruct (PackageJson.devDependencies pkg) as [dev|];
      destruct (PackageJson.dependencies pkg) as [dep|]; simpl;
      repeat match goal with
             | |- context [JsObject.get ?t name] =>
                 destruct (JsObject.get t name)
             end; reflexivity.
  - unfold Deps.merged. apply fold_set_NoDup. constructor.
Qed.

(** Witness: lodash is declared in both sections of the sample. *)
Lemma merged_devDependencies_win_witness :
  JsObject.get (Deps.merged samplePackage) "lodash" = Some "4.17.21"
  /\ NoDup (map fst (Deps.merged samplePackage)).
Proof.
  apply (merged_devDependencies_win samplePackage "lodash").
  - intros t [= <-]. simpl.
    repeat (constructor; [simpl; intuition discriminate|]). constructor.
  - intros t [= <-]. simpl.
    repeat (constructor; [simpl; intuition discriminate|]). constructor.
Defined.

(* ------------------------------------------------------------------ *)
(** ** Version ranges *)

Lemma stripRange_split (v : string) :
  exists operators,
    v = operators ++ Deps.stripRange v /\ allRangeChars operators = true.
Proof.
  induction v as [|ch v IH]; simpl.
  - now exists EmptyString.
  - destruct (Deps.isRangeChar ch) eqn:E.
    + destruct IH as [ops [Hv Hops]]. exists (String ch ops). simpl.
      rewrite E, Hops. split; [now f_equal | reflexivity].
    + now exists EmptyString.
Qed.

Lemma stripRange_no_operator (v : string) :
  startsWithRangeChar (Deps.stripRange v) = false.
Proof.
  induction v as [|ch v IH]; simpl; [reflexivity|].
  destruct (Deps.isRangeChar ch) eqn:E; [exact IH|]. simpl. exact E.
Qed.

Lemma stripRange_unchanged (v : string) :
  startsWithRangeChar v = false -> Deps.stripRange v = v.
Proof.
  destruct v as [|ch v]; simpl; [reflexivity|]. now intros ->.
Qed.

(** The version the mirror downloads is the declared range without its
    leading operators: the range is a run of the characters [^ ~ > = <]
    followed by the version, the version does not start with such a
    character, and normalising again changes nothing. *)
Theorem stripRange_removes_leading_operators :
  forall versionRange : string,
    (exists operators,
        versionRange = operators ++ Deps.stripRange versionRange
        /\ allRangeChars operators = true)
    /\ startsWithRangeChar (Deps.stripRange versionRange) = false
    /\ Deps.stripRange (Deps.stripRange versionRange)
       = Deps.stripRange versionRange.
Proof.
  intros v. split; [apply stripRange_split|].
  split; [apply stripRange_no_operator|].
  apply stripRange_unchanged, stripRange_no_operator.
Qed.

Lemma substring_all (s : string) : String.substring 0 (String.length s) s = s.
Proof.
  induction s as [|ch s IH]; simpl; [reflexivity | now rewrite IH].
Qed.

Lemma stripCaret_withoutCaret (version : string) :
  Deps.stripCaret version = withoutCaret version.
Proof.
  destruct version as [|ch v]; [reflexivity|].
  unfold Deps.stripCaret, withoutCaret, Deps.isCaretOrTilde.
  cbn [String.prefix String.length].
  assert (Hp : forall c, (if Ascii.ascii_dec c ch then String.prefix EmptyString v
                          else false) = Ascii.eqb ch c).
  { intros c. destruct (Ascii.ascii_dec c ch) as [->|Hne].
    - rewrite Ascii.eqb_refl. now destruct v.
    - symmetry. apply Ascii.eqb_neq. congruence. }
  rewrite !Hp.
  destruct (Ascii.eqb ch "^" || Ascii.eqb ch "~"); [|reflexivity].
  rewrite Nat.sub_succ, Nat.sub_0_r. cbn [String.substring].
  symmetry. apply substring_all.
Qed.

Lemma stripCaret_iff_stripRange (v : string) :
  Deps.stripCaret v = Deps.stripRange v
  <-> startsWithRangeChar (Deps.stripCaret v) = false.
Proof.
  split.
  - intros ->. apply stripRange_no_operator.
  - destruct v as [|ch v]; [reflexivity|]. unfold Deps.stripCaret.
    destruct (Deps.isCaretOrTilde ch) eqn:E.
    + intros H. simpl.
      assert (Hr : Deps.isRangeChar ch = true).
      { unfold Deps.isCaretOrTilde in E. unfold Deps.isRangeChar.
        apply orb_true_iff in E. destruct E as [-> | ->]; simpl;
          rewrite ?orb_true_r; reflexivity. }
      rewrite Hr. symmetry. now apply stripRange_unchanged.
    + intros H. symmetry. now apply stripRange_unchanged.
Qed.

Lemma checkStep_asked (l : list (string * string))
  (acc : list (string * string) * list CheckError.t) :
  fold_left (checkStep (string * string) asked) l acc
  = ((fst acc ++ map (fun entry => (fst entry, withoutCaret (snd entry))) l)%list,
     snd acc).
Proof.
  revert acc. induction l as [|entry l IH]; intros [reports errors]; simpl.
  - now rewrite app_nil_r.
  - rewrite IH. unfold checkStep, asked. cbn [fst snd].
    now rewrite <- app_assoc, stripCaret_withoutCaret.
Qed.

(** The health checker removes one caret or tilde only, the mirror every
    leading operator.  What the health checker keeps of a declared range is
    the range without its first character when that character is a caret
    or a tilde, and the range as it is written otherwise; the two
    normalisations agree on a range exactly when what the health checker
    keeps does not start with an operator.  So [>=2.0.0] is kept as it is
    written where the mirror keeps [2.0.0], of [^~1.2.3] the tilde stays,
    and a registry that reports the version it is asked about reports, for
    every declared dependency, the range without one caret or tilde. *)
Theorem stripCaret_agrees_with_stripRange :
  (forall version : string,
     Deps.stripCaret version = withoutCaret version
     /\ (Deps.stripCaret version = Deps.stripRange version
         <-> startsWithRangeChar (Deps.stripCaret version) = false))
  /\ Deps.stripCaret ">=2.0.0" = ">=2.0.0"
  /\ Deps.stripRange ">=2.0.0" = "2.0.0"
  /\ Deps.stripCaret "^~1.2.3" = "~1.2.3"
  /\ Deps.stripRange "^~1.2.3" = "1.2.3"
  /\ (forall (isOutdated isDeprecated : string * string -> bool)
             (pkg : PackageJson.t) (now : string),
        FullCheck.results
          (runFullCheck (string * string) isOutdated isDeprecated asked
             pkg now)
        = map (fun entry => (fst entry, withoutCaret (snd entry)))
            (JsObject.entries (Deps.merged pkg))).
Proof.
  split.
  { intros v. split;
      [apply stripCaret_withoutCaret | apply stripCaret_iff_stripRange]. }
  repeat split.
  intros isOutdated isDeprecated pkg now. unfold runFullCheck.
  cbn [FullCheck.results]. now rewrite checkStep_asked.
Qed.

(* ------------------------------------------------------------------ *)
(** ** The loops over the dependencies *)

Section CheckLoop.

Variable Report : Type.
Variable checkPackage : string -> string -> Report + string.

Lemma checkStep_once (acc : list Report * list CheckError.t)
  (entry : string * string) :
  let out := checkStep Report checkPackage acc entry in
  length (fst out) + length (snd out) = length (fst acc) + length (snd acc) + 1
  /\ (forall e, In e (snd out) ->
        In e (snd acc)
        \/ (CheckError.name e, CheckError.version e) = entry).
Proof.
  destruct entry as [name version]. unfold checkStep. cbn [fst snd].
  destruct (checkPackage name (Deps.stripCaret version)) as [r|m];
    cbn [fst snd]; rewrite length_app; simpl; (split; [lia|]).
  - tauto.
  - intros e He. apply in_app_iff in He.
    destruct He as [He|[<-|[]]]; [tauto | now right].
Qed.

Lemma checkStep_fold (l : list (string * string))
  (acc : list Report * list CheckError.t) :
  let out := fold_left (checkStep Report checkPackage) l acc in
  length (fst out) + length (snd out)
  = length (fst acc) + length (snd acc) + length l
  /\ (forall e, In e (snd out) ->
        In e (snd acc)
        \/ In (CheckError.name e, CheckError.version e) l).
Proof.
  revert acc. induction l as [|entry l IH]; intros acc; simpl.
  - split; [lia | tauto].
  - destruct (IH (checkStep Report checkPackage acc entry)) as [Hlen Hin].
    destruct (checkStep_once acc entry) as [Hlen1 Hin1].
    split; [lia|].
    intros e He. destruct (Hin e He) as [H|H]; [|tauto].
    destruct (Hin1 e H) as [H1|H1]; [tauto|]. right. left. now symmetry.
Qed.

End CheckLoop.

Section MirrorLoop.

Variable Tarball : Type.
Variable downloadTarball : string -> string -> Tarball + string.

Lemma mirrorStep_once (acc : list Tarball * list MirrorFailure.t)
  (entry : string * string) :
  let out := mirrorStep Tarball downloadTarball acc entry in
  length (fst out) + length (snd out) = length (fst acc) + length (snd acc) + 1
  /\ (forall f, In f (snd out) ->
        In f (snd acc)
        \/ (MirrorFailure.package f = fst entry
            /\ MirrorFailure.version f = Deps.stripRange (snd entry))).
Proof.
  destruct entry as [name range]. unfold mirrorStep. cbn [fst snd].
  destruct (downloadTarball name (Deps.stripRange range)) as [r|m];
    cbn [fst snd]; rewrite length_app; simpl; (split; [lia|]).
  - tauto.
  - intros f Hf. apply in_app_iff in Hf.
    destruct Hf as [Hf|[<-|[]]]; [tauto | now right].
Qed.

Lemma mirrorStep_fold (l : list (string * string))
  (acc : list Tarball * list MirrorFailure.t) :
  let out := fold_left (mirrorStep Tarball downloadTarball) l acc in
  length (fst out) + length (snd out)
  = length (fst acc) + length (snd acc) + length l
  /\ (forall f, In f (snd out) ->
        In f (snd acc)
        \/ exists range,
             In (MirrorFailure.package f, range) l
             /\ MirrorFailure.version f = Deps.stripRange range).
Proof.
  revert acc. induction l as [|entry l IH]; intros acc; simpl.
  - split; [lia | tauto].
  - destruct (IH (mirrorStep Tarball downloadTarball acc entry)) as [Hlen Hin].
    destruct (mirrorStep_once acc entry) as [Hlen1 Hin1].
    split; [lia|].
    intros f Hf. destruct (Hin f Hf) as [H|[rg [H1 H2]]].
    + destruct (Hin1 f H) as [H1|[H1 H2]]; [tauto|].
      right. exists (snd entry). split; [|exact H2].
      left. rewrite H1. now destruct entry.
    + right. exists rg. tauto.
Qed.

End MirrorLoop.

(** [runFullCheck] accounts for every declared dependency exactly once:
    the checked packages and the errors add up to the number of
    dependencies, which is the number of packages declared; the outdated and
    the deprecated packages are among the checked ones; and each error names
    a declared package with the range as it is declared. *)
Theorem runFullCheck_accounts_for_every_dependency :
  forall (Report : Type) (isOutdated isDeprecated : Report -> bool)
         (checkPackage : string -> string -> Report + string)
         (pkg : PackageJson.t) (now : string),
    let r := runFullCheck Report isOutdated isDeprecated checkPackage pkg now in
    FullCheck.checked r + length (FullCheck.errors r)
    = FullCheck.totalDependencies r
    /\ FullCheck.totalDependencies r = length (Deps.merged pkg)
    /\ FullCheck.checked r = length (FullCheck.results r)
    /\ FullCheck.outdated r <= FullCheck.checked r
    /\ FullCheck.deprecated r <= FullCheck.checked r
    /\ (forall e, In e (FullCheck.errors r) ->
          JsObject.get (Deps.merged pkg) (CheckError.name e)
          = Some (CheckError.version e)).
Proof.
  intros Report isOutdated isDeprecated checkPackage pkg now r. subst r.
  unfold runFullCheck.
  cbn [FullCheck.checked FullCheck.errors FullCheck.totalDependencies
       FullCheck.results FullCheck.outdated FullCheck.deprecated].
  destruct (checkStep_fold Report checkPackage
              (JsObject.entries (Deps.merged pkg)) ([], [])) as [Hlen Hin].
  cbv zeta in Hlen, Hin. simpl length in Hlen.
  repeat split.
  - lia.
  - apply Permutation_length, entries_Permutation.
  - apply filter_length_le.
  - apply filter_length_le.
  - intros e He. destruct (Hin e He) as [[]|H].
    apply (proj1 (entries_In _ _)) in H. apply In_get_NoDup; [|exact H].
    unfold Deps.merged. apply fold_set_NoDup. constructor.
Qed.

(** Without dependencies the health score is not a number: when
    [package.json] declares no package, [runFullCheck] checks nothing and
    divides 0 by 0. *)
Theorem runFullCheck_without_dependencies :
  forall (Report : Type) (isOutdated isDeprecated : Report -> bool)
         (checkPackage : string -> string -> Report + string)
         (pkg : PackageJson.t) (now : string),
    Deps.merged pkg = JsObject.empty ->
    runFullCheck Report isOutdated isDeprecated checkPackage pkg now
    = {| FullCheck.totalDependencies := 0;
         FullCheck.checked := 0;
         FullCheck.outdated := 0;
         FullCheck.deprecated := 0;
         FullCheck.healthScore := Double.NaN;
         FullCheck.results := [];
         FullCheck.errors := [];
         FullCheck.checkedAt := now |}.
Proof.
  intros Report isOutdated isDeprecated checkPackage pkg now Hempty.
  unfold runFullCheck. rewrite Hempty. reflexivity.
Qed.

(** Witness: a [package.json] without the two sections. *)
Lemma runFullCheck_without_dependencies_witness :
  FullCheck.healthScore
    (runFullCheck (string * string) (fun _ => false) (fun _ => false)
       publicOnly (PackageJson.mk None None) "2024-01-01T00:00:00.000Z")
  = Double.NaN.
Proof.
  rewrite (runFullCheck_without_dependencies (string * string)
             (fun _ => false) (fun _ => false) publicOnly
             (PackageJson.mk None None) "2024-01-01T00:00:00.000Z" eq_refl).
  reflexivity.
Defined.

(** [mirrorFromPackageJson] accounts for every declared dependency exactly
    once: the mirrored packages and the failures add up to the total, which
    is the number of packages declared; and each failure names a declared
    package with the version that was asked for, the declared range without
    its leading operators. *)
Theorem mirror_accounts_for_every_dependency :
  forall (Tarball : Type)
         (downloadTarball : string -> string -> Tarball + string)
         (cacheDir : string) (pkg : PackageJson.t),
    let r := mirrorFromPackageJson Tarball downloadTarball cacheDir pkg in
    MirrorRun.mirrored r + MirrorRun.failed r = MirrorRun.total r
    /\ MirrorRun.total r = length (Deps.merged pkg)
    /\ MirrorRun.mirrored r = length (MirrorRun.results r)
    /\ MirrorRun.failed r = length (MirrorRun.failures r)
    /\ (forall f, In f (MirrorRun.failures r) ->
          exists range,
            JsObject.get (Deps.merged pkg) (MirrorFailure.package f)
            = Some range
            /\ MirrorFailure.version f = Deps.stripRange range).
Proof.
  intros Tarball downloadTarball cacheDir pkg r. subst r.
  unfold mirrorFromPackageJson.
  cbn [MirrorRun.mirrored MirrorRun.failed MirrorRun.total MirrorRun.results
       MirrorRun.failures].
  destruct (mirrorStep_fold Tarball downloadTarball
              (JsObject.entries (Deps.merged pkg)) ([], [])) as [Hlen Hin].
  cbv zeta in Hlen, Hin. simpl length in Hlen.
  unfold JsObject.keys. rewrite length_map.
  repeat split.
  - lia.
  - apply Permutation_length, entries_Permutation.
  - intros f Hf. destruct (Hin f Hf) as [[]|[range [H1 H2]]].
    exists range. split; [|exact H2].
    apply (proj1 (entries_In _ _)) in H1. apply In_get_NoDup; [|exact H1].
    unfold Deps.merged. apply fold_set_NoDup. constructor.
Qed.

(* ------------------------------------------------------------------ *)
(** ** Reading and writing along a path *)

Lemma plainKey_facts (k : string) :
  plainKey k = true ->
  Path.unsafeKey k = false /\ Path.isIndex k = false
  /\ JsValue.position k = None /\ String.eqb k "length" = false.
Proof.
  unfold plainKey. intros H.
  apply andb_true_iff in H. destruct H as [H H4].
  apply andb_true_iff in H. destruct H as [H H3].
  apply andb_true_iff in H. destruct H as [H1 H2].
  apply negb_true_iff in H1, H2, H4.
  destruct (JsValue.position k); [discriminate|]. auto.
Qed.

Lemma prop_assign_same (n : JsValue.t) (k : string) (x : JsValue.t) :
  JsValue.isObject n = true -> plainKey k = true ->
  JsValue.prop (JsValue.assign n k x) k = x.
Proof.
  intros Hn Hk. destruct (plainKey_facts k Hk) as [_ [_ [Hp Hl]]].
  destruct n; try discriminate; simpl.
  - rewrite Hp. simpl. rewrite Hp, Hl. now rewrite get_set_same.
  - now rewrite get_set_same.
Qed.

Lemma prop_assign_other (n : JsValue.t) (a b : string) (x : JsValue.t) :
  plainKey a = true -> plainKey b = true -> a <> b ->
  JsValue.prop (JsValue.assign n a x) b = JsValue.prop n b.
Proof.
  intros Ha Hb Hne.
  destruct (plainKey_facts a Ha) as [_ [_ [Hpa _]]].
  destruct (plainKey_facts b Hb) as [_ [_ [Hpb Hlb]]].
  destruct n; try reflexivity; simpl.
  - rewrite Hpa. simpl. rewrite Hpb, Hlb.
    rewrite get_set_other by congruence. reflexivity.
  - rewrite get_set_other by congruence. reflexivity.
Qed.

Lemma hasOwn_assign_same (n : JsValue.t) (k : string) (x : JsValue.t) :
  JsValue.isObject n = true -> plainKey k = true ->
  JsValue.hasOwn (JsValue.assign n k x) k = true.
Proof.
  intros Hn Hk. destruct (plainKey_facts k Hk) as [_ [_ [Hp _]]].
  destruct n; try discriminate; simpl.
  - rewrite Hp. simpl. now rewrite get_set_same.
  - now rewrite get_set_same.
Qed.

Lemma hasOwn_assign_other (n : JsValue.t) (a b : string) (x : JsValue.t) :
  plainKey a = true -> a <> b ->
  JsValue.hasOwn (JsValue.assign n a x) b = JsValue.hasOwn n b.
Proof.
  intros Ha Hne. destruct (plainKey_facts a Ha) as [_ [_ [Hpa _]]].
  destruct n; try reflexivity; simpl.
  - rewrite Hpa. simpl. rewrite get_set_other by congruence. reflexivity.
  - rewrite get_set_other by congruence. reflexivity.
Qed.

Lemma isObject_assign (n : JsValue.t) (k : string) (x : JsValue.t) :
  JsValue.isObject (JsValue.assign n k x) = JsValue.isObject n.
Proof.
  destruct n; try reflexivity. simpl.
  destruct (JsValue.position k) as [i|]; [|reflexivity].
  now destruct (i <? length elements).
Qed.

Lemma isObject_write (keys : list string) (n x : JsValue.t) :
  JsValue.isObject (Path.write n keys x) = JsValue.isObject n.
Proof.
  destruct keys as [|k rest]; simpl; [reflexivity|].
  destruct (Path.unsafeKey k); [reflexivity|].
  destruct rest; apply isObject_assign.
Qed.

Lemma isObject_not_nil (n : JsValue.t) :
  JsValue.isObject n = true -> JsValue.isNil n = false.
Proof. now destruct n. Qed.

Lemma walk_undefined (keys : list string) :
  Path.walk JsValue.Undefined keys = JsValue.Undefined.
Proof. now destruct keys. Qed.

(** Nothing is found along ordinary keys in a value that is not an
    object. *)
Lemma walk_non_object (n : JsValue.t) (keys : list string) :
  JsValue.isObject n = false -> keys <> [] ->
  forallb plainKey keys = true ->
  Path.walk n keys = JsValue.Undefined.
Proof.
  intros Hn Hne Hk. destruct keys as [|k rest]; [congruence|].
  simpl in Hk. apply andb_true_iff in Hk. destruct Hk as [Hk _].
  destruct (plainKey_facts k Hk) as [_ [_ [Hp Hl]]].
  destruct n; try discriminate; simpl; try reflexivity;
    try apply walk_undefined.
  rewrite Hp, Hl. apply walk_undefined.
Qed.

Lemma walk_empty_object (keys : list string) :
  keys <> [] -> Path.walk (JsValue.Obj []) keys = JsValue.Undefined.
Proof.
  destruct keys as [|k rest]; [congruence|]. intros _. simpl.
  apply walk_undefined.
Qed.

(** What is written along ordinary keys is found along them. *)
Lemma walk_write_same (keys : list string) (n x : JsValue.t) :
  JsValue.isObject n = true -> keys <> [] ->
  forallb plainKey keys = true ->
  Path.walk (Path.write n keys x) keys = x.
Proof.
  revert n. induction keys as [|k rest IH]; intros n Hn Hne Hk; [congruence|].
  simpl in Hk. apply andb_true_iff in Hk. destruct Hk as [Hk Hrest].
  destruct (plainKey_facts k Hk) as [Hu _].
  cbn [Path.write]. rewrite Hu.
  destruct rest as [|next rest'].
  - cbn [Path.walk].
    rewrite isObject_not_nil by (now rewrite isObject_assign).
    now rewrite prop_assign_same.
  - cbn [Path.walk].
    rewrite isObject_not_nil by (now rewrite isObject_assign).
    rewrite prop_assign_same by assumption.
    apply IH; [|discriminate|exact Hrest].
    destruct (JsValue.isObject (JsValue.prop n k)) eqn:E; [exact E|].
    now destruct (Path.isIndex next).
Qed.

(** What is written along ordinary keys does not change what is found
    along keys that part ways with them. *)
Lemma walk_write_frame (ps qs : list string) (n x : JsValue.t) :
  JsValue.isObject n = true ->
  forallb plainKey ps = true -> forallb plainKey qs = true ->
  diverge ps qs = true ->
  Path.walk (Path.write n ps x) qs = Path.walk n qs.
Proof.
  revert qs n. induction ps as [|a ps IH]; intros qs n Hn Hps Hqs Hd;
    [discriminate|].
  destruct qs as [|b qs]; [discriminate|].
  simpl in Hps, Hqs, Hd.
  apply andb_true_iff in Hps. destruct Hps as [Ha Hps].
  apply andb_true_iff in Hqs. destruct Hqs as [Hb Hqs].
  destruct (plainKey_facts a Ha) as [Hu _].
  cbn [Path.write]. rewrite Hu.
  assert (Hobj : forall y, JsValue.isNil (JsValue.assign n a y) = false)
    by (intros y; apply isObject_not_nil; now rewrite isObject_assign).
  cbn [Path.walk]. rewrite (isObject_not_nil n Hn).
  destruct (String.eqb a b) eqn:E.
  - apply String.eqb_eq in E. subst b.
    destruct ps as [|next ps']; [discriminate|].
    destruct qs as [|q qs']; [now destruct next|].
    rewrite Hobj, prop_assign_same by assumption.
    simpl in Hps. apply andb_true_iff in Hps. destruct Hps as [Hnext Hps'].
    destruct (plainKey_facts next Hnext) as [_ [Hi _]].
    destruct (JsValue.isObject (JsValue.prop n a)) eqn:Ep.
    + apply IH; auto. simpl. now rewrite Hnext.
    + rewrite Hi. rewrite IH; auto; [|simpl; now rewrite Hnext].
      rewrite walk_empty_object by discriminate.
      symmetry. apply walk_non_object; auto. discriminate.
  - apply String.eqb_neq in E.
    destruct ps as [|next ps'].
    + rewrite Hobj. now rewrite prop_assign_other.
    + rewrite Hobj. now rewrite prop_assign_other.
Qed.

Lemma splitDots_nonempty (p : string) : Path.splitDots p <> [].
Proof.
  destruct p as [|ch rest]; simpl; [discriminate|].
  destruct (Ascii.eqb ch "."%char); [discriminate|].
  destruct (Path.splitDots rest); discriminate.
Qed.

Lemma splitDots_no_dot (p k : string) :
  In k (Path.splitDots p) -> Path.hasDot k = false.
Proof.
  revert k. induction p as [|ch rest IH]; intros k; simpl.
  - intros [<-|[]]. reflexivity.
  - destruct (Ascii.eqb ch "."%char) eqn:E.
    + intros [<-|H]; [reflexivity | now apply IH].
    + destruct (Path.splitDots rest) as [|key keys] eqn:Es.
      * intros [<-|[]]. simpl. now rewrite E.
      * intros [<-|H].
        -- simpl. rewrite E. apply IH. now left.
        -- apply IH. now right.
Qed.

Lemma dottedPath_facts (p : string) :
  dottedPath p = true ->
  Path.hasDot p = true /\ plainKey p = true
  /\ forallb plainKey (Path.splitDots p) = true.
Proof.
  unfold dottedPath. intros H.
  apply andb_true_iff in H. destruct H as [H H3].
  apply andb_true_iff in H. tauto.
Qed.

(** The keys of a dotted path, as [castPath] reads it in an object, are
    ordinary keys, and the first one is the path itself or has no dot. *)
Lemma castPath_facts (p : string) (root : JsValue.t) :
  dottedPath p = true ->
  Path.castPath p root <> []
  /\ forallb plainKey (Path.castPath p root) = true
  /\ exists k rest, Path.castPath p root = k :: rest
                    /\ (k = p \/ Path.hasDot k = false).
Proof.
  intros Hp. destruct (dottedPath_facts p Hp) as [Hd [Hk Hs]].
  unfold Path.castPath.
  destruct (negb (Path.hasDot p) || JsValue.hasOwn root p).
  - split; [discriminate|]. split; [simpl; now rewrite Hk|].
    exists p, []. auto.
  - split; [apply splitDots_nonempty|]. split; [exact Hs|].
    destruct (Path.splitDots p) as [|k rest] eqn:E.
    + now apply splitDots_nonempty in E.
    + exists k, rest. split; [reflexivity|]. right.
      apply (splitDots_no_dot p). rewrite E. now left.
Qed.

(** The first assignment of a write along the keys [k :: rest]. *)
Lemma write_head (n x : JsValue.t) (k : string) (rest : list string) :
  plainKey k = true ->
  exists y, Path.write n (k :: rest) x = JsValue.assign n k y.
Proof.
  intros Hk. destruct (plainKey_facts k Hk) as [Hu _].
  cbn [Path.write]. rewrite Hu. destruct rest; eauto.
Qed.

(** Writing at a dotted path does not change how another dotted path is
    read. *)
Lemma castPath_set_other (p q : string) (root x : JsValue.t) :
  dottedPath p = true -> dottedPath q = true -> p <> q ->
  Path.castPath q (Path.set root p x) = Path.castPath q root.
Proof.
  intros Hp Hq Hne. unfold Path.set.
  destruct (JsValue.isObject root) eqn:Hr; [|reflexivity].
  destruct (castPath_facts p root Hp) as [_ [Hk [k [rest [E Hkp]]]]].
  rewrite E in *. simpl in Hk. apply andb_true_iff in Hk.
  destruct Hk as [Hk _].
  destruct (write_head root x k rest Hk) as [y ->].
  unfold Path.castPath. rewrite hasOwn_assign_other; [reflexivity|exact Hk|].
  destruct Hkp as [->|Hkd]; [exact Hne|].
  intros ->. destruct (dottedPath_facts q Hq) as [Hd _]. congruence.
Qed.

Lemma castPath_set_same (p : string) (root x : JsValue.t) :
  dottedPath p = true ->
  Path.castPath p (Path.set root p x) = Path.castPath p root.
Proof.
  intros Hp. unfold Path.set.
  destruct (JsValue.isObject root) eqn:Hr; [|reflexivity].
  destruct (dottedPath_facts p Hp) as [Hd [Hk Hs]].
  unfold Path.castPath at 2 3. rewrite Hd. simpl.
  destruct (JsValue.hasOwn root p) eqn:Ho.
  - destruct (write_head root x p [] Hk) as [y ->].
    unfold Path.castPath. rewrite hasOwn_assign_same by assumption.
    now rewrite orb_true_r.
  - destruct (Path.splitDots p) as [|k rest] eqn:E;
      [now apply splitDots_nonempty in E|].
    simpl in Hs. apply andb_true_iff in Hs. destruct Hs as [Hk1 _].
    destruct (write_head root x k rest Hk1) as [y ->].
    unfold Path.castPath. rewrite Hd. simpl.
    rewrite hasOwn_assign_other, Ho; [now rewrite E | exact Hk1 |].
    intros ->. assert (Hn : Path.hasDot p = false)
      by (apply (splitDots_no_dot p); rewrite E; now left).
    congruence.
Qed.

(** [_.get] after [_.set] at the same dotted path of an object. *)
Lemma get_set_path_same (p : string) (root x : JsValue.t) :
  JsValue.isObject root = true -> dottedPath p = true ->
  Path.get (Path.set root p x) p = x.
Proof.
  intros Hr Hp. unfold Path.get.
  rewrite castPath_set_same by assumption.
  unfold Path.set. rewrite Hr.
  rewrite isObject_not_nil by (now rewrite isObject_write).
  destruct (castPath_facts p root Hp) as [Hne [Hk _]].
  now apply walk_write_same.
Qed.

Lemma diverge_castPath (p q : string) (root : JsValue.t) :
  dottedPath p = true -> dottedPath q = true -> apart p q = true ->
  diverge (Path.castPath p root) (Path.castPath q root) = true.
Proof.
  intros Hp Hq Ha. unfold apart in Ha.
  apply andb_true_iff in Ha. destruct Ha as [Hne Hd].
  apply negb_true_iff in Hne.
  destruct (dottedPath_facts p Hp) as [Hdp _].
  destruct (dottedPath_facts q Hq) as [Hdq _].
  unfold Path.castPath. rewrite Hdp, Hdq. simpl.
  assert (Hfirst : forall a b rest, Path.splitDots a = b :: rest ->
                     Path.hasDot a = true -> forall c, Path.hasDot c = true ->
                     String.eqb c b = false /\ String.eqb b c = false).
  { intros a b rest E Ha c Hc.
    assert (Hb : Path.hasDot b = false)
      by (apply (splitDots_no_dot a); rewrite E; now left).
    split; apply String.eqb_neq; intros ->; congruence. }
  destruct (JsValue.hasOwn root p), (JsValue.hasOwn root q); simpl.
  - now rewrite Hne.
  - destruct (Path.splitDots q) as [|b rest] eqn:E;
      [now apply splitDots_nonempty in E|].
    destruct (Hfirst q b rest E Hdq p Hdp) as [H1 _].
    cbn [diverge]. now rewrite H1.
  - destruct (Path.splitDots p) as [|b rest] eqn:E;
      [now apply splitDots_nonempty in E|].
    destruct (Hfirst p b rest E Hdp q Hdq) as [_ H2].
    cbn [diverge]. now rewrite H2.
  - exact Hd.
Qed.

(** [_.get] at a dotted path after [_.set] at a dotted path apart from
    it. *)
Lemma get_set_path_frame (p q : string) (root x : JsValue.t) :
  dottedPath p = true -> dottedPath q = true -> apart p q = true ->
  Path.get (Path.set root p x) q = Path.get root q.
Proof.
  intros Hp Hq Ha.
  assert (Hne : p <> q).
  { unfold apart in Ha. apply andb_true_iff in Ha. destruct Ha as [Ha _].
    apply negb_true_iff in Ha. now apply String.eqb_neq. }
  unfold Path.get. rewrite castPath_set_other by assumption.
  unfold Path.set. destruct (JsValue.isObject root) eqn:Hr; [|reflexivity].
  rewrite !isObject_not_nil by (rewrite ?isObject_write; assumption).
  destruct (castPath_facts p root Hp) as [_ [Hkp _]].
  destruct (castPath_facts q root Hq) as [_ [Hkq _]].
  apply walk_write_frame; auto. now apply diverge_castPath.
Qed.

Lemma isObject_set (p : string) (root x : JsValue.t) :
  JsValue.isObject (Path.set root p x) = JsValue.isObject root.
Proof.
  unfold Path.set. destruct (JsValue.isObject root) eqn:E; [|exact E].
  now rewrite isObject_write.
Qed.

(* ------------------------------------------------------------------ *)
(** ** The validation loop *)

Section ValidationLoop.

Variable numberToString : Q -> string.

(** One rule: the default is written if the value is missing, and the
    errors of the rule for the value found are added. *)
Lemma validateStep_spec (config : JsValue.t) (errors : list ValidationError.t)
  (path : string) (rule : Rule.t) :
  validateStep numberToString (config, errors) (path, rule)
  = (applyDefault config rule path,
     (errors ++ judge numberToString rule path (Path.get config path))%list).
Proof.
  unfold validateStep, applyDefault, judge. cbn [fst snd].
  destruct (JsValue.isNil (Path.get config path)) eqn:En.
  - destruct (Rule.default rule).
    + now rewrite app_nil_r.
    + rewrite andb_true_r. destruct (Rule.required rule);
        [reflexivity | now rewrite app_nil_r].
  - rewrite andb_false_r.
    destruct (negb (String.eqb (actualTypeOf (Path.get config path))
                      (Rule.type rule))); [reflexivity|].
    destruct (String.eqb (Rule.type rule) "number");
      [reflexivity | now rewrite app_nil_r].
Qed.

Lemma applyDefault_frame (config : JsValue.t) (rule : Rule.t) (p q : string) :
  dottedPath p = true -> dottedPath q = true -> apart p q = true ->
  Path.get (applyDefault config rule p) q = Path.get config q.
Proof.
  intros Hp Hq Ha. unfold applyDefault.
  destruct (JsValue.isNil (Path.get config p)); [|reflexivity].
  destruct (Rule.default rule); [|reflexivity].
  now apply get_set_path_frame.
Qed.

Lemma applyDefault_filled (config : JsValue.t) (rule : Rule.t) (p : string) :
  dottedPath p = true ->
  Path.get (applyDefault config rule p) p = filled config rule p.
Proof.
  intros Hp. unfold applyDefault, filled.
  destruct (JsValue.isNil (Path.get config p)) eqn:En; [|reflexivity].
  destruct (Rule.default rule) as [d|]; simpl.
  - destruct (JsValue.isObject config) eqn:Eo.
    + now apply get_set_path_same.
    + unfold Path.set. now rewrite Eo.
  - now destruct (JsValue.isObject config).
Qed.

Lemma applyDefault_isObject (config : JsValue.t) (rule : Rule.t) (p : string) :
  JsValue.isObject (applyDefault config rule p) = JsValue.isObject config.
Proof.
  unfold applyDefault.
  destruct (JsValue.isNil (Path.get config p)); [|reflexivity].
  destruct (Rule.default rule); [apply isObject_set | reflexivity].
Qed.

Lemma applyDefault_non_object (config : JsValue.t) (rule : Rule.t) (p : string) :
  JsValue.isObject config = false -> applyDefault config rule p = config.
Proof.
  intros Ho. unfold applyDefault.
  destruct (JsValue.isNil (Path.get config p)); [|reflexivity].
  destruct (Rule.default rule); [|reflexivity].
  unfold Path.set. now rewrite Ho.
Qed.

Lemma filled_ext (c1 c2 : JsValue.t) (rule : Rule.t) (p : string) :
  Path.get c1 p = Path.get c2 p ->
  JsValue.isObject c1 = JsValue.isObject c2 ->
  filled c1 rule p = filled c2 rule p.
Proof. unfold filled. now intros -> ->. Qed.

(** The loop over rules whose paths are apart from one another: each rule
    is judged on the value the initial configuration has at its path, and
    leaves there the value or the default. *)
Lemma validate_fold (todo : list (string * Rule.t)) :
  wellFormed todo = true ->
  forall (config : JsValue.t) (errors : list ValidationError.t),
    let final := fold_left (validateStep numberToString) todo (config, errors) in
    snd final
    = (errors
       ++ flat_map
            (fun e => judge numberToString (snd e) (fst e)
                        (Path.get config (fst e)))
            todo)%list
    /\ (forall p r, In (p, r) todo ->
          Path.get (fst final) p = filled config r p)
    /\ (forall q, dottedPath q = true ->
          forallb (fun e => apart (fst e) q) todo = true ->
          Path.get (fst final) q = Path.get config q)
    /\ JsValue.isObject (fst final) = JsValue.isObject config
    /\ (JsValue.isObject config = false -> fst final = config).
Proof.
  induction todo as [|[p r] rest IH]; intros Hwf config errors.
  - simpl. rewrite app_nil_r. repeat split; auto. intros p r [].
  - simpl in Hwf. apply andb_true_iff in Hwf. destruct Hwf as [Hwf Hrest].
    apply andb_true_iff in Hwf. destruct Hwf as [Hp Hapart].
    rewrite forallb_forall in Hapart.
    cbn [fold_left]. rewrite validateStep_spec.
    destruct (IH Hrest (applyDefault config r p)
                (errors ++ judge numberToString r p (Path.get config p))%list)
      as [Herr [Hval [Hframe [Hobj Hnon]]]].
    cbv zeta in Herr, Hval, Hframe, Hobj, Hnon. cbv zeta.
    assert (Hget : forall e, In e rest ->
                     Path.get (applyDefault config r p) (fst e)
                     = Path.get config (fst e) /\ dottedPath (fst e) = true).
    { intros e He. pose proof (Hapart e He) as Ha.
      apply andb_true_iff in Ha. destruct Ha as [Ha Ha'].
      assert (Hq : dottedPath (fst e) = true).
      { clear - Hrest He. induction rest as [|[q r'] rest IHr]; [contradiction|].
        simpl in Hrest. apply andb_true_iff in Hrest.
        destruct Hrest as [Hrest Hr]. apply andb_true_iff in Hrest.
        destruct He as [<-|He]; [tauto | now apply IHr]. }
      split; [now apply applyDefault_frame | exact Hq]. }
    repeat split.
    + rewrite Herr. cbn [flat_map fst snd]. rewrite <- app_assoc. do 2 f_equal.
      rewrite !flat_map_concat_map. f_equal.
      apply map_ext_in. intros e He.
      now rewrite (proj1 (Hget e He)).
    + intros q r' [Heq|Hin].
      * injection Heq as <- <-.
        rewrite Hframe; [now apply applyDefault_filled | exact Hp |].
        apply forallb_forall. intros e He.
        pose proof (Hapart e He) as Ha.
        apply andb_true_iff in Ha. tauto.
      * rewrite (Hval q r' Hin). apply filled_ext.
        -- apply (proj1 (Hget (q, r') Hin)).
        -- apply applyDefault_isObject.
    + intros q Hq Hall. cbn [forallb fst] in Hall.
      apply andb_true_iff in Hall. destruct Hall as [Hpq Hall].
      rewrite Hframe by assumption. now apply applyDefault_frame.
    + rewrite Hobj. apply applyDefault_isObject.
    + intros Ho. rewrite Hnon; [now apply applyDefault_non_object|].
      now rewrite applyDefault_isObject.
Qed.

(** The loop leaves the configuration as it is when no default is to be
    written. *)
Lemma validate_fold_unchanged (todo : list (string * Rule.t))
  (config : JsValue.t) (errors : list ValidationError.t) :
  (forall p r, In (p, r) todo ->
     JsValue.isNil (Path.get config p) = true -> Rule.default r = None) ->
  fst (fold_left (validateStep numberToString) todo (config, errors)) = config.
Proof.
  revert errors. induction todo as [|[p r] rest IH]; intros errors H;
    [reflexivity|].
  cbn [fold_left]. rewrite validateStep_spec.
  assert (E : applyDefault config r p = config).
  { unfold applyDefault.
    destruct (JsValue.isNil (Path.get config p)) eqn:En; [|reflexivity].
    now rewrite (H p r (or_introl eq_refl) En). }
  rewrite E. apply IH. intros q r' Hin. apply H. now right.
Qed.

End ValidationLoop.

(* ------------------------------------------------------------------ *)
(** ** validateConfig *)

Lemma schemaRules_wellFormed : wellFormed schemaRules = true.
Proof. vm_compute. reflexivity. Qed.

Lemma schemaRules_defaultsAccepted : defaultsAccepted schemaRules = true.
Proof. vm_compute. reflexivity. Qed.

Lemma schemaRules_token :
  In ("integrations.github.token", tokenRule) schemaRules.
Proof. vm_compute. tauto. Qed.

Lemma wellFormed_dotted (rules : list (string * Rule.t)) (p : string)
  (r : Rule.t) :
  wellFormed rules = true -> In (p, r) rules -> dottedPath p = true.
Proof.
  induction rules as [|[q r'] rest IH]; [contradiction|].
  simpl. intros H [Heq|Hin].
  - injection Heq as <- <-. apply andb_true_iff in H. destruct H as [H _].
    apply andb_true_iff in H. tauto.
  - apply andb_true_iff in H. destruct H as [_ H]. now apply IH.
Qed.

Lemma get_non_object (raw : JsValue.t) (p : string) :
  JsValue.isObject raw = false -> dottedPath p = true ->
  Path.get raw p = JsValue.Undefined.
Proof.
  intros Ho Hp. unfold Path.get.
  destruct (JsValue.isNil raw); [reflexivity|].
  destruct (castPath_facts p raw Hp) as [Hne [Hk _]].
  now apply walk_non_object.
Qed.

Lemma valid_mk (v : bool) (e : list ValidationError.t) (c : JsValue.t) :
  Validation.valid (Validation.mk v e c) = v.
Proof. reflexivity. Qed.

Lemma errors_mk (v : bool) (e : list ValidationError.t) (c : JsValue.t) :
  Validation.errors (Validation.mk v e c) = e.
Proof. reflexivity. Qed.

Lemma config_mk (v : bool) (e : list ValidationError.t) (c : JsValue.t) :
  Validation.config (Validation.mk v e c) = c.
Proof. reflexivity. Qed.

Section ValidateFacts.

Variable numberToString : Q -> string.

Lemma rangeErrors_nil (rule : Rule.t) (p : string) (n : Q) :
  rangeErrors numberToString rule p (JsValue.Num n) = [] <->
  match Rule.min rule with
  | Some min => negb (Lodash.ltb n min)
  | None => true
  end
  && match Rule.max rule with
     | Some max => negb (Lodash.ltb max n)
     | None => true
     end = true.
Proof.
  unfold rangeErrors.
  destruct (Rule.min rule) as [mn|], (Rule.max rule) as [mx|]; simpl;
    repeat match goal with
           | |- context [Lodash.ltb ?a ?b] => destruct (Lodash.ltb a b)
           end; simpl; split; (discriminate || reflexivity).
Qed.

(** A rule raises no error exactly for the values it accepts. *)
Lemma judge_accepts (rule : Rule.t) (p : string) (v : JsValue.t) :
  judge numberToString rule p v = [] <-> accepts rule v = true.
Proof.
  unfold judge, accepts.
  destruct (JsValue.isNil v) eqn:En.
  - destruct (Rule.default rule); [tauto|].
    destruct (Rule.required rule); simpl; split; (discriminate || reflexivity).
  - destruct (String.eqb (actualTypeOf v) (Rule.type rule)) eqn:Et; simpl;
      [|split; discriminate].
    destruct (String.eqb (Rule.type rule) "number") eqn:Enum; simpl; [|tauto].
    destruct v; try (simpl; tauto). apply rangeErrors_nil.
Qed.

Lemma accepts_conforms (rule : Rule.t) (v : JsValue.t) :
  accepts rule v = true ->
  (JsValue.isNil v = true -> Rule.default rule = None) ->
  conforms rule v.
Proof.
  unfold accepts, conforms. intros Ha Hd.
  destruct (JsValue.isNil v) eqn:En.
  - split; [|discriminate]. intros _.
    rewrite (Hd eq_refl) in *. apply negb_true_iff in Ha. auto.
  - split; [discriminate|]. intros _.
    apply andb_true_iff in Ha. destruct Ha as [Ht Hr].
    apply String.eqb_eq in Ht. split; [exact Ht|].
    intros n ->. unfold actualTypeOf in Ht. simpl in Ht.
    rewrite <- Ht in Hr. simpl in Hr.
    apply andb_true_iff in Hr. destruct Hr as [Hmin Hmax].
    split.
    + intros mn Hmn. rewrite Hmn in Hmin. apply negb_true_iff in Hmin.
      now apply ltb_false in Hmin.
    + intros mx Hmx. rewrite Hmx in Hmax. apply negb_true_iff in Hmax.
      now apply ltb_false in Hmax.
Qed.

(** [validateConfig] is the loop over the rules of the schema. *)
Lemma validateConfig_unfold (raw : JsValue.t) :
  validateConfig numberToString raw
  = {| Validation.valid :=
         length (snd (fold_left (validateStep numberToString) schemaRules
                        (raw, []))) =? 0;
       Validation.errors :=
         snd (fold_left (validateStep numberToString) schemaRules (raw, []));
       Validation.config :=
         fst (fold_left (validateStep numberToString) schemaRules (raw, [])) |}.
Proof. reflexivity. Qed.

(** What [validateConfig] computes, in terms of the input. *)
Lemma validateConfig_fold (raw : JsValue.t) :
  Validation.errors (validateConfig numberToString raw)
  = flat_map
      (fun e => judge numberToString (snd e) (fst e) (Path.get raw (fst e)))
      schemaRules
  /\ (forall p r, In (p, r) schemaRules ->
        Path.get (Validation.config (validateConfig numberToString raw)) p
        = filled raw r p)
  /\ JsValue.isObject (Validation.config (validateConfig numberToString raw))
     = JsValue.isObject raw
  /\ (JsValue.isObject raw = false ->
      Validation.config (validateConfig numberToString raw) = raw).
Proof.
  rewrite validateConfig_unfold, errors_mk, config_mk.
  destruct (validate_fold numberToString schemaRules schemaRules_wellFormed
              raw []) as [Herr [Hval [_ [Hobj Hnon]]]].
  rewrite app_nil_l in Herr.
  repeat split; assumption.
Qed.

Lemma validateConfig_valid (raw : JsValue.t) :
  Validation.valid (validateConfig numberToString raw) = true <->
  Validation.errors (validateConfig numberToString raw) = [].
Proof.
  rewrite validateConfig_unfold, valid_mk, errors_mk.
  rewrite Nat.eqb_eq. apply length_zero_iff_nil.
Qed.

End ValidateFacts.

(** [validateConfig] judges the configuration it is given.  Each rule of
    the schema is judged on the value the given configuration has at the
    path of the rule: the defaults written for the rules visited earlier do
    not change what the later rules read.  At the path of each rule the
    returned configuration has the value that was given, or, when that
    value is missing and the configuration is an object, the default of the
    rule: a value that is given is never replaced.  [valid] tells whether the
    list of errors is empty. *)
Theorem validateConfig_judges_the_input :
  forall (numberToString : Q -> string) (rawConfig : JsValue.t),
    let result := validateConfig numberToString rawConfig in
    Validation.errors result
    = flat_map
        (fun e => judge numberToString (snd e) (fst e)
                    (Path.get rawConfig (fst e)))
        schemaRules
    /\ (forall p r, In (p, r) schemaRules ->
          Path.get (Validation.config result) p = filled rawConfig r p)
    /\ (Validation.valid result = true <-> Validation.errors result = []).
Proof.
  intros numberToString rawConfig result. subst result.
  destruct (validateConfig_fold numberToString rawConfig) as [He [Hv _]].
  split; [exact He|]. split; [exact Hv|].
  apply validateConfig_valid.
Qed.

(** A configuration that [validateConfig] declares valid conforms to the
    schema, defaults included: at the path of every rule, the returned
    configuration has a value when the rule requires one or gives a
    default, and a value that is there has the type of the rule and, for a
    number, lies within the bounds of the rule. *)
Theorem validateConfig_valid_conforms :
  forall (numberToString : Q -> string) (rawConfig : JsValue.t),
    Validation.valid (validateConfig numberToString rawConfig) = true ->
    forall p r, In (p, r) schemaRules ->
      conforms r
        (Path.get
           (Validation.config (validateConfig numberToString rawConfig)) p).
Proof.
  intros numberToString rawConfig Hvalid p r Hin.
  destruct (validateConfig_fold numberToString rawConfig) as [He [Hv _]].
  assert (Hnil : Validation.errors (validateConfig numberToString rawConfig) = [])
    by (apply validateConfig_valid; exact Hvalid).
  rewrite He in Hnil.
  assert (Hjudge : forall q r', In (q, r') schemaRules ->
             judge numberToString r' q (Path.get rawConfig q) = []).
  { intros q r' Hq. rewrite flat_map_concat_map in Hnil.
    apply concat_nil_Forall in Hnil. rewrite Forall_forall in Hnil.
    apply (Hnil (judge numberToString r' q (Path.get rawConfig q))).
    apply in_map_iff. exists (q, r'). split; [reflexivity | exact Hq]. }
  assert (Hobj : JsValue.isObject rawConfig = true).
  { destruct (JsValue.isObject rawConfig) eqn:Eo; [reflexivity|].
    pose proof (Hjudge _ _ schemaRules_token) as Ht.
    rewrite get_non_object in Ht; [discriminate | exact Eo |].
    vm_compute. reflexivity. }
  rewrite (Hv p r Hin).
  pose proof (Hjudge p r Hin) as Hj. apply judge_accepts in Hj.
  pose proof schemaRules_defaultsAccepted as Hdef.
  unfold defaultsAccepted in Hdef. rewrite forallb_forall in Hdef.
  specialize (Hdef (p, r) Hin). cbn [snd] in Hdef.
  unfold filled. rewrite Hobj, andb_true_r.
  destruct (JsValue.isNil (Path.get rawConfig p)) eqn:En.
  - destruct (Rule.default r) as [d|] eqn:Ed.
    + apply andb_true_iff in Hdef. destruct Hdef as [Hd Ha].
      apply negb_true_iff in Hd. apply accepts_conforms; [exact Ha|].
      intros Hn. congruence.
    + apply accepts_conforms; [exact Hj | intros _; exact Ed].
  - apply accepts_conforms; [exact Hj|]. intros Hn. congruence.
Qed.

(** Witness: a configuration that gives the token only is valid. *)
Lemma validateConfig_valid_conforms_witness :
  conforms tokenRule
    (Path.get (Validation.config (validateConfig decimalText tokenOnly))
       "integrations.github.token").
Proof.
  assert (Hvalid : Validation.valid (validateConfig decimalText tokenOnly) = true)
    by (vm_compute; reflexivity).
  exact (validateConfig_valid_conforms decimalText tokenOnly Hvalid
           "integrations.github.token" tokenRule schemaRules_token).
Defined.

Section ValidateAgain.

Variable numberToString : Q -> string.

Lemma validateConfig_errors (raw : JsValue.t) :
  Validation.errors (validateConfig numberToString raw)
  = snd (fold_left (validateStep numberToString) schemaRules (raw, [])).
Proof. rewrite validateConfig_unfold. apply errors_mk. Qed.

Lemma validateConfig_config (raw : JsValue.t) :
  Validation.config (validateConfig numberToString raw)
  = fst (fold_left (validateStep numberToString) schemaRules (raw, [])).
Proof. rewrite validateConfig_unfold. apply config_mk. Qed.

Lemma validateConfig_valid_length (raw : JsValue.t) :
  Validation.valid (validateConfig numberToString raw)
  = (length (Validation.errors (validateConfig numberToString raw)) =? 0).
Proof. rewrite validateConfig_unfold, valid_mk, errors_mk. reflexivity. Qed.

Lemma validation_eq (a b : Validation.t) :
  Validation.valid a = Validation.valid b ->
  Validation.errors a = Validation.errors b ->
  Validation.config a = Validation.config b ->
  a = b.
Proof. destruct a, b. simpl. congruence. Qed.

(** The errors of a value that is not an object. *)
Lemma judge_undefined :
  flat_map
    (fun e => judge numberToString (snd e) (fst e) JsValue.Undefined)
    schemaRules
  = [tokenMissing].
Proof. vm_compute. reflexivity. Qed.

(** The returned configuration raises the errors of the given one. *)
Lemma judge_filled (raw : JsValue.t) (p : string) (r : Rule.t) :
  In (p, r) schemaRules ->
  judge numberToString r p (filled raw r p)
  = judge numberToString r p (Path.get raw p).
Proof.
  intros Hin. unfold filled.
  destruct (JsValue.isNil (Path.get raw p) && JsValue.isObject raw) eqn:E;
    [|reflexivity].
  destruct (Rule.default r) as [d|] eqn:Ed; [|reflexivity].
  apply andb_true_iff in E. destruct E as [En _].
  pose proof schemaRules_defaultsAccepted as Hdef.
  unfold defaultsAccepted in Hdef. rewrite forallb_forall in Hdef.
  specialize (Hdef (p, r) Hin). cbn [snd] in Hdef. rewrite Ed in Hdef.
  apply andb_true_iff in Hdef. destruct Hdef as [_ Ha].
  apply (proj2 (judge_accepts numberToString r p d)) in Ha. rewrite Ha.
  unfold judge. rewrite En, Ed. reflexivity.
Qed.

(** The returned configuration of an object lacks a value only where the
    rule has no default. *)
Lemma filled_nil (raw : JsValue.t) (p : string) (r : Rule.t) :
  JsValue.isObject raw = true ->
  In (p, r) schemaRules ->
  JsValue.isNil (filled raw r p) = true -> Rule.default r = None.
Proof.
  intros Hobj Hin. unfold filled. rewrite Hobj, andb_true_r.
  destruct (Rule.default r) as [d|] eqn:Ed; [|reflexivity].
  pose proof schemaRules_defaultsAccepted as Hdef.
  unfold defaultsAccepted in Hdef. rewrite forallb_forall in Hdef.
  specialize (Hdef (p, r) Hin). cbn [snd] in Hdef. rewrite Ed in Hdef.
  apply andb_true_iff in Hdef. destruct Hdef as [Hd _].
  apply negb_true_iff in Hd.
  destruct (JsValue.isNil (Path.get raw p)) eqn:En; congruence.
Qed.

End ValidateAgain.

(** Validating the configuration that [validateConfig] returns changes
    nothing: the second pass returns the same configuration, the same errors
    and the same verdict as the first.  The defaults of the schema are values
    their own rules accept, and a default is written only where a value is
    missing. *)
Theorem validateConfig_idempotent :
  forall (numberToString : Q -> string) (rawConfig : JsValue.t),
    validateConfig numberToString
      (Validation.config (validateConfig numberToString rawConfig))
    = validateConfig numberToString rawConfig.
Proof.
  intros numberToString rawConfig.
  destruct (validateConfig_fold numberToString rawConfig)
    as [He [Hv [Hobj Hnon]]].
  destruct (JsValue.isObject rawConfig) eqn:Eo.
  2:{ now rewrite (Hnon eq_refl). }
  remember (Validation.config (validateConfig numberToString rawConfig))
    as returned eqn:Hreturned.
  destruct (validateConfig_fold numberToString returned) as [He' _].
  assert (Herrors : Validation.errors (validateConfig numberToString returned)
                    = Validation.errors (validateConfig numberToString rawConfig)).
  { rewrite He', He. rewrite !flat_map_concat_map. f_equal.
    apply map_ext_in. intros [p r] Hin. cbn [fst snd].
    rewrite (Hv p r Hin). exact (judge_filled numberToString rawConfig p r Hin). }
  apply validation_eq.
  - rewrite !validateConfig_valid_length. rewrite Herrors. reflexivity.
  - exact Herrors.
  - rewrite <- Hreturned.
    rewrite (validateConfig_config numberToString returned).
    apply validate_fold_unchanged. intros p r Hin Hnil.
    rewrite (Hv p r Hin) in Hnil.
    exact (filled_nil rawConfig p r Eo Hin Hnil).
Qed.

(** A value that is not an object or an array ([undefined], [null], a
    number, a text, a boolean) is returned as it is: no default is written,
    and the one error is the missing GitHub token. *)
Theorem validateConfig_non_object :
  forall (numberToString : Q -> string) (rawConfig : JsValue.t),
    JsValue.isObject rawConfig = false ->
    validateConfig numberToString rawConfig
    = {| Validation.valid := false;
         Validation.errors := [tokenMissing];
         Validation.config := rawConfig |}.
Proof.
  intros numberToString rawConfig Eo.
  destruct (validateConfig_fold numberToString rawConfig)
    as [He [_ [_ Hnon]]].
  assert (Herrors : Validation.errors (validateConfig numberToString rawConfig)
                    = [tokenMissing]).
  { rewrite He, <- (judge_undefined numberToString).
    rewrite !flat_map_concat_map. f_equal.
    apply map_ext_in. intros [p r] Hin. cbn [fst snd].
    rewrite get_non_object; [reflexivity | exact Eo |].
    exact (wellFormed_dotted _ _ _ schemaRules_wellFormed Hin). }
  apply validation_eq.
  - rewrite validateConfig_valid_length, Herrors, valid_mk. reflexivity.
  - rewrite Herrors, errors_mk. reflexivity.
  - rewrite (Hnon Eo), config_mk. reflexivity.
Qed.

(** Witness: [validateConfig(null)]. *)
Lemma validateConfig_non_object_witness :
  validateConfig decimalText JsValue.Null
  = {| Validation.valid := false;
       Validation.errors := [tokenMissing];
       Validation.config := JsValue.Null |}.
Proof.
  exact (validateConfig_non_object decimalText JsValue.Null eq_refl).
Defined.

(* ------------------------------------------------------------------ *)
(** ** mergeEnvOverrides *)

Lemma lower_char_facts (ch : ascii) :
  JsString.is_upper
    (if Ascii.eqb (Env.lower_char ch) "_"%char then "."%char
     else Env.lower_char ch) = false
  /\ Ascii.eqb
       (if Ascii.eqb (Env.lower_char ch) "_"%char then "."%char
        else Env.lower_char ch) "_"%char = false.
Proof.
  destruct ch as [[] [] [] [] [] [] [] []]; vm_compute; split; reflexivity.
Qed.

Lemma overridePath_chars (s : string) :
  lowerOnly (Env.underscoresToDots (Env.toLowerCase s)) = true.
Proof.
  induction s as [|ch rest IH]; [reflexivity|].
  cbn [Env.toLowerCase Env.underscoresToDots lowerOnly].
  destruct (lower_char_facts ch) as [Hu Hs]. now rewrite Hu, Hs, IH.
Qed.

Lemma env_char_round_trip (ch : ascii) :
  JsString.is_lower ch || JsString.is_digit ch || Ascii.eqb ch "."%char = true ->
  (let c := Env.lower_char
              (if Ascii.eqb ch "."%char then "_"%char
               else JsString.upper_char ch) in
   if Ascii.eqb c "_"%char then "."%char else c) = ch.
Proof.
  destruct ch as [[] [] [] [] [] [] [] []]; vm_compute;
    intros H; (reflexivity || discriminate).
Qed.

Lemma envChars_round_trip (p : string) :
  lowerDotted p = true ->
  Env.underscoresToDots (Env.toLowerCase (envChars p)) = p.
Proof.
  induction p as [|ch rest IH]; [reflexivity|].
  cbn [lowerDotted envChars Env.toLowerCase Env.underscoresToDots].
  intros H. apply andb_true_iff in H. destruct H as [Hc Hr].
  rewrite (IH Hr). f_equal. exact (env_char_round_trip ch Hc).
Qed.

Lemma dropPrefix_envName (p : string) : Env.dropPrefix (envName p) = envChars p.
Proof. reflexivity. Qed.

(** The path [mergeEnvOverrides] computes for a variable never has an
    upper-case letter or an underscore.  So no variable reaches the values of
    the schema whose names are written in camel case: the base URLs of GitHub
    and Jira, the Jira API token and project key, the Slack webhook URL and
    the batch size. *)
Theorem overridePath_never_camelCase :
  (forall key, lowerOnly (Env.overridePath key) = true)
  /\ (forall key, ~ In (Env.overridePath key) camelCasePaths)
  /\ camelCasePaths
     = [ "integrations.github.baseUrl"; "integrations.jira.baseUrl";
         "integrations.jira.apiToken"; "integrations.jira.projectKey";
         "integrations.slack.webhookUrl"; "processing.batchSize" ].
Proof.
  split; [|split].
  - intros key. apply overridePath_chars.
  - intros key Hin. unfold camelCasePaths in Hin.
    apply (proj1 (filter_In _ _ _)) in Hin. destruct Hin as [_ Hin].
    unfold Env.overridePath in Hin. rewrite overridePath_chars in Hin.
    discriminate.
  - vm_compute. reflexivity.
Qed.

(** The naming convention works for a path of lower-case letters, digits
    and dots: the variable named after the path ([CONFVE_SERVER_PORT] for
    [server.port]) is given that very path. *)
Theorem overridePath_envName :
  forall p, lowerDotted p = true -> Env.overridePath (envName p) = p.
Proof.
  intros p H. unfold Env.overridePath. rewrite dropPrefix_envName.
  now apply envChars_round_trip.
Qed.

(** Witness: [CONFVE_SERVER_PORT]. *)
Lemma overridePath_envName_witness :
  Env.overridePath "CONFVE_SERVER_PORT" = "server.port".
Proof.
  exact (overridePath_envName "server.port" eq_refl).
Defined.
